(** * Search orchestration and result fusion: a shallow embedding

    The development follows three source modules:
    - [backend/result_synthesizer.py]  (class [ResultSynthesizer]),
    - [backend/query_processor.py]     (class [QueryProcessor]),
    - [backend/search_orchestrator.py] (class [SearchOrchestrator]),
    and, for the further properties, the two request handlers of
    [backend/main.py], [OllamaQueryProcessor] and the result parsing of the
    Wikipedia, Wikidata and SearXNG adapters under [backend/engines/].

    Conventions of the embedding.
    - A Python [str] is a [string]; a character is a code point below 256
      (the Latin-1 range of [str]), on which [str.lower], [str.strip],
      [str.split] and the regular-expression classes [\w] and [\b] are
      written out.
    - A Python [dict] that is iterated ([raw_results], [self.engines]) is an
      association list in insertion order; a [dict] that is only looked up
      ([seen_urls]) is a [gmap]; a [set] of strings is a [gset].
    - A Python [float] is the rational number it denotes ([Q]); every
      float operation and every float literal rounds the exact value to the
      nearest double, a tie to the even one ([Binary64.round]).
    - [SequenceMatcher] (difflib), the iteration order of a [set] and the
      completion order of concurrent tasks are parameters of the model. *)

From Stdlib Require Import Ascii String List Bool Arith ZArith QArith Qpower.
From Stdlib Require Import Lia Lqa.
From Stdlib Require PrimFloat FloatOps SpecFloat.
From Stdlib Require Import Permutation Sorted DecimalString.
From stdpp Require Import base decidable option list gmap strings.

Import ListNotations.
Local Open Scope bool_scope.

(** ** Text primitives *)

Module Text.

Definition code (c : ascii) : nat := nat_of_ascii c.

Definition in_range (lo hi : nat) (c : ascii) : bool :=
  Nat.leb lo (code c) && Nat.leb (code c) hi.

(** [str.lower] on one code point: A-Z and the Latin-1 capitals
    (U+00C0..U+00DE except the multiplication sign U+00D7). *)
Definition lower_char (c : ascii) : ascii :=
  if in_range 65 90 c
     || (in_range 192 222 c && negb (Nat.eqb (code c) 215))
  then ascii_of_nat (code c + 32)
  else c.

Fixpoint lower (s : string) : string :=
  match s with
  | EmptyString => EmptyString
  | String c r => String (lower_char c) (lower r)
  end.

(** [str.isspace] on one code point. *)
Definition is_space (c : ascii) : bool :=
  in_range 9 13 c || in_range 28 32 c
  || Nat.eqb (code c) 133 || Nat.eqb (code c) 160.

(** The class [\w] of [re] on [str] patterns: alphanumeric or underscore. *)
Definition is_word (c : ascii) : bool :=
  in_range 48 57 c || in_range 65 90 c || in_range 97 122 c
  || Nat.eqb (code c) 95
  || Nat.eqb (code c) 170 || Nat.eqb (code c) 178 || Nat.eqb (code c) 179
  || Nat.eqb (code c) 181 || Nat.eqb (code c) 185 || Nat.eqb (code c) 186
  || in_range 188 190 c
  || (in_range 192 255 c && negb (Nat.eqb (code c) 215)
      && negb (Nat.eqb (code c) 247)).

(** [s.startswith(p)], returning the remainder. *)
Fixpoint strip_prefix (p s : string) : option string :=
  match p with
  | EmptyString => Some s
  | String a p' =>
      match s with
      | EmptyString => None
      | String b s' => if Ascii.eqb a b then strip_prefix p' s' else None
      end
  end.

(** [s.rstrip(chars)] for a character class. *)
Fixpoint rstrip (cls : ascii -> bool) (s : string) : string :=
  match s with
  | EmptyString => EmptyString
  | String c r =>
      match rstrip cls r with
      | EmptyString => if cls c then EmptyString else String c EmptyString
      | String d r' => String c (String d r')
      end
  end.

Fixpoint lstrip (cls : ascii -> bool) (s : string) : string :=
  match s with
  | EmptyString => EmptyString
  | String c r => if cls c then lstrip cls r else s
  end.

(** [s.strip()] *)
Definition strip (s : string) : string := rstrip is_space (lstrip is_space s).

(** [s.split(sep)[0]] for a one-character separator. *)
Fixpoint before (sep : ascii) (s : string) : string :=
  match s with
  | EmptyString => EmptyString
  | String c r => if Ascii.eqb c sep then EmptyString else String c (before sep r)
  end.

(** [sep.join(l)] *)
Fixpoint join (sep : string) (l : list string) : string :=
  match l with
  | [] => EmptyString
  | [x] => x
  | x :: r => x +:+ sep +:+ join sep r
  end.

(** [s[:n]] for n >= 0 *)
Fixpoint take_str (n : nat) (s : string) : string :=
  match n, s with
  | O, _ => EmptyString
  | _, EmptyString => EmptyString
  | S n', String c r => String c (take_str n' r)
  end.

(** [s.split()]: maximal runs of non-space characters. *)
Fixpoint split_go (cur : string) (s : string) : list string :=
  match s with
  | EmptyString => if String.eqb cur "" then [] else [cur]
  | String c r =>
      if is_space c
      then (if String.eqb cur "" then split_go "" r else cur :: split_go "" r)
      else split_go (cur +:+ String c "") r
  end.

Definition split_ws (s : string) : list string := split_go "" s.

(** [re.findall(r'\b\w+\b', s)]: maximal runs of word characters. *)
Fixpoint words_go (cur : string) (s : string) : list string :=
  match s with
  | EmptyString => if String.eqb cur "" then [] else [cur]
  | String c r =>
      if is_word c
      then words_go (cur +:+ String c "") r
      else (if String.eqb cur "" then words_go "" r else cur :: words_go "" r)
  end.

Definition findall_words (s : string) : list string := words_go "" s.

(** [str(n)] for a non-negative [int]. *)
Definition str_of_nat (n : nat) : string :=
  NilZero.string_of_uint (Nat.to_uint n).

Fixpoint contains_char (c : ascii) (s : string) : bool :=
  match s with
  | EmptyString => false
  | String d r => Ascii.eqb c d || contains_char c r
  end.

Fixpoint last_char (s : string) : option ascii :=
  match s with
  | EmptyString => None
  | String c r => match last_char r with
                  | None => Some c
                  | Some d => Some d
                  end
  end.

Definition head_char (s : string) : option ascii :=
  match s with
  | EmptyString => None
  | String c _ => Some c
  end.

Definition ends_with (c : ascii) (s : string) : bool :=
  match last_char s with
  | Some d => Ascii.eqb c d
  | None => false
  end.

Definition starts_with (p s : string) : bool :=
  match strip_prefix p s with Some _ => true | None => false end.

End Text.

(** ** [engines/__init__.py]: the common result shape

    The fields [score], [timestamp] and [metadata] of the dataclass are never
    read by the modules embedded here and are left out. *)

Record SearchResult := mkResult {
  title : string;
  snippet : string;
  url : string;
  source : string
}.

#[export] Instance SearchResult_eq_dec : EqDecision SearchResult.
Proof. solve_decision. Defined.

(** ** [query_processor.py] *)

Module Query.

Import Text.

(** A position of the regular-expression matcher: the character before the
    cursor (if any) and the text from the cursor on. *)
Definition is_word_opt (c : option ascii) : bool :=
  match c with Some c => is_word c | None => false end.

(** [\b]: exactly one side of the cursor is a word character. *)
Definition boundary (prev : option ascii) (s : string) : bool :=
  xorb (is_word_opt prev) (is_word_opt (head_char s)).

(** A literal under [re.IGNORECASE], threading the previous character.
    Below code point 256 a character of the text matches a letter of the
    literal exactly when their lowercase forms are equal.  From 256 on that
    is no longer so (U+0130 matches "i" but [str.lower] turns it into two
    code points); the strings of the model end at 255 and nothing is said
    about such text. *)
Fixpoint match_lit_ci (p : string) (prev : option ascii) (s : string)
  : option (option ascii * string) :=
  match p with
  | EmptyString => Some (prev, s)
  | String a p' =>
      match s with
      | EmptyString => None
      | String b s' =>
          if Ascii.eqb (lower_char a) (lower_char b)
          then match_lit_ci p' (Some b) s' else None
      end
  end.

(** [\b(?:w)\b] at the cursor. *)
Definition word_at (prev : option ascii) (s : string) (w : string) : bool :=
  boundary prev s &&
  match match_lit_ci w prev s with
  | Some (prev', rest) => boundary prev' rest
  | None => false
  end.

(** [re.search(r'\b(?:w1|...|wn)\b', s, re.IGNORECASE)] as a truth value. *)
Fixpoint search_words (alts : list string) (prev : option ascii) (s : string)
  : bool :=
  existsb (word_at prev s) alts ||
  match s with
  | EmptyString => false
  | String c r => search_words alts (Some c) r
  end.

(** [self.entity_patterns], in insertion order. *)
Definition entity_patterns : list (string * list string) :=
  [ ("person",     ["who"; "person"; "people"; "scientist"; "artist"; "leader"]);
    ("location",   ["where"; "place"; "city"; "country"; "location"]);
    ("time",       ["when"; "date"; "year"; "time"; "period"; "age"; "era"]);
    ("definition", ["what is"; "define"; "meaning"; "definition"]);
    ("how",        ["how"; "process"; "method"; "way"]);
    ("why",        ["why"; "reason"; "cause"; "purpose"]) ].

Fixpoint first_intent (pats : list (string * list string)) (query : string)
  : string :=
  match pats with
  | [] => "general"
  | (intent, alts) :: rest =>
      if search_words alts None query then intent
      else first_intent rest query
  end.

Definition _detect_intent (query : string) : string :=
  first_intent entity_patterns query.

Definition stop_words : list string :=
  [ "a"; "an"; "the"; "is"; "are"; "was"; "were"; "be"; "been";
    "being"; "have"; "has"; "had"; "do"; "does"; "did";
    "what"; "which"; "who"; "when"; "where"; "why"; "how";
    "and"; "or"; "but"; "in"; "on"; "at"; "to"; "for"; "of";
    "with"; "from"; "about"; "can"; "could"; "should"; "would" ].

Definition in_list (w : string) (l : list string) : bool :=
  existsb (String.eqb w) l.

Definition _extract_keywords (query : string) : list string :=
  let words := findall_words (lower query) in
  List.filter (fun w => negb (in_list w stop_words)
                        && Nat.ltb 2 (String.length w)) words.

Definition newline : ascii := ascii_of_nat 10.

(** [$] without [re.MULTILINE]: the end of the text, or just before a
    newline that ends the text. *)
Definition at_dollar (s : string) : bool :=
  match s with
  | EmptyString => true
  | String c EmptyString => Ascii.eqb c newline
  | _ => false
  end.

(** [(?:\?|$)] *)
Definition at_stop (s : string) : bool :=
  match s with
  | String c _ => Ascii.eqb c "?"%char || at_dollar s
  | EmptyString => true
  end.

(** [(.+?)(?:\?|$)] at the cursor: the shortest non-empty run of
    non-newline characters that is followed by the stop. *)
Fixpoint lazy_group (s : string) : option string :=
  match s with
  | EmptyString => None
  | String c r =>
      if Ascii.eqb c newline then None
      else if at_stop r then Some (String c EmptyString)
      else match lazy_group r with
           | Some g => Some (String c g)
           | None => None
           end
  end.

(** [(?:a1|...|an)?] followed by the lazy group: the alternatives in
    order, then the empty alternative. *)
Fixpoint optional_then_group (alts : list string) (s : string) : option string :=
  match alts with
  | [] => lazy_group s
  | a :: rest =>
      match match_lit_ci a None s with
      | Some (_, s') =>
          match lazy_group s' with
          | Some g => Some g
          | None => optional_then_group rest s
          end
      | None => optional_then_group rest s
      end
  end.

(** One pattern [lead (?:alts)?(.+?)(?:\?|$)] at the cursor. *)
Definition term_at (lead : string) (alts : list string) (s : string)
  : option string :=
  match match_lit_ci lead None s with
  | Some (_, rest) => optional_then_group alts rest
  | None => None
  end.

(** [re.search]: the leftmost cursor at which the pattern matches. *)
Fixpoint search_group (at_cursor : string -> option string) (s : string)
  : option string :=
  match at_cursor s with
  | Some g => Some g
  | None => match s with
            | EmptyString => None
            | String _ r => search_group at_cursor r
            end
  end.

Definition main_term_patterns : list (string * list string) :=
  [ ("what is ", ["a "; "an "; "the "]);
    ("define ", []);
    ("explain ", []) ].

Fixpoint first_group (pats : list (string * list string)) (query : string)
  : string :=
  match pats with
  | [] => ""
  | (lead, alts) :: rest =>
      match search_group (term_at lead alts) query with
      | Some g => strip g
      | None => first_group rest query
      end
  end.

Definition _extract_main_term (query : string) : string :=
  first_group main_term_patterns query.

(** [l[-n:]] *)
Definition last_n {A} (n : nat) (l : list A) : list A :=
  skipn (List.length l - n) l.

(** The loop that removes duplicates; the state is
    [(unique_queries, seen)]. *)
Definition unique_step (st : list string * gset string) (q : string)
  : list string * gset string :=
  let '(unique_queries, seen) := st in
  let q_normalized := strip (lower q) in
  if bool_decide (q_normalized ∉ seen) && Nat.ltb (List.length unique_queries) 5
  then (unique_queries ++ [q], {[ q_normalized ]} ∪ seen)
  else st.

Definition candidates (query : string) : list string :=
  let query_lower := lower query in
  let sub_queries := [query] in
  let intent := _detect_intent query_lower in
  let keywords := _extract_keywords query in
  if String.eqb intent "definition" then
    let main_term := _extract_main_term query in
    if String.eqb main_term "" then sub_queries
    else sub_queries ++ [ main_term +:+ " definition";
                          main_term +:+ " explanation";
                          main_term +:+ " examples" ]
  else if String.eqb intent "how" then
    sub_queries ++ [ query +:+ " tutorial"; query +:+ " guide";
                     query +:+ " step by step" ]
  else if String.eqb intent "factual" then
    match keywords with
    | [] => sub_queries
    | k0 :: _ => sub_queries ++ [ join " " (firstn 3 keywords); k0 +:+ " facts" ]
    end
  else
    if Nat.ltb 2 (List.length keywords) then
      sub_queries ++ [ join " " (firstn 2 keywords);
                       join " " (last_n 2 keywords) ]
                  ++ List.map (fun kw => kw +:+ " overview") (firstn 3 keywords)
    else sub_queries.

Definition breakdown_query (query : string) : list string :=
  let sub_queries := candidates query in
  let '(unique_queries, _) := fold_left unique_step sub_queries ([], ∅) in
  firstn 5 unique_queries.

(** The key under which the loop compares two sub-queries. *)
Definition norm (q : string) : string := strip (lower q).

(** The invariant of the loop that removes duplicates. *)
Definition loop_inv (st : list string * gset string) : Prop :=
  (forall x, x ∈ snd st <-> x ∈ List.map norm (fst st))
  /\ NoDup (List.map norm (fst st))
  /\ List.length (fst st) <= 5.

End Query.

(** ** Python containers used by the orchestrator and the synthesizer *)

Module Py.

(** [d[k] = v] on a dict kept in insertion order: an existing key keeps
    its place, a new key goes last. *)
Fixpoint dict_set {V} (k : string) (v : V) (d : list (string * V))
  : list (string * V) :=
  match d with
  | [] => [(k, v)]
  | (k', v') :: r =>
      if String.eqb k k' then (k, v) :: r else (k', v') :: dict_set k v r
  end.

Fixpoint dict_get {V} (k : string) (d : list (string * V)) : option V :=
  match d with
  | [] => None
  | (k', v) :: r => if String.eqb k k' then Some v else dict_get k r
  end.

Definition keys {V} (d : list (string * V)) : list string := List.map fst d.
Definition values {V} (d : list (string * V)) : list V := List.map snd d.

(** [l.remove(x)]: drops the first element equal to [x].  Python raises
    [ValueError] when there is none; the one call site always finds it
    (lemma [dedup_remove_present] below). *)
Fixpoint list_remove {A} `{EqDecision A} (x : A) (l : list A) : list A :=
  match l with
  | [] => []
  | y :: r => if decide (x = y) then r else y :: list_remove x r
  end.

(** [l[:k]] for an [int] or [None] bound. *)
Definition slice_to {A} (k : option Z) (l : list A) : list A :=
  match k with
  | None => l
  | Some k =>
      if (0 <=? k)%Z then firstn (Z.to_nat k) l
      else firstn (List.length l - Z.to_nat (- k)) l
  end.

(** [len(l[:k])] for a list of length [n]. *)
Definition slice_len (k : option Z) (n : nat) : nat :=
  match k with
  | None => n
  | Some k =>
      if (0 <=? k)%Z then Nat.min (Z.to_nat k) n
      else n - Z.to_nat (- k)
  end.

(** [sum(...)] over non-negative ints. *)
Definition sum (l : list nat) : nat := fold_left Nat.add l 0.

End Py.

(** ** [search_orchestrator.py] *)

Module Orch.

(** What awaiting [engine.search(query, max_results)] under
    [asyncio.wait_for(..., timeout)] comes to. *)
Inductive outcome :=
| Completed (rs : list SearchResult)
| TimedOut
| Raised.

(** An engine: query, max_results, timeout (seconds) to outcome. *)
Definition engine := string -> nat -> Z -> outcome.

(** A settled task: a value, or an exception that escaped it. *)
Inductive settled :=
| Value (rs : list SearchResult)
| Exn.

Section Orchestrator.

(** [settings.max_results_per_engine] *)
Variable max_results_per_engine : nat.

(** [self.engines], in registration order. *)
Variable engines : list (string * engine).

Definition _search_with_timeout
  (engine_name : string) (e : engine) (query : string) (timeout : Z)
  : settled :=
  match e query max_results_per_engine timeout with
  | Completed rs => Value rs
  | TimedOut => Value []
  | Raised => Value []
  end.

(** A task that has been created and not yet awaited. *)
Record task := mkTask {
  task_name : string;
  task_engine : engine;
  task_query : string;
  task_timeout : Z
}.

Definition run (t : task) : settled :=
  _search_with_timeout (task_name t) (task_engine t) (task_query t)
                       (task_timeout t).

(** The list an engine contributes once its task has settled. *)
Definition entry_of (t : task) : string * list SearchResult :=
  match run t with
  | Value results => (task_name t, results)
  | Exn => (task_name t, [])
  end.

(** The sub-query given to the engine registered at position [i]. *)
Definition assigned (sub_queries : list string) (i : nat) : string :=
  nth (i mod List.length sub_queries) sub_queries "".

(** The tasks of the engines [es], the first of which is registered at
    position [k]. *)
Fixpoint tasks_of (timeout : Z) (sub_queries : list string)
  (es : list (string * engine)) (k : nat) : list task :=
  match es with
  | [] => []
  | (engine_name, e) :: rest =>
      mkTask engine_name e (assigned sub_queries k) timeout
      :: tasks_of timeout sub_queries rest (S k)
  end.

(** The loop that creates the tasks.  [len(tasks) % len(sub_queries)]
    raises [ZeroDivisionError] for an empty sub-query list: [None]. *)
Fixpoint create_tasks (timeout : Z) (sub_queries : list string)
  (es : list (string * engine)) (tasks : list task) : option (list task) :=
  match es with
  | [] => Some tasks
  | (engine_name, e) :: rest =>
      match sub_queries with
      | [] => None
      | _ :: _ =>
          let query_idx := List.length tasks mod List.length sub_queries in
          match nth_error sub_queries query_idx with
          | Some search_query =>
              create_tasks timeout sub_queries rest
                (tasks ++ [mkTask engine_name e search_query timeout])
          | None => None
          end
      end
  end.

(** The loop that files the gathered results under the engine names. *)
Definition organize (names : list string) (results : list settled)
  : list (string * list SearchResult) :=
  fold_left
    (fun engine_results '(engine_name, result) =>
       match result with
       | Exn => Py.dict_set engine_name [] engine_results
       | Value rs => Py.dict_set engine_name rs engine_results
       end)
    (combine names results) [].

Definition search_all (query : string) (sub_queries : list string)
  (timeout : Z) : option (list (string * list SearchResult)) :=
  match create_tasks timeout sub_queries engines [] with
  | None => None
  | Some tasks =>
      let results := List.map run tasks in
      Some (organize (Py.keys engines) results)
  end.

(** The loop that yields the tasks as they settle.  Which of the pending
    tasks settles next is the scheduler's choice: [sched] gives, step by
    step, the index (modulo the number of pending tasks) of the task
    that is yielded next. *)
Fixpoint drain (fuel : nat) (sched : list nat) (tasks : list task)
  : list (string * list SearchResult) :=
  match fuel with
  | O => []
  | S fuel' =>
      match tasks with
      | [] => []
      | _ :: _ =>
          let k := hd O sched mod List.length tasks in
          match nth_error tasks k with
          | Some t =>
              let pair := match run t with
                          | Value results => (task_name t, results)
                          | Exn => (task_name t, [])
                          end in
              pair :: drain fuel' (tl sched) (firstn k tasks ++ skipn (S k) tasks)
          | None => []
          end
      end
  end.

Definition search_all_streaming (query : string) (sub_queries : list string)
  (sched : list nat) : option (list (string * list SearchResult)) :=
  match create_tasks 8 sub_queries engines [] with
  | None => None
  | Some tasks => Some (drain (List.length tasks) sched tasks)
  end.

End Orchestrator.

(** [SearchOrchestrator.__init__]: the five registered engines. *)
Definition registered (searxng duckduckgo google wikipedia wikidata : engine)
  : list (string * engine) :=
  [ ("SearXNG", searxng); ("DuckDuckGo", duckduckgo); ("Google", google);
    ("Wikipedia", wikipedia); ("Wikidata", wikidata) ].

(** An engine that answers every call with the same list. *)
Definition fixed_response (rs : list SearchResult) : engine :=
  fun _ _ _ => Completed rs.

(** Engines registered under the given names, each with a fixed answer. *)
Definition fixed_engines (responses : list (string * list SearchResult))
  : list (string * engine) :=
  List.map (fun '(name, rs) => (name, fixed_response rs)) responses.

(** What an engine's outcome leaves in the result map. *)
Definition contribution (o : outcome) : list SearchResult :=
  match o with
  | Completed rs => rs
  | TimedOut => []
  | Raised => []
  end.

(** The number of results carried by a list of (engine, results) pairs. *)
Definition total_results (pairs : list (string * list SearchResult)) : nat :=
  Py.sum (List.map (fun p => List.length (snd p)) pairs).

End Orch.

(** ** Python floats

    A [float] of CPython is an IEEE 754 binary64 number.  The scores of the
    synthesizer are finite and at most 1, so a float is modelled by the
    rational it denotes, and each operation by the exact operation followed
    by the rounding of the format: 53 significant bits, to nearest, a tie to
    the even significand, with the subnormal numbers below [2 ^ -1022]. *)

Module Binary64.

Local Open Scope Q_scope.

(** The integer nearest to [a / b] (for [0 < b]), a tie going to the even
    one. *)
Definition rdiv (a b : Z) : Z :=
  let q := (a / b)%Z in
  let r := (a mod b)%Z in
  match (2 * r ?= b)%Z with
  | Lt => q
  | Gt => (q + 1)%Z
  | Eq => if Z.even q then q else (q + 1)%Z
  end.

Definition rne (x : Q) : Z := rdiv (Qnum x) (Zpos (Qden x)).

(** [floor (log2 x)] for [0 < x]. *)
Definition ilog2 (x : Q) : Z :=
  let k := (Z.log2 (Qnum x) - Z.log2 (Zpos (Qden x)))%Z in
  if Qle_bool (2 ^ k) x then k else (k - 1)%Z.

(** The exponent of the unit in the last place of the double nearest to
    [x]: 53 significant bits, and never below the exponent of the
    subnormal numbers. *)
Definition exponent (x : Q) : Z := Z.max (ilog2 x - 52) (-1074).

Definition round_pos (x : Q) : Q :=
  let e := exponent x in
  inject_Z (rne (x / 2 ^ e)) * 2 ^ e.

(** The double nearest to [x]. *)
Definition round (x : Q) : Q :=
  match Qnum x with
  | Z0 => 0
  | Zpos _ => round_pos x
  | Zneg _ => - round_pos (- x)
  end.

(** A decimal literal such as [0.4]. *)
Definition lit (x : Q) : Q := round x.

(** [float(n)] for an [int] (no list is long enough for its length to
    overflow). *)
Definition of_nat (n : nat) : Q := round (inject_Z (Z.of_nat n)).

(** [x + y], [x * y] and [x / y] on floats ([y] not zero). *)
Definition add (x y : Q) : Q := round (x + y).
Definition mul (x y : Q) : Q := round (x * y).
Definition div (x y : Q) : Q := round (x / y).

(** [a / b] on two [int]s, which CPython rounds once ([b] not zero). *)
Definition int_truediv (a b : nat) : Q :=
  round (Z.of_nat a # Pos.of_nat b).

(** A small [int] as a float of the kernel (exact below [2 ^ 53]). *)
Fixpoint hardware_of_nat (n : nat) : PrimFloat.float :=
  match n with
  | O => PrimFloat.zero
  | S k => PrimFloat.add (hardware_of_nat k) PrimFloat.one
  end.

(** The number that a float of the kernel denotes (0 for an infinity or a
    NaN); used to compare the rounding above with the hardware's. *)
Definition of_hardware (f : PrimFloat.float) : Q :=
  match FloatOps.Prim2SF f with
  | SpecFloat.S754_finite s m e =>
      (if s then - inject_Z (Zpos m) else inject_Z (Zpos m)) * 2 ^ e
  | _ => 0
  end.

End Binary64.

(** ** [result_synthesizer.py] *)

Module Synth.

Import Text.

(** [re.sub(r'^https?://', '', url)] *)
Definition sub_scheme (u : string) : string :=
  match strip_prefix "https://" u with
  | Some r => r
  | None => match strip_prefix "http://" u with
            | Some r => r
            | None => u
            end
  end.

(** [re.sub(r'^www\.', '', url)] *)
Definition sub_www (u : string) : string :=
  match strip_prefix "www." u with
  | Some r => r
  | None => u
  end.

Definition is_slash (c : ascii) : bool := Ascii.eqb c "/"%char.

Definition _normalize_url (u : string) : string :=
  let u := sub_scheme u in
  let u := sub_www u in
  let u := rstrip is_slash u in
  let u := before "?"%char u in
  let u := before "#"%char u in
  lower u.

(** A string on which none of the stripping stages of [_normalize_url]
    has anything to remove. *)
Definition stripped (n : string) : bool :=
  negb (starts_with "https://" n) && negb (starts_with "http://" n)
  && negb (starts_with "www." n) && negb (ends_with "/"%char n).

(** Normalizing the output once more changes nothing. *)
Definition idempotent_at (u : string) : Prop :=
  _normalize_url (_normalize_url u) = _normalize_url u.

Definition _get_source_priority (source : string) : nat :=
  if String.eqb source "Wikipedia" then 5
  else if String.eqb source "Wikidata" then 4
  else if String.eqb source "SearXNG" then 3
  else if String.eqb source "DuckDuckGo" then 2
  else if String.eqb source "Brave" then 2
  else 1.

(** The dedup key and the authority of a result. *)
Definition key (r : SearchResult) : string := _normalize_url (url r).
Definition prio (r : SearchResult) : nat := _get_source_priority (source r).

(** The position at which a key first occurs in a list of keys. *)
Fixpoint first_index (k : string) (l : list string) : nat :=
  match l with
  | [] => 0
  | x :: r => if String.eqb k x then 0 else S (first_index k r)
  end.

(** The survivors stand in the order in which their canonical URLs were
    first seen in the input. *)
Definition encounter_ordered (rs out : list SearchResult) : Prop :=
  forall i j a b,
    i < j -> nth_error out i = Some a -> nth_error out j = Some b ->
    first_index (key a) (List.map key rs) < first_index (key b) (List.map key rs).

(** Of two input results with one canonical URL exactly one survives: the
    later one when its priority is strictly higher, else the earlier. *)
Definition pairwise_priority_rule (rs out : list SearchResult) : Prop :=
  forall i j a b,
    i < j -> nth_error rs i = Some a -> nth_error rs j = Some b ->
    key a = key b ->
    if Nat.ltb (prio a) (prio b) then b ∈ out /\ a ∉ out
    else a ∈ out /\ b ∉ out.

(** The invariant of the loop of [_deduplicate]: [seen_urls] and [unique]
    hold the same results, one per canonical URL. *)
Definition dedup_inv (st : gmap string SearchResult * list SearchResult)
  : Prop :=
  (forall u r, fst st !! u = Some r -> r ∈ snd st /\ key r = u)
  /\ (forall r, r ∈ snd st -> fst st !! key r = Some r)
  /\ NoDup (List.map key (snd st)).

(** The result that the URL-collision rule leaves for the key [u] after the
    results [rs]: a later result takes over only with a strictly higher
    priority. *)
Definition collide (cur : option SearchResult) (r : SearchResult)
  : option SearchResult :=
  match cur with
  | None => Some r
  | Some e => if Nat.ltb (prio e) (prio r) then Some r else Some e
  end.

Definition winner (u : string) (rs : list SearchResult) : option SearchResult :=
  fold_left
    (fun cur r => if String.eqb (key r) u then collide cur r else cur)
    rs None.

(** The accepted result that holds the canonical URL [u], if there is
    one. *)
Definition holder (u : string) (unique : list SearchResult)
  : option SearchResult :=
  List.find (fun e => String.eqb (key e) u) unique.

Record Scores := mkScores {
  relevance : Q;
  authority : Q;
  consensus : Q;
  quality : Q
}.

(** The dict built by [_score_results] for one result. *)
Record ScoredResult := mkScored {
  s_title : string;
  s_snippet : string;
  s_url : string;
  s_source : string;
  scores : Scores;
  final_score : Q
}.

Record SynthesisOutput := mkOutput {
  results : list ScoredResult;
  summary : string;
  engine_stats : list (string * nat);
  total_raw : nat;
  total_unique : nat
}.

(** The exact quotient of two [int]s (divisor not 0). *)
Definition ratio_of (a b : nat) : Q := Z.of_nat a # Pos.of_nat b.

(** [min(a, b)] *)
Definition py_min (a b : Q) : Q := if Qle_bool a b then a else b.

Definition _calculate_quality (result : SearchResult) : Q :=
  let snippet_len := String.length (snippet result) in
  if Nat.eqb snippet_len 0 then 0
  else if Nat.ltb snippet_len 50 then Binary64.lit (3 # 10)
  else if Nat.ltb snippet_len 150 then Binary64.lit (7 # 10)
  else 1.

Definition _calculate_relevance (result : SearchResult)
  (query_keywords : gset string) : Q :=
  let text := lower (title result +:+ " " +:+ snippet result) in
  let words : gset string := list_to_set (split_ws text) in
  let intersection := query_keywords ∩ words in
  let union := query_keywords ∪ words in
  if Nat.eqb (size union) 0 then 0
  else Binary64.int_truediv (size intersection) (size union).

Definition _calculate_consensus (result : SearchResult)
  (raw_results : list (string * list SearchResult)) : Q :=
  let url0 := _normalize_url (url result) in
  let count :=
    fold_left
      (fun count engine_results =>
         if existsb (fun r => String.eqb (_normalize_url (url r)) url0)
                    engine_results
         then S count else count)
      (Py.values raw_results) 0 in
  py_min (Binary64.div (Binary64.of_nat count) 5) 1.

(** The weighted final score: [r * 0.4 + a * 0.3 + c * 0.2 + q * 0.1],
    which Python evaluates from left to right. *)
Definition weighted (r a c q : Q) : Q :=
  Binary64.add
    (Binary64.add
       (Binary64.add (Binary64.mul r (Binary64.lit (4 # 10)))
                     (Binary64.mul a (Binary64.lit (3 # 10))))
       (Binary64.mul c (Binary64.lit (2 # 10))))
    (Binary64.mul q (Binary64.lit (1 # 10))).

Definition _score_results (query : string) (rs : list SearchResult)
  (raw_results : list (string * list SearchResult)) : list ScoredResult :=
  let query_keywords : gset string := list_to_set (split_ws (lower query)) in
  List.map
    (fun result =>
       let sc := {| relevance := _calculate_relevance result query_keywords;
                    authority :=
                      Binary64.div
                        (Binary64.of_nat (_get_source_priority (source result)))
                        5;
                    consensus := _calculate_consensus result raw_results;
                    quality := _calculate_quality result |} in
       let final := weighted (relevance sc) (authority sc)
                             (consensus sc) (quality sc) in
       {| s_title := title result;
          s_snippet := snippet result;
          s_url := url result;
          s_source := source result;
          scores := sc;
          final_score := final |})
    rs.

(** [sorted(l, key=final_score, reverse=True)]: the stable sort into
    non-increasing key order, written as an insertion sort.  An element
    goes in front of the first element whose key is not greater. *)
Fixpoint insert_desc (x : ScoredResult) (l : list ScoredResult)
  : list ScoredResult :=
  match l with
  | [] => [x]
  | y :: r =>
      if Qle_bool (final_score y) (final_score x) then x :: y :: r
      else y :: insert_desc x r
  end.

Definition sorted_desc (l : list ScoredResult) : list ScoredResult :=
  fold_right insert_desc [] l.

(** The weighted sum of the components in exact arithmetic. *)
Definition exact_sum (sc : Scores) : Q :=
  ((4 # 10) * relevance sc + (3 # 10) * authority sc
   + (2 # 10) * consensus sc + (1 # 10) * quality sc)%Q.

(** [2 ^ -49] *)
Definition tolerance : Q := 1 # 562949953421312.

(** The four components lie in [0,1]; the final score is their weighted
    sum as the floats give it, which is within [2 ^ -49] of the exact
    weighted sum, and lies in [0,1]. *)
Definition well_scored (sr : ScoredResult) : Prop :=
  (0 <= relevance (scores sr) <= 1
   /\ 0 <= authority (scores sr) <= 1
   /\ 0 <= consensus (scores sr) <= 1
   /\ 0 <= quality (scores sr) <= 1
   /\ final_score sr
      = weighted (relevance (scores sr)) (authority (scores sr))
                 (consensus (scores sr)) (quality (scores sr))
   /\ exact_sum (scores sr) - tolerance <= final_score sr
      <= exact_sum (scores sr) + tolerance
   /\ 0 <= final_score sr <= 1)%Q.

(** The search result that a scored result was made from. *)
Definition unscored (sr : ScoredResult) : SearchResult :=
  mkResult (s_title sr) (s_snippet sr) (s_url sr) (s_source sr).

(** Non-increasing final scores. *)
Definition score_ge (a b : ScoredResult) : Prop :=
  (final_score b <= final_score a)%Q.

(** The results whose final score equals [v], in list order. *)
Definition with_score (v : Q) (l : list ScoredResult) : list ScoredResult :=
  List.filter (fun x => Qeq_bool (final_score x) v) l.

(** The text of a non-empty summary. *)
Definition summary_text (n m : nat) (sources snip : string) : string :=
  "Found " +:+ str_of_nat n +:+ " relevant results from "
  +:+ str_of_nat m +:+ " total sources. Top information from: "
  +:+ sources +:+ ". Key finding: " +:+ snip +:+ "...".

Section Fusion.

(** [SequenceMatcher(None, a, b).ratio()] of difflib: the float it
    returns. *)
Variable SequenceMatcher_ratio : string -> string -> Q.

(** The order in which a [set] built from a list is iterated. *)
Variable set_iter : list string -> list string.

Definition _is_content_similar (text1 text2 : string) : bool :=
  if String.eqb text1 "" || String.eqb text2 "" then false
  else
    let ratio := SequenceMatcher_ratio (lower text1) (lower text2) in
    negb (Qle_bool ratio (Binary64.lit (8 # 10))).

(** The body of the loop of [_deduplicate]; the state is
    [(seen_urls, unique)]. *)
Definition dedup_step
  (st : gmap string SearchResult * list SearchResult)
  (result : SearchResult)
  : gmap string SearchResult * list SearchResult :=
  let '(seen_urls, unique) := st in
  let u := _normalize_url (url result) in
  match seen_urls !! u with
  | Some existing =>
      if Nat.ltb (_get_source_priority (source existing))
                 (_get_source_priority (source result))
      then (<[u := result]> seen_urls,
            Py.list_remove existing unique ++ [result])
      else st
  | None =>
      let is_duplicate :=
        existsb (fun existing =>
                   _is_content_similar (snippet result) (snippet existing))
                unique in
      if is_duplicate then st
      else (<[u := result]> seen_urls, unique ++ [result])
  end.

Definition _deduplicate (rs : list SearchResult) : list SearchResult :=
  snd (fold_left dedup_step rs (∅, [])).

(** No result of [rs] is a near-duplicate of one with another canonical
    URL. *)
Definition no_cross_similarity (rs : list SearchResult) : Prop :=
  forall a b, a ∈ rs -> b ∈ rs -> key a <> key b ->
              _is_content_similar (snippet a) (snippet b) = false.

Definition _generate_summary (query : string) (rs : list ScoredResult)
  (raw_results : list (string * list SearchResult)) : string :=
  match rs with
  | [] => "No results found."
  | best :: _ =>
      let total_sources :=
        Py.sum (List.map (fun r => List.length r) (Py.values raw_results)) in
      let unique_count := List.length rs in
      let top_sources := List.map s_source (firstn 3 rs) in
      let sources_str := join ", " (set_iter top_sources) in
      let summary :=
        "Found " +:+ str_of_nat unique_count +:+ " relevant results from "
        +:+ str_of_nat total_sources +:+ " total sources. "
        +:+ "Top information from: " +:+ sources_str +:+ ". " in
      let best_snippet := take_str 150 (s_snippet best) in
      summary +:+ "Key finding: " +:+ best_snippet +:+ "..."
  end.

Definition synthesize (query : string)
  (raw_results : list (string * list SearchResult))
  (max_results : option Z) : SynthesisOutput :=
  let all_results := List.concat (Py.values raw_results) in
  let unique_results := _deduplicate all_results in
  let scored_results := _score_results query unique_results raw_results in
  let ranked_results := sorted_desc scored_results in
  let top_results := Py.slice_to max_results ranked_results in
  let summary := _generate_summary query top_results raw_results in
  let engine_stats :=
    List.map (fun '(engine, rs) => (engine, List.length rs)) raw_results in
  {| results := top_results;
     summary := summary;
     engine_stats := engine_stats;
     total_raw := List.length all_results;
     total_unique := List.length unique_results |}.

End Fusion.

End Synth.

(** ** Character classes of whole strings *)

Module TextMore.

Import Text.

(** Every character is of the class. *)
Fixpoint all_chars (cls : ascii -> bool) (s : string) : bool :=
  match s with
  | EmptyString => true
  | String c r => cls c && all_chars cls r
  end.

(** A non-empty run of word characters: what [\b\w+\b] matches. *)
Definition is_token (w : string) : bool :=
  negb (String.eqb w "") && all_chars is_word w.

(** A matcher position, in lower case. *)
Definition lower_pos (p : option ascii * string) : option ascii * string :=
  (option_map lower_char (fst p), lower (snd p)).

End TextMore.

(** ** [main.py]: the two request handlers

    The transport (FastAPI routes, the bearer token check in front of
    [/search], JSON encoding) and the measured [processing_time] are left
    out; a handler is the value it answers with. *)

Module Api.




Section Handlers.

Variable SequenceMatcher_ratio : string -> string -> Q.
Variable set_iter : list string -> list string.
Variable max_results_per_engine : nat.
Variable engines : list (string * Orch.engine).

(** [settings.search_timeout] *)
Variable search_timeout : Z.



End Handlers.



End Api.

(** ** [query_processor.py]: [OllamaQueryProcessor] *)

Module Llm.

Import Text.

(** [s.split(sep)] for a one-character separator. *)
Fixpoint split_on (sep : ascii) (s : string) : list string :=
  match s with
  | EmptyString => [EmptyString]
  | String c r =>
      if Ascii.eqb c sep then EmptyString :: split_on sep r
      else match split_on sep r with
           | h :: t => String c h :: t
           | [] => [String c EmptyString]
           end
  end.

(** The characters of [lstrip("0123456789.-) ")]. *)
Definition is_marker (c : ascii) : bool :=
  in_range 48 57 c || Ascii.eqb c "."%char || Ascii.eqb c "-"%char
  || Ascii.eqb c ")"%char || Ascii.eqb c " "%char.

(** What the call to the LLM backend comes to: status 200 with a JSON
    object whose "response" entry (the empty text when absent) is a text,
    or anything else (another status, a timeout, a body that does not
    parse), which the method answers by the deterministic planner. *)
Inductive llm_outcome :=
| Generated (response : string)
| Unusable.

(** The body of the loop over the lines of the response. *)
Definition parse_step (sub_queries : list string) (line : string)
  : list string :=
  let cleaned := lstrip is_marker (strip line) in
  if negb (String.eqb cleaned "") && Nat.ltb (List.length sub_queries) 5
  then sub_queries ++ [cleaned]
  else sub_queries.

(** [OllamaQueryProcessor.breakdown_query]; [use_ollama] is the result of
    the liveness probe made at construction. *)
Definition breakdown_query (use_ollama : bool) (outcome : llm_outcome)
  (query : string) : list string :=
  if negb use_ollama then Query.breakdown_query query
  else
    match outcome with
    | Generated response =>
        let sub_queries := [query] in
        let lines := split_on Query.newline (strip response) in
        firstn 5 (fold_left parse_step lines sub_queries)
    | Unusable => Query.breakdown_query query
    end.

(** An entry taken from the response: not empty, without a leading
    enumeration mark, without a line break and without a trailing blank. *)
Definition clean_entry (e : string) : Prop :=
  e <> ""
  /\ (forall c, head_char e = Some c -> is_marker c = false)
  /\ contains_char Query.newline e = false
  /\ (forall d, last_char e = Some d -> is_space d = false).

End Llm.

(** ** [engines/]: how three adapters turn a decoded body into results

    The HTTP exchange is left out.  A JSON object is the record of the
    entries that are read, [None] for an absent key; the entries that are
    present are texts. *)

Module Adapters.

Import Text.

(** [for i in range(n)] collecting [f i]; [None] when some [f i] raises. *)
Fixpoint for_range {A} (f : nat -> option A) (i n : nat) : option (list A) :=
  match n with
  | O => Some []
  | S n' =>
      match f i with
      | None => None
      | Some x =>
          match for_range f (S i) n' with
          | None => None
          | Some xs => Some (x :: xs)
          end
      end
  end.

(** *** [wikipedia.py] *)

(** The body of the loop over [range(len(titles))]; [None] is the
    [IndexError] of a short list. *)
Definition wikipedia_item (titles descriptions urls : list string) (i : nat)
  : option SearchResult :=
  match nth_error titles i, nth_error descriptions i, nth_error urls i with
  | Some t, Some d, Some u =>
      Some (mkResult t
              (if String.eqb d "" then "Wikipedia article for " +:+ t else d)
              u "Wikipedia")
  | _, _, _ => None
  end.

(** [WikipediaEngine.search] from the decoded opensearch answer
    [[query, titles, descriptions, urls]] on; an exception gives []. *)
Definition wikipedia_results (titles descriptions urls : list string)
  : list SearchResult :=
  match for_range (wikipedia_item titles descriptions urls) 0
                  (List.length titles) with
  | Some results => results
  | None => []
  end.

(** *** [wikidata.py] *)

(** One binding: [item.get(k, {}).get('value', ...)] for the three keys. *)
Record binding := mkBinding {
  b_item : option string;
  b_itemLabel : option string;
  b_itemDescription : option string
}.

(** [s.split('/')[-1]] *)
Definition last_segment (s : string) : string :=
  List.last (Llm.split_on "/"%char s) "".

Definition or_default (d : string) (v : option string) : string :=
  match v with Some x => x | None => d end.

Definition wikidata_result (item : binding) : SearchResult :=
  let item_id := last_segment (or_default "" (b_item item)) in
  let label := or_default "No label" (b_itemLabel item) in
  let description := or_default "" (b_itemDescription item) in
  let url := "https://www.wikidata.org/wiki/" +:+ item_id in
  mkResult label
           (if String.eqb description "" then "Wikidata entity: " +:+ label
            else description)
           url "Wikidata".

(** [WikidataEngine._parse_results] on the bindings. *)
Definition wikidata_parse (bindings : list binding) : list SearchResult :=
  List.map wikidata_result bindings.

(** *** [searxng.py] *)

Record item := mkItem {
  i_title : option string;
  i_content : option string;
  i_url : option string
}.

(** [SearXNGEngine._parse_results] on [data.get('results', [])]. *)
Definition searxng_parse (items : list item) (max_results : Z)
  : list SearchResult :=
  List.map (fun it => mkResult (or_default "No title" (i_title it))
                               (or_default "" (i_content it))
                               (or_default "" (i_url it))
                               "SearXNG")
           (Py.slice_to (Some max_results) items).

(** One attempt: the instance drawn and what it answered. *)
Inductive answer :=
| Http200 (items : list item)
| HttpStatus (code : nat)
| HttpError.

(** What one attempt contributes: the parsed results of an answer with
    status 200, and nothing otherwise. *)
Definition attempt_results (a : answer) (max_results : Z)
  : list SearchResult :=
  match a with
  | Http200 items => searxng_parse items max_results
  | HttpStatus _ => []
  | HttpError => []
  end.

(** The loop [for _ in range(3)] of [SearXNGEngine.search], from attempt
    number [k] on with [n] attempts left. *)
Fixpoint searxng_attempts (fetch : nat -> answer) (max_results : Z)
  (n k : nat) : list SearchResult :=
  match n with
  | O => []
  | S n' =>
      match fetch k with
      | Http200 items =>
          match searxng_parse items max_results with
          | [] => searxng_attempts fetch max_results n' (S k)
          | results => results
          end
      | HttpStatus _ => searxng_attempts fetch max_results n' (S k)
      | HttpError => searxng_attempts fetch max_results n' (S k)
      end
  end.

Definition searxng_search (fetch : nat -> answer) (max_results : Z)
  : list SearchResult :=
  searxng_attempts fetch max_results 3 0.

End Adapters.

(** ** Concrete inputs used in the examples below *)

Module Scenario.

Import Synth.

Definition photo_snippet : string :=
  "photosynthesis is the process by which plants turn light into energy".

(** The encyclopedia engine and an open index report one page, the second
    with a trailing slash. *)
Definition wiki : SearchResult :=
  mkResult "Photosynthesis" photo_snippet
           "https://en.wikipedia.org/wiki/Photosynthesis" "Wikipedia".

Definition ddg : SearchResult :=
  mkResult "Photosynthesis - Wikipedia" ""
           "https://en.wikipedia.org/wiki/Photosynthesis/" "DuckDuckGo".

(** Another page that carries the encyclopedia's text. *)
Definition mirror : SearchResult :=
  mkResult "Photosynthesis explained" photo_snippet
           "https://example.org/bio/photosynthesis" "SearXNG".

(** Three reports of one page and one report of another, without
    snippets. *)
Definition page_brave : SearchResult :=
  mkResult "Page" "" "https://example.com/page" "Brave".
Definition page_wiki : SearchResult :=
  mkResult "Page" "" "http://www.example.com/page/" "Wikipedia".
Definition page_searx : SearchResult :=
  mkResult "Page" "" "https://example.com/page?ref=1" "SearXNG".
Definition other_brave : SearchResult :=
  mkResult "Other" "" "https://other.example.org/" "Brave".

(** A stand-in for difflib: 1 on equal texts, 0 otherwise. *)
Definition exact_ratio (a b : string) : Q :=
  if String.eqb a b then 1 else 0.

(** A stand-in for the iteration order of a set: that of a [gset]. *)
Definition hash_order (l : list string) : list string :=
  elements (list_to_set l : gset string).

Definition raw_photo : list (string * list SearchResult) :=
  [ ("Wikipedia", [wiki]); ("DuckDuckGo", [ddg]) ].

Definition raw_two_pages : list (string * list SearchResult) :=
  [ ("Brave", [page_brave; other_brave]) ].

Definition engines_mixed : list (string * Orch.engine) :=
  Orch.registered (Orch.fixed_response [mirror])
                  (fun _ _ _ => Orch.TimedOut)
                  (fun _ _ _ => Orch.Raised)
                  (Orch.fixed_response [wiki])
                  (Orch.fixed_response []).

(** The summary counts the deduplicated results. *)
Definition summary_counts_unique
  (ratio : string -> string -> Q) (set_iter : list string -> list string)
  : Prop :=
  forall query raw max_results,
    let out := synthesize ratio set_iter query raw max_results in
    results out <> [] ->
    exists sources snip,
      summary out
      = summary_text (total_unique out) (total_raw out) sources snip.

End Scenario.

(** ** Further concrete inputs *)

Module MoreScenario.

(** A binding as the Wikidata query service returns it. *)
Definition q42 : Adapters.binding :=
  Adapters.mkBinding (Some "http://www.wikidata.org/entity/Q42")
                     (Some "Douglas Adams") None.

Definition two_sub_queries : list string :=
  [ "solar panels"; "solar panels cost" ].

(** Two pages whose final scores are both 17/50 in exact arithmetic; the
    floats differ in the last place. *)
Definition tie_wiki : SearchResult :=
  mkResult "Beta" "" "https://en.wikipedia.org/wiki/Beta" "Wikipedia".

Definition tie_searx : SearchResult :=
  mkResult "Alpha"
           "bravo charlie delta echo foxtrot golf hotel bravo charlie delta echo"
           "https://example.org/alpha" "SearXNG".

Definition raw_tie : list (string * list SearchResult) :=
  [ ("Wikipedia", [tie_wiki]); ("SearXNG", [tie_searx]) ].

End MoreScenario.

(** * Properties *)

(** ** Text primitives *)

Section TextFacts.

Import Text.

Lemma lower_char_idem c : lower_char (lower_char c) = lower_char c.
Proof. destruct c as [[] [] [] [] [] [] [] []]; reflexivity. Qed.

Lemma lower_idem s : lower (lower s) = lower s.
Proof.
  induction s as [|c r IH]; simpl; [reflexivity|].
  now rewrite lower_char_idem, IH.
Qed.

Lemma length_lower s : String.length (lower s) = String.length s.
Proof. induction s; simpl; congruence. Qed.

Lemma lower_char_question c :
  Ascii.eqb "?"%char (lower_char c) = Ascii.eqb "?"%char c.
Proof. destruct c as [[] [] [] [] [] [] [] []]; reflexivity. Qed.

Lemma lower_char_hash c :
  Ascii.eqb "#"%char (lower_char c) = Ascii.eqb "#"%char c.
Proof. destruct c as [[] [] [] [] [] [] [] []]; reflexivity. Qed.

Lemma contains_lower_question s :
  contains_char "?"%char (lower s) = contains_char "?"%char s.
Proof.
  induction s as [|c r IH]; cbn [lower contains_char]; [reflexivity|].
  now rewrite lower_char_question, IH.
Qed.

Lemma contains_lower_hash s :
  contains_char "#"%char (lower s) = contains_char "#"%char s.
Proof.
  induction s as [|c r IH]; cbn [lower contains_char]; [reflexivity|].
  now rewrite lower_char_hash, IH.
Qed.

Lemma contains_before_same sep s : contains_char sep (before sep s) = false.
Proof.
  induction s as [|c r IH]; simpl; [reflexivity|].
  destruct (Ascii.eqb c sep) eqn:E; simpl; [reflexivity|].
  rewrite IH, Ascii.eqb_sym, E. reflexivity.
Qed.

Lemma contains_before_other c sep s :
  contains_char c s = false -> contains_char c (before sep s) = false.
Proof.
  induction s as [|d r IH]; simpl; [reflexivity|].
  intros H. apply orb_false_iff in H as [H1 H2].
  destruct (Ascii.eqb d sep); simpl; [reflexivity|].
  now rewrite H1, IH.
Qed.

Lemma before_absent sep s : contains_char sep s = false -> before sep s = s.
Proof.
  induction s as [|d r IH]; simpl; [reflexivity|].
  intros H. apply orb_false_iff in H as [H1 H2].
  rewrite Ascii.eqb_sym, H1, IH; auto.
Qed.

Lemma length_before sep s : String.length (before sep s) <= String.length s.
Proof.
  induction s as [|d r IH]; simpl; [lia|].
  destruct (Ascii.eqb d sep); simpl; lia.
Qed.

Lemma append_assoc (a b c : string) : (a +:+ b) +:+ c = a +:+ (b +:+ c).
Proof.
  induction a as [|x a IH]; [reflexivity|].
  change (String x ((a +:+ b) +:+ c) = String x (a +:+ (b +:+ c))).
  now rewrite IH.
Qed.

Lemma strip_prefix_length p s r :
  strip_prefix p s = Some r ->
  String.length s = String.length p + String.length r.
Proof.
  revert s. induction p as [|a p IH]; intros s; simpl.
  - intros [= ->]. reflexivity.
  - destruct s as [|b s]; [discriminate|].
    destruct (Ascii.eqb a b); [|discriminate].
    intros H. apply IH in H. simpl. lia.
Qed.

Lemma length_rstrip cls s : String.length (rstrip cls s) <= String.length s.
Proof.
  induction s as [|c r IH]; simpl; [lia|].
  destruct (rstrip cls r) as [|d r'] eqn:E.
  - destruct (cls c); simpl in *; lia.
  - simpl in *. lia.
Qed.

Lemma rstrip_fixed cls s :
  String.length (rstrip cls s) = String.length s -> rstrip cls s = s.
Proof.
  induction s as [|c r IH]; simpl; [reflexivity|].
  pose proof (length_rstrip cls r) as Hle.
  destruct (rstrip cls r) as [|d r'] eqn:E.
  - destruct (cls c); simpl in *; intros H.
    + lia.
    + destruct r; simpl in *; [reflexivity | lia].
  - simpl in *. intros H. rewrite IH by lia. reflexivity.
Qed.

(** What [rstrip] leaves does not end in the stripped class. *)
Lemma last_char_rstrip cls s d :
  last_char (rstrip cls s) = Some d -> cls d = false.
Proof.
  revert d. induction s as [|c r IH]; simpl; intros d; [discriminate|].
  destruct (rstrip cls r) as [|e r'] eqn:E.
  - destruct (cls c) eqn:Ec; simpl; [discriminate|].
    intros [= <-]. exact Ec.
  - change (last_char (String c (String e r')))
      with (match last_char (String e r') with
            | None => Some c | Some x => Some x end).
    destruct (last_char (String e r')) as [x|] eqn:El.
    + intros [= <-]. apply IH. reflexivity.
    + simpl in El. destruct (last_char r'); discriminate.
Qed.

Lemma rstrip_no_last cls s :
  match last_char s with Some d => cls d = false | None => True end ->
  rstrip cls s = s.
Proof.
  induction s as [|c r IH]; simpl; [reflexivity|].
  destruct (last_char r) as [d|] eqn:El.
  - intros H. rewrite IH by exact H.
    destruct r; [discriminate | reflexivity].
  - intros H. destruct r as [|e r'].
    + simpl. now rewrite H.
    + simpl in El. destruct (last_char r'); discriminate.
Qed.

End TextFacts.

(** ** Canonical URLs *)

Module NormalizeFacts.

Import Text Synth.

Lemma length_sub_scheme u : String.length (sub_scheme u) <= String.length u.
Proof.
  unfold sub_scheme.
  destruct (strip_prefix "https://" u) eqn:E1.
  - apply strip_prefix_length in E1. lia.
  - destruct (strip_prefix "http://" u) eqn:E2; [|lia].
    apply strip_prefix_length in E2. lia.
Qed.

Lemma length_sub_www u : String.length (sub_www u) <= String.length u.
Proof.
  unfold sub_www. destruct (strip_prefix "www." u) eqn:E; [|lia].
  apply strip_prefix_length in E. lia.
Qed.

Lemma normalize_lower u : lower (_normalize_url u) = _normalize_url u.
Proof. unfold _normalize_url. apply lower_idem. Qed.

Lemma normalize_no_question u :
  contains_char "?"%char (_normalize_url u) = false.
Proof.
  unfold _normalize_url. rewrite contains_lower_question.
  apply contains_before_other, contains_before_same.
Qed.

Lemma normalize_no_hash u :
  contains_char "#"%char (_normalize_url u) = false.
Proof.
  unfold _normalize_url. rewrite contains_lower_hash.
  apply contains_before_same.
Qed.

Lemma ends_with_slash_rstrip n :
  ends_with "/"%char n = false -> rstrip is_slash n = n.
Proof.
  unfold ends_with. intros H. apply rstrip_no_last.
  destruct (last_char n) as [d|]; [|exact I].
  unfold is_slash. now rewrite Ascii.eqb_sym.
Qed.

Lemma rstrip_ends_with_slash n :
  rstrip is_slash n = n -> ends_with "/"%char n = false.
Proof.
  intros H. unfold ends_with.
  destruct (last_char n) as [d|] eqn:E; [|reflexivity].
  rewrite <- H in E. apply last_char_rstrip in E.
  unfold is_slash in E. now rewrite Ascii.eqb_sym.
Qed.

(** On a stripped string without query or fragment marks the function
    only lowercases. *)
Lemma normalize_stripped n :
  stripped n = true ->
  contains_char "?"%char n = false -> contains_char "#"%char n = false ->
  _normalize_url n = lower n.
Proof.
  unfold stripped, starts_with. intros H Hq Hh.
  repeat (apply andb_true_iff in H as [H ?]).
  unfold _normalize_url, sub_scheme, sub_www.
  destruct (strip_prefix "https://" n); [discriminate|].
  destruct (strip_prefix "http://" n); [discriminate|].
  destruct (strip_prefix "www." n); [discriminate|].
  rewrite ends_with_slash_rstrip by now apply negb_true_iff.
  rewrite (before_absent "?"%char) by exact Hq.
  rewrite (before_absent "#"%char) by exact Hh.
  reflexivity.
Qed.

(** A fixed point of [_normalize_url] is stripped: every stage that
    removes something shortens the string. *)
Lemma fixed_point_stripped n : _normalize_url n = n -> stripped n = true.
Proof.
  intros Hfix.
  assert (Hlen : String.length (_normalize_url n) = String.length n)
    by now rewrite Hfix.
  unfold _normalize_url in Hlen. rewrite length_lower in Hlen.
  pose proof (length_before "#"%char
                (before "?"%char (rstrip is_slash (sub_www (sub_scheme n))))).
  pose proof (length_before "?"%char (rstrip is_slash (sub_www (sub_scheme n)))).
  pose proof (length_rstrip is_slash (sub_www (sub_scheme n))).
  pose proof (length_sub_www (sub_scheme n)).
  pose proof (length_sub_scheme n).
  assert (Hs : sub_scheme n = n).
  { unfold sub_scheme in *.
    destruct (strip_prefix "https://" n) eqn:E1.
    - apply strip_prefix_length in E1. simpl in E1. lia.
    - destruct (strip_prefix "http://" n) eqn:E2; [|reflexivity].
      apply strip_prefix_length in E2. simpl in E2. lia. }
  rewrite Hs in *.
  assert (Hw : sub_www n = n).
  { unfold sub_www in *.
    destruct (strip_prefix "www." n) eqn:E; [|reflexivity].
    apply strip_prefix_length in E. simpl in E. lia. }
  rewrite Hw in *.
  assert (Hr : rstrip is_slash n = n) by (apply rstrip_fixed; lia).
  unfold stripped, starts_with.
  unfold sub_scheme in Hs. unfold sub_www in Hw.
  destruct (strip_prefix "https://" n) eqn:E1.
  { apply strip_prefix_length in E1. subst. simpl in E1. lia. }
  destruct (strip_prefix "http://" n) eqn:E2.
  { apply strip_prefix_length in E2. subst. simpl in E2. lia. }
  destruct (strip_prefix "www." n) eqn:E3.
  { apply strip_prefix_length in E3. subst. simpl in E3. lia. }
  simpl. now rewrite rstrip_ends_with_slash.
Qed.

(** C1: the code does not do what its comment "Remove protocol, www,
    trailing slashes, query params" says.  It removes the scheme before it
    lowercases and the trailing slashes before it cuts the query string,
    so an upper-case scheme stays and so does the slash in front of a
    query string; a second "www." stays as well.  Each of the three
    inputs normalizes to a string that normalizes further, so the
    normalization is not idempotent. *)
Theorem normalize_not_idempotent :
  ~ (forall u, idempotent_at u)
  /\ _normalize_url "HTTP://Example.com" = "http://example.com"
  /\ _normalize_url "http://example.com" = "example.com"
  /\ _normalize_url "http://www.www.example.com" = "www.example.com"
  /\ _normalize_url "www.example.com" = "example.com"
  /\ _normalize_url "https://example.com/?q=1" = "example.com/"
  /\ _normalize_url "example.com/" = "example.com".
Proof.
  split; [|repeat split; reflexivity].
  intros H. specialize (H "HTTP://Example.com"). discriminate H.
Qed.

(** The output of [_normalize_url] is in lower case and holds no query
    or fragment mark; normalizing it again changes nothing exactly when it
    does not begin with "http://", "https://" or "www." and does not end
    with a slash. *)
Lemma normalize_idempotent_iff (u : string) :
  (idempotent_at u <-> stripped (_normalize_url u) = true)
  /\ lower (_normalize_url u) = _normalize_url u
  /\ contains_char "?"%char (_normalize_url u) = false
  /\ contains_char "#"%char (_normalize_url u) = false.
Proof.
  split; [|auto using normalize_lower, normalize_no_question,
                      normalize_no_hash].
  unfold idempotent_at. split.
  - apply fixed_point_stripped.
  - intros H. rewrite normalize_stripped; auto using normalize_lower,
      normalize_no_question, normalize_no_hash.
Qed.

End NormalizeFacts.

(** ** The deterministic planner *)

Module PlannerFacts.

Import Text Query.

Lemma loop_inv_init : loop_inv ([], ∅).
Proof.
  repeat split; simpl; try lia.
  - intros H. set_solver.
  - intros H. inversion H.
  - constructor.
Qed.

Lemma unique_step_inv st q : loop_inv st -> loop_inv (unique_step st q).
Proof.
  destruct st as [uq seen]. intros (Hseen & Hnd & Hlen). simpl in *.
  unfold unique_step. fold (norm q).
  destruct (bool_decide (norm q ∉ seen)) eqn:Hd; simpl;
    [|repeat split; simpl; auto; apply Hseen].
  destruct (Nat.ltb_spec (List.length uq) 5) as [Hlt|Hge]; simpl;
    [|repeat split; simpl; auto; apply Hseen].
  apply bool_decide_eq_true in Hd.
  repeat split; simpl.
  - rewrite map_app. simpl. rewrite elem_of_app, elem_of_union.
    rewrite elem_of_singleton, list_elem_of_singleton, Hseen. tauto.
  - rewrite map_app. simpl. rewrite elem_of_app, elem_of_union.
    rewrite elem_of_singleton, list_elem_of_singleton, Hseen. tauto.
  - rewrite map_app. simpl. apply NoDup_app. repeat split; auto.
    + intros x Hx Hx'. apply list_elem_of_singleton in Hx'. subst x.
      apply Hd, Hseen, Hx.
    + apply NoDup_singleton.
  - rewrite length_app. simpl. lia.
Qed.

Lemma fold_unique_inv l st :
  loop_inv st -> loop_inv (fold_left unique_step l st).
Proof.
  revert st. induction l as [|q l IH]; intros st H; simpl; [exact H|].
  apply IH, unique_step_inv, H.
Qed.

(** The loop only appends. *)
Lemma unique_step_extends st q :
  exists ext, fst (unique_step st q) = fst st ++ ext.
Proof.
  destruct st as [uq seen]. unfold unique_step.
  destruct (bool_decide _ && _); simpl.
  - now exists [q].
  - exists []. now rewrite app_nil_r.
Qed.

Lemma fold_unique_extends l st :
  exists ext, fst (fold_left unique_step l st) = fst st ++ ext.
Proof.
  revert st. induction l as [|q l IH]; intros st; simpl.
  - exists []. now rewrite app_nil_r.
  - destruct (IH (unique_step st q)) as [e1 H1].
    destruct (unique_step_extends st q) as [e2 H2].
    exists (e2 ++ e1). rewrite H1, H2. now rewrite app_assoc.
Qed.

(** Every branch of the planner starts from the original query. *)
Lemma candidates_head query : exists rest, candidates query = query :: rest.
Proof.
  unfold candidates.
  repeat match goal with
         | |- context [if ?b then _ else _] => destruct b
         | |- context [match ?l with [] => _ | _ :: _ => _ end] => destruct l
         end; simpl; eauto.
Qed.

Lemma breakdown_query_unfold query :
  breakdown_query query
  = firstn 5 (fst (fold_left unique_step (candidates query) ([], ∅))).
Proof.
  unfold breakdown_query.
  now destruct (fold_left unique_step (candidates query) ([], ∅)).
Qed.

(** C9: the planner's output starts with the original query, holds no two
    entries that are equal once lowercased and trimmed, and has at most
    five entries; for "what is photosynthesis" it is the original followed
    by the three definition variants. *)
Theorem breakdown_query_shape :
  (forall query,
      hd_error (breakdown_query query) = Some query
      /\ NoDup (List.map (fun q => strip (lower q)) (breakdown_query query))
      /\ List.length (breakdown_query query) <= 5)
  /\ breakdown_query "what is photosynthesis"
     = [ "what is photosynthesis"; "photosynthesis definition";
         "photosynthesis explanation"; "photosynthesis examples" ].
Proof.
  split; [|vm_compute; reflexivity].
  intros query. rewrite breakdown_query_unfold.
  destruct (candidates_head query) as [rest Hc]. rewrite Hc.
  cbn [fold_left].
  set (st1 := unique_step ([], ∅) query).
  assert (Hst1 : fst st1 = [query]).
  { unfold st1, unique_step. simpl.
    rewrite bool_decide_eq_true_2 by set_solver. reflexivity. }
  pose proof (fold_unique_inv rest st1
                (unique_step_inv _ query loop_inv_init)) as (_ & Hnd & Hlen).
  destruct (fold_unique_extends rest st1) as [ext Hext].
  rewrite Hst1 in Hext.
  rewrite firstn_all2 by exact Hlen.
  repeat split; auto.
  rewrite Hext. reflexivity.
Qed.

(** C2: the planner tests for an intent named "factual", which
    [_detect_intent] never returns: a "who" question with two keywords
    comes back alone, without the joined keywords and without
    "<first keyword> facts". *)
Theorem factual_branch_unreachable :
  (forall query, _detect_intent query <> "factual")
  /\ _detect_intent (lower "who invented the telephone") = "person"
  /\ _extract_keywords "who invented the telephone" = ["invented"; "telephone"]
  /\ breakdown_query "who invented the telephone"
     = ["who invented the telephone"].
Proof.
  split; [|repeat split; vm_compute; reflexivity].
  intros query. unfold _detect_intent, entity_patterns. simpl.
  repeat match goal with
         | |- context [if ?b then _ else _] => destruct b
         end; discriminate.
Qed.

End PlannerFacts.

(** ** Insertion-ordered dicts *)

Section DictFacts.

Context {V : Type}.

Lemma dict_set_fresh (k : string) (v : V) (d : list (string * V)) :
  k ∉ Py.keys d -> Py.dict_set k v d = d ++ [(k, v)].
Proof.
  induction d as [|[k' v'] d IH]; simpl; intros Hk; [reflexivity|].
  destruct (String.eqb_spec k k') as [->|Hne].
  - exfalso. apply Hk. left.
  - rewrite IH; [reflexivity|]. intros Hin. apply Hk. now right.
Qed.

End DictFacts.

(** ** The orchestrator *)

Module OrchFacts.

Import Orch.

Section Batch.

Variable max_results_per_engine : nat.

Local Abbreviation run := (run max_results_per_engine).
Local Abbreviation entry_of := (entry_of max_results_per_engine).

Lemma create_tasks_spec timeout sub_queries es tasks :
  sub_queries <> [] ->
  create_tasks timeout sub_queries es tasks
  = Some (tasks ++ tasks_of timeout sub_queries es (List.length tasks)).
Proof.
  intros Hne. revert tasks.
  induction es as [|[name e] es IH]; intros tasks; simpl.
  - now rewrite app_nil_r.
  - destruct sub_queries as [|q0 qs] eqn:Eq; [congruence|].
    rewrite <- Eq in *.
    assert (Hlt : List.length tasks mod List.length sub_queries
                  < List.length sub_queries).
    { apply Nat.mod_upper_bound. subst. simpl. lia. }
    destruct (nth_error sub_queries
                (List.length tasks mod List.length sub_queries))
      as [sq|] eqn:En.
    + rewrite IH. rewrite length_app. simpl.
      rewrite Nat.add_1_r, <- app_assoc. simpl.
      unfold assigned. now rewrite (nth_error_nth _ _ _ En).
    + apply nth_error_None in En. lia.
Qed.

Lemma tasks_of_names timeout sub_queries es k :
  List.map task_name (tasks_of timeout sub_queries es k) = Py.keys es.
Proof.
  revert k. induction es as [|[name e] es IH]; intros k; simpl;
    [reflexivity|]. now rewrite IH.
Qed.

Lemma tasks_of_nth timeout sub_queries es k i name e :
  nth_error es i = Some (name, e) ->
  nth_error (tasks_of timeout sub_queries es k) i
  = Some (mkTask name e (assigned sub_queries (k + i)) timeout).
Proof.
  revert k i. induction es as [|[n' e'] es IH]; intros k i; simpl.
  - destruct i; discriminate.
  - destruct i as [|i]; simpl.
    + intros [= -> ->]. now rewrite Nat.add_0_r.
    + intros H. rewrite (IH (S k) i H). do 3 f_equal. lia.
Qed.

(** Filing under distinct names appends, in order. *)
Lemma organize_distinct (ts : list task) acc :
  NoDup (Py.keys acc ++ List.map task_name ts) ->
  fold_left
    (fun engine_results '(engine_name, result) =>
       match result with
       | Exn => Py.dict_set engine_name [] engine_results
       | Value rs => Py.dict_set engine_name rs engine_results
       end)
    (combine (List.map task_name ts) (List.map run ts)) acc
  = acc ++ List.map entry_of ts.
Proof.
  revert acc. induction ts as [|t ts IH]; intros acc Hnd; simpl.
  - now rewrite app_nil_r.
  - assert (Hfresh : task_name t ∉ Py.keys acc).
    { apply NoDup_app in Hnd as (_ & Hd & _). intros Hin.
      apply (Hd _ Hin). left. }
    assert (Hstep : forall rs,
               NoDup (Py.keys (acc ++ [(task_name t, rs)])
                      ++ List.map task_name ts)).
    { intros rs. unfold Py.keys in *. rewrite map_app. simpl.
      rewrite <- app_assoc. exact Hnd. }
    unfold entry_of. destruct (run t) as [rs|].
    + rewrite dict_set_fresh by exact Hfresh.
      rewrite IH by apply Hstep. now rewrite <- app_assoc.
    + rewrite dict_set_fresh by exact Hfresh.
      rewrite IH by apply Hstep. now rewrite <- app_assoc.
Qed.

Lemma keys_entries (ts : list task) :
  Py.keys (List.map entry_of ts) = List.map task_name ts.
Proof.
  unfold Py.keys. rewrite map_map. apply map_ext. intros t.
  unfold entry_of. now destruct (run t).
Qed.

(** The batch call, in closed form. *)
Lemma search_all_closed_form engines query sub_queries timeout :
  NoDup (Py.keys engines) -> sub_queries <> [] ->
  search_all max_results_per_engine engines query sub_queries timeout
  = Some (List.map entry_of (tasks_of timeout sub_queries engines 0)).
Proof.
  intros Hnd Hne. unfold search_all.
  rewrite create_tasks_spec by exact Hne. simpl.
  unfold organize.
  rewrite <- (tasks_of_names timeout sub_queries engines 0).
  rewrite organize_distinct; [reflexivity|].
  simpl. now rewrite tasks_of_names.
Qed.

Lemma dict_get_entries (ts : list task) i t :
  NoDup (List.map task_name ts) ->
  nth_error ts i = Some t ->
  Py.dict_get (task_name t) (List.map entry_of ts) = Some (snd (entry_of t)).
Proof.
  revert i. induction ts as [|t0 ts IH]; intros i Hnd; simpl.
  - destruct i; discriminate.
  - apply NoDup_cons in Hnd as [Hnotin Hnd].
    destruct i as [|i]; simpl.
    + intros [= ->]. unfold Orch.entry_of.
      destruct (run t); simpl; now rewrite String.eqb_refl.
    + intros Hi.
      assert (Hin : task_name t ∈ List.map task_name ts).
      { apply list_elem_of_In, in_map, (nth_error_In _ _ Hi). }
      unfold Orch.entry_of at 1.
      destruct (run t0); simpl;
        (destruct (String.eqb_spec (task_name t) (task_name t0)) as [E|_];
         [exfalso; apply Hnotin; rewrite <- E; exact Hin
         | exact (IH i Hnd Hi)]).
Qed.

(** C8: for a non-empty sub-query list the batch call returns a map with
    exactly the registered engine names as keys, in registration order;
    the entry of an engine is what its own call completed with, and the
    empty list when that call timed out or raised, whatever the other
    engines did. *)
Theorem search_all_one_entry_per_engine engines query sub_queries timeout :
  NoDup (Py.keys engines) -> sub_queries <> [] ->
  exists m,
    search_all max_results_per_engine engines query sub_queries timeout
    = Some m
    /\ Py.keys m = Py.keys engines
    /\ forall i name e,
         nth_error engines i = Some (name, e) ->
         Py.dict_get name m
         = Some (contribution
                   (e (assigned sub_queries i) max_results_per_engine
                      timeout)).
Proof.
  intros Hnd Hne. eexists. split; [now apply search_all_closed_form|].
  split; [now rewrite keys_entries, tasks_of_names|].
  intros i name e Hi.
  pose proof (tasks_of_nth timeout sub_queries engines 0 i name e Hi) as Ht.
  simpl in Ht.
  rewrite <- (tasks_of_names timeout sub_queries engines 0) in Hnd.
  rewrite (dict_get_entries _ i _ Hnd Ht : Py.dict_get name _ = _).
  unfold Orch.entry_of, Orch.run, _search_with_timeout. simpl.
  now destruct (e (assigned sub_queries i) max_results_per_engine timeout).
Qed.

(** The streaming loop yields every pending task once. *)
Lemma drain_permutation fuel sched (ts : list task) :
  List.length ts <= fuel ->
  Permutation (drain max_results_per_engine fuel sched ts)
              (List.map entry_of ts).
Proof.
  revert sched ts. induction fuel as [|fuel IH]; intros sched ts Hlen.
  - destruct ts; [constructor | simpl in Hlen; lia].
  - destruct ts as [|t0 ts0]; [constructor|].
    cbn [drain]. remember (t0 :: ts0) as ts eqn:Ets.
    set (k := hd 0 sched mod List.length ts).
    assert (Hk : k < List.length ts).
    { apply Nat.mod_upper_bound. subst ts. simpl. lia. }
    destruct (nth_error ts k) as [t|] eqn:En;
      [|apply nth_error_None in En; lia].
    destruct (nth_error_split _ _ En) as (l1 & l2 & Hsplit & Hl1).
    assert (Hrest : firstn k ts ++ skipn (S k) ts = l1 ++ l2).
    { rewrite Hsplit, <- Hl1.
      rewrite firstn_app, Nat.sub_diag, firstn_all. simpl.
      rewrite app_nil_r.
      replace (S (List.length l1)) with (List.length (l1 ++ [t]))
        by (rewrite length_app; simpl; lia).
      change (l1 ++ t :: l2) with (l1 ++ [t] ++ l2).
      rewrite app_assoc, skipn_app, skipn_all, Nat.sub_diag. reflexivity. }
    rewrite Hrest.
    fold (entry_of t).
    rewrite Hsplit, map_app. simpl.
    apply Permutation_cons_app. rewrite <- map_app. apply IH.
    rewrite Hsplit in Hlen. rewrite length_app in *. simpl in Hlen. lia.
Qed.

Lemma fixed_entries timeout sub_queries responses k :
  List.map entry_of
    (tasks_of timeout sub_queries (fixed_engines responses) k)
  = responses.
Proof.
  revert k. induction responses as [|[name rs] rest IH]; intros k; simpl;
    [reflexivity|]. now rewrite IH.
Qed.

Lemma fixed_engines_keys responses :
  Py.keys (fixed_engines responses) = Py.keys responses.
Proof.
  unfold Py.keys, fixed_engines. rewrite map_map. apply map_ext.
  now intros [name rs].
Qed.

Lemma sum_from (l : list nat) a : fold_left Nat.add l a = a + list_sum l.
Proof.
  revert a. induction l as [|x l IH]; intros a; simpl; [lia|].
  rewrite IH. lia.
Qed.

Lemma total_results_permutation p q :
  Permutation p q -> total_results p = total_results q.
Proof.
  unfold total_results, Py.sum. intros H. rewrite !sum_from. simpl.
  induction H; simpl; lia.
Qed.

(** C10: with engines that each answer with a fixed list, the pairs
    yielded by the streaming call are, for every completion order, a
    rearrangement of the entries of the batch map, which are the fixed
    answers; the two modes carry the same number of results. *)
Theorem streaming_matches_batch responses query sub_queries timeout sched :
  NoDup (Py.keys responses) -> sub_queries <> [] ->
  exists batch streamed,
    search_all max_results_per_engine (fixed_engines responses)
               query sub_queries timeout = Some batch
    /\ search_all_streaming max_results_per_engine (fixed_engines responses)
                            query sub_queries sched = Some streamed
    /\ batch = responses
    /\ Permutation streamed batch
    /\ total_results streamed = total_results batch.
Proof.
  intros Hnd Hne. rewrite <- fixed_engines_keys in Hnd.
  exists responses.
  eexists. split.
  { rewrite search_all_closed_form by assumption.
    now rewrite fixed_entries. }
  unfold search_all_streaming. rewrite create_tasks_spec by exact Hne.
  simpl. split; [reflexivity|]. split; [reflexivity|].
  assert (Hp : Permutation
                 (drain max_results_per_engine
                    (List.length (tasks_of 8 sub_queries
                                    (fixed_engines responses) 0))
                    sched
                    (tasks_of 8 sub_queries (fixed_engines responses) 0))
                 responses).
  { rewrite <- (fixed_entries 8 sub_queries responses 0) at 3.
    apply drain_permutation. lia. }
  split; [exact Hp | now apply total_results_permutation].
Qed.

End Batch.

End OrchFacts.

(** ** Deduplication *)

Section RemoveFacts.

Context {A B : Type} `{EqDecision A} (f : A -> B).

Lemma list_remove_sublist (x : A) (l : list A) :
  sublist (Py.list_remove x l) l.
Proof.
  induction l as [|y l IH]; simpl; [constructor|].
  destruct (decide (x = y)); [now constructor | now constructor].
Qed.

Lemma list_remove_keeps (x r : A) (l : list A) :
  r ∈ l -> r <> x -> r ∈ Py.list_remove x l.
Proof.
  induction l as [|y l IH]; simpl; intros Hin Hne; [inversion Hin|].
  apply elem_of_cons in Hin as [->|Hin].
  - destruct (decide (x = y)); [congruence | left].
  - destruct (decide (x = y)); [exact Hin | right; auto].
Qed.

(** With distinct keys, removing an element removes its key. *)
Lemma list_remove_key_gone (x r : A) (l : list A) :
  NoDup (List.map f l) -> x ∈ l -> r ∈ Py.list_remove x l -> f r <> f x.
Proof.
  induction l as [|y l IH]; simpl; intros Hnd Hx Hr; [inversion Hx|].
  apply NoDup_cons in Hnd as [Hy Hnd].
  destruct (decide (x = y)) as [->|Hne].
  - intros E. apply Hy. rewrite <- E.
    apply list_elem_of_In, in_map, list_elem_of_In, Hr.
  - apply elem_of_cons in Hx as [->|Hx]; [congruence|].
    apply elem_of_cons in Hr as [->|Hr].
    + intros E. apply Hy. rewrite E.
      apply list_elem_of_In, in_map, list_elem_of_In, Hx.
    + now apply IH.
Qed.

Lemma sublist_map (l1 l2 : list A) :
  sublist l1 l2 -> sublist (List.map f l1) (List.map f l2).
Proof. induction 1; simpl; now constructor. Qed.

End RemoveFacts.

Module DedupFacts.

Import Text Synth.

Section WithRatio.

Variable ratio : string -> string -> Q.

Local Abbreviation dedup_step := (dedup_step ratio).
Local Abbreviation _deduplicate := (_deduplicate ratio).
Local Abbreviation similar := (_is_content_similar ratio).

Lemma dedup_inv_init : dedup_inv (∅, []).
Proof.
  split; [|split]; simpl.
  - intros u r H. rewrite lookup_empty in H. discriminate.
  - intros r H. inversion H.
  - constructor.
Qed.

(** The element handed to [list.remove] is in the list. *)
Lemma dedup_remove_present st u existing :
  dedup_inv st -> fst st !! u = Some existing -> existing ∈ snd st.
Proof. intros (Ha & _ & _) H. now apply Ha in H. Qed.

Lemma dedup_step_inv st r : dedup_inv st -> dedup_inv (dedup_step st r).
Proof.
  destruct st as [seen unique]. intros (Ha & Hb & Hc). simpl in *.
  unfold Synth.dedup_step. fold (key r).
  destruct (seen !! key r) as [existing|] eqn:Hlook.
  - destruct (Nat.ltb _ _); [|now split; [|split]].
    destruct (Ha _ _ Hlook) as [Hex Hkey].
    split; [|split]; simpl.
    + intros u x H. destruct (decide (key r = u)) as [<-|Hne].
      * rewrite lookup_insert_eq in H. injection H as <-.
        split; [|reflexivity]. apply elem_of_app. right. left.
      * rewrite lookup_insert_ne in H by exact Hne.
        destruct (Ha _ _ H) as [Hin Hk].
        split; [|exact Hk].
        apply elem_of_app. left. apply list_remove_keeps; [exact Hin|].
        intros ->. congruence.
    + intros x Hx. apply elem_of_app in Hx as [Hx|Hx].
      * pose proof (list_remove_key_gone key _ _ _ Hc Hex Hx) as Hk.
        rewrite lookup_insert_ne by congruence.
        apply Hb. eapply sublist_subseteq; [apply list_remove_sublist|].
        exact Hx.
      * apply list_elem_of_singleton in Hx as ->.
        apply lookup_insert_eq.
    + rewrite map_app. simpl. apply NoDup_app. split; [|split].
      * eapply sublist_NoDup; [exact Hc|].
        apply (sublist_map key), list_remove_sublist.
      * intros k Hk Hk'. apply list_elem_of_singleton in Hk' as ->.
        apply list_elem_of_In, in_map_iff in Hk as (x & Hkx & Hx).
        apply list_elem_of_In in Hx.
        apply (list_remove_key_gone key _ _ _ Hc Hex Hx). congruence.
      * apply NoDup_singleton.
  - destruct (existsb _ unique); [now split; [|split]|].
    split; [|split]; simpl.
    + intros u x H. destruct (decide (key r = u)) as [<-|Hne].
      * rewrite lookup_insert_eq in H. injection H as <-.
        split; [|reflexivity]. apply elem_of_app. right. left.
      * rewrite lookup_insert_ne in H by exact Hne.
        destruct (Ha _ _ H) as [Hin Hk]. split; [|exact Hk].
        apply elem_of_app. now left.
    + intros x Hx. apply elem_of_app in Hx as [Hx|Hx].
      * rewrite lookup_insert_ne; [now apply Hb|].
        intros E. apply Hb in Hx. rewrite <- E in Hx. congruence.
      * apply list_elem_of_singleton in Hx as ->.
        apply lookup_insert_eq.
    + rewrite map_app. simpl. apply NoDup_app. split; [|split]; auto.
      * intros k Hk Hk'. apply list_elem_of_singleton in Hk' as ->.
        apply list_elem_of_In, in_map_iff in Hk as (x & Hkx & Hx).
        apply list_elem_of_In, Hb in Hx. congruence.
      * apply NoDup_singleton.
Qed.

Lemma fold_dedup_inv rs st :
  dedup_inv st -> dedup_inv (fold_left dedup_step rs st).
Proof.
  revert st. induction rs as [|r rs IH]; intros st H; simpl; [exact H|].
  apply IH, dedup_step_inv, H.
Qed.

(** A step keeps the accepted results in the order of the input. *)
Lemma dedup_step_sublist st r pre :
  sublist (snd st) pre -> sublist (snd (dedup_step st r)) (pre ++ [r]).
Proof.
  destruct st as [seen unique]. simpl. intros Hsub.
  unfold Synth.dedup_step.
  destruct (seen !! _) as [existing|].
  - destruct (Nat.ltb _ _); simpl.
    + apply sublist_app; [|reflexivity].
      etransitivity; [apply list_remove_sublist | exact Hsub].
    + now apply sublist_inserts_r.
  - destruct (existsb _ unique); simpl.
    + now apply sublist_inserts_r.
    + apply sublist_app; [exact Hsub | reflexivity].
Qed.

Lemma fold_dedup_sublist rs st pre :
  sublist (snd st) pre ->
  sublist (snd (fold_left dedup_step rs st)) (pre ++ rs).
Proof.
  revert st pre. induction rs as [|r rs IH]; intros st pre H; simpl.
  - now rewrite app_nil_r.
  - change (pre ++ r :: rs) with (pre ++ [r] ++ rs). rewrite app_assoc.
    apply IH, dedup_step_sublist, H.
Qed.

Lemma deduplicate_inv rs : dedup_inv (fold_left dedup_step rs (∅, [])).
Proof. apply fold_dedup_inv, dedup_inv_init. Qed.

(** [seen_urls] maps a canonical URL to the accepted result that has
    it. *)
Lemma seen_is_holder st u : dedup_inv st -> fst st !! u = holder u (snd st).
Proof.
  destruct st as [seen unique]. intros (Ha & Hb & _). simpl in *.
  unfold holder. destruct (List.find _ unique) as [e|] eqn:E.
  - apply find_some in E as [Hin Hk].
    apply String.eqb_eq in Hk. subst u.
    apply Hb, list_elem_of_In, Hin.
  - destruct (seen !! u) as [e|] eqn:Hl; [|reflexivity].
    destruct (Ha _ _ Hl) as [Hin Hk].
    apply list_elem_of_In in Hin.
    pose proof (find_none _ _ E e Hin) as Hno. cbv beta in Hno.
    rewrite Hk, String.eqb_refl in Hno. discriminate Hno.
Qed.

(** One more input result, in terms of the output so far. *)
Lemma deduplicate_step pre r :
  _deduplicate (pre ++ [r])
  = match holder (key r) (_deduplicate pre) with
    | Some existing =>
        if Nat.ltb (prio existing) (prio r)
        then Py.list_remove existing (_deduplicate pre) ++ [r]
        else _deduplicate pre
    | None =>
        if existsb (fun e => similar (snippet r) (snippet e))
                   (_deduplicate pre)
        then _deduplicate pre
        else _deduplicate pre ++ [r]
    end.
Proof.
  unfold Synth._deduplicate. rewrite fold_left_app. cbn [fold_left].
  pose proof (seen_is_holder _ (key r) (deduplicate_inv pre)) as Hseen.
  destruct (fold_left dedup_step pre (∅, [])) as [seen unique].
  cbn [fst snd] in *. unfold Synth.dedup_step. fold (key r).
  rewrite Hseen. destruct (holder (key r) unique) as [existing|].
  - fold (prio existing) (prio r). now destruct (Nat.ltb _ _).
  - now destruct (existsb _ unique).
Qed.

(** C4 (amended): the deduplication output is a subsequence of the
    flattened input: the surviving results stand in the order in which
    they themselves occur in the input.  The output grows with the input
    as follows: a result whose canonical URL is held by an accepted result
    of strictly lower priority replaces that result and stands at the end
    of the list accepted so far, its own position, not the position at
    which the URL was first seen; with a holder of equal or higher
    priority, or with a new URL and a near-duplicate snippet, nothing
    changes; any other result is appended. *)
Theorem deduplicate_keeps_input_order (rs : list SearchResult) :
  sublist (_deduplicate rs) rs
  /\ (rs = [] -> _deduplicate rs = [])
  /\ (forall pre r,
        rs = pre ++ [r] ->
        _deduplicate rs
        = match holder (key r) (_deduplicate pre) with
          | Some existing =>
              if Nat.ltb (prio existing) (prio r)
              then Py.list_remove existing (_deduplicate pre) ++ [r]
              else _deduplicate pre
          | None =>
              if existsb (fun e => similar (snippet r) (snippet e))
                         (_deduplicate pre)
              then _deduplicate pre
              else _deduplicate pre ++ [r]
          end).
Proof.
  split; [|split].
  - apply (fold_dedup_sublist rs (∅, []) []). constructor.
  - now intros ->.
  - intros pre r ->. apply deduplicate_step.
Qed.

(** A replacement takes the place at the end of the list. *)
Lemma deduplicate_replacement pre r existing :
  existing ∈ _deduplicate pre -> key existing = key r ->
  prio existing < prio r ->
  _deduplicate (pre ++ [r])
  = Py.list_remove existing (_deduplicate pre) ++ [r].
Proof.
  intros Hin Hk Hp. unfold Synth._deduplicate in *.
  rewrite fold_left_app. simpl.
  destruct (deduplicate_inv pre) as (_ & Hb & _).
  destruct (fold_left dedup_step pre (∅, [])) as [seen unique].
  simpl in *. apply Hb in Hin. unfold Synth.dedup_step.
  fold (key r). rewrite <- Hk, Hin. fold (prio existing) (prio r).
  apply Nat.ltb_lt in Hp. now rewrite Hp.
Qed.

(** *** The URL-collision rule *)

Lemma winner_snoc u pre r :
  winner u (pre ++ [r])
  = if String.eqb (key r) u then collide (winner u pre) r
    else winner u pre.
Proof. unfold winner. now rewrite fold_left_app. Qed.

Lemma winner_none u rs r :
  winner u rs = None -> r ∈ rs -> key r <> u.
Proof.
  induction rs as [|x rs IH] using rev_ind; intros Hw Hin.
  - inversion Hin.
  - rewrite winner_snoc in Hw.
    destruct (String.eqb_spec (key x) u) as [E|E].
    + destruct (winner u rs) as [e|]; simpl in Hw; [|discriminate].
      destruct (Nat.ltb _ _); discriminate.
    + apply elem_of_app in Hin as [Hin|Hin]; [now apply IH|].
      now apply list_elem_of_singleton in Hin as ->.
Qed.

(** The winner has the highest priority among the results with its key,
    and is the first of those that have it. *)
Lemma winner_spec u rs w :
  winner u rs = Some w ->
  exists i, nth_error rs i = Some w /\ key w = u
    /\ forall j r, nth_error rs j = Some r -> key r = u ->
         prio r <= prio w /\ (j < i -> prio r < prio w).
Proof.
  revert w. induction rs as [|x rs IH] using rev_ind; intros w Hw.
  - discriminate.
  - rewrite winner_snoc in Hw.
    assert (Hlast : nth_error (rs ++ [x]) (List.length rs) = Some x).
    { rewrite nth_error_app2, Nat.sub_diag by lia. reflexivity. }
    assert (Hsplit : forall j r, nth_error (rs ++ [x]) j = Some r ->
              (j < List.length rs /\ nth_error rs j = Some r)
              \/ (j = List.length rs /\ r = x)).
    { intros j r Hj. destruct (Nat.lt_ge_cases j (List.length rs)) as [Hl|Hl].
      - left. split; [exact Hl|]. now rewrite nth_error_app1 in Hj.
      - right. rewrite nth_error_app2 in Hj by exact Hl.
        destruct (j - List.length rs) as [|d] eqn:Ed; simpl in Hj.
        + split; [lia | congruence].
        + destruct d; discriminate. }
    destruct (String.eqb_spec (key x) u) as [E|E].
    + destruct (winner u rs) as [e|] eqn:Hprev; simpl in Hw.
      * destruct (IH e eq_refl) as (i & Hi & Hke & Hmax).
        assert (Hilt : i < List.length rs)
          by (apply nth_error_Some; congruence).
        destruct (Nat.ltb_spec (prio e) (prio x)) as [Hlt|Hge];
          injection Hw as <-.
        -- exists (List.length rs). split; [exact Hlast|].
           split; [exact E|]. intros j r Hj Hkr.
           destruct (Hsplit j r Hj) as [[Hl Hj']|[-> ->]].
           ++ destruct (Hmax j r Hj' Hkr). lia.
           ++ lia.
        -- exists i. split; [now rewrite nth_error_app1|].
           split; [exact Hke|]. intros j r Hj Hkr.
           destruct (Hsplit j r Hj) as [[Hl Hj']|[-> ->]].
           ++ apply (Hmax j r Hj' Hkr).
           ++ lia.
      * injection Hw as <-.
        exists (List.length rs). split; [exact Hlast|].
        split; [exact E|]. intros j r Hj Hkr.
        destruct (Hsplit j r Hj) as [[Hl Hj']|[-> ->]]; [|lia].
        exfalso. apply (winner_none u rs r Hprev); [|exact Hkr].
        apply list_elem_of_In. eapply nth_error_In, Hj'.
    + destruct (IH w Hw) as (i & Hi & Hkw & Hmax).
      assert (Hilt : i < List.length rs)
        by (apply nth_error_Some; congruence).
      exists i. split; [now rewrite nth_error_app1|].
      split; [exact Hkw|]. intros j r Hj Hkr.
      destruct (Hsplit j r Hj) as [[Hl Hj']|[-> ->]].
      * apply (Hmax j r Hj' Hkr).
      * congruence.
Qed.

Lemma winner_some u rs :
  u ∈ List.map key rs -> exists w, winner u rs = Some w.
Proof.
  intros Hin. destruct (winner u rs) as [w|] eqn:Hw; [eauto|].
  apply list_elem_of_In, in_map_iff in Hin as (r & Hk & Hr).
  exfalso. apply (winner_none u rs r Hw); [|exact Hk].
  now apply list_elem_of_In.
Qed.

(** Without near-duplicates across canonical URLs, [seen_urls] holds the
    winner of every key. *)
Lemma dedup_step_winner st r pre :
  dedup_inv st ->
  (forall e, e ∈ snd st -> key e <> key r ->
             similar (snippet r) (snippet e) = false) ->
  (forall u, fst st !! u = winner u pre) ->
  forall u, fst (dedup_step st r) !! u = winner u (pre ++ [r]).
Proof.
  destruct st as [seen unique]. intros (Ha & Hb & Hc) Hsim Hw u.
  simpl in *. rewrite winner_snoc. unfold Synth.dedup_step.
  fold (key r). pose proof (Hw (key r)) as Hwr.
  destruct (seen !! key r) as [existing|] eqn:Hlook.
  - fold (prio existing) (prio r).
    destruct (String.eqb_spec (key r) u) as [<-|Hne].
    + rewrite <- Hwr. simpl.
      destruct (Nat.ltb _ _); simpl;
        [apply lookup_insert_eq | exact Hlook].
    + destruct (Nat.ltb _ _); simpl; [|apply Hw].
      rewrite lookup_insert_ne by exact Hne. apply Hw.
  - assert (Hno : existsb (fun existing =>
                             similar (snippet r) (snippet existing)) unique
                  = false).
    { apply not_true_is_false. intros Hex.
      apply existsb_exists in Hex as (e & He & Hs).
      apply list_elem_of_In in He.
      rewrite Hsim in Hs; [discriminate | exact He |].
      intros Ek. apply Hb in He. rewrite Ek in He. congruence. }
    rewrite Hno. simpl.
    destruct (String.eqb_spec (key r) u) as [<-|Hne].
    + rewrite <- Hwr. simpl. apply lookup_insert_eq.
    + rewrite lookup_insert_ne by exact Hne. apply Hw.
Qed.

Lemma fold_dedup_winner rest pre st :
  dedup_inv st -> sublist (snd st) pre ->
  no_cross_similarity ratio (pre ++ rest) ->
  (forall u, fst st !! u = winner u pre) ->
  forall u, fst (fold_left dedup_step rest st) !! u = winner u (pre ++ rest).
Proof.
  revert pre st. induction rest as [|r rest IH]; intros pre st Hinv Hsub Hx Hw.
  - simpl. now rewrite app_nil_r.
  - simpl. change (pre ++ r :: rest) with (pre ++ [r] ++ rest) in *.
    rewrite app_assoc in *.
    apply IH.
    + now apply dedup_step_inv.
    + now apply dedup_step_sublist.
    + exact Hx.
    + apply dedup_step_winner; [exact Hinv | | exact Hw].
      intros e He Hk. apply Hx.
      * apply elem_of_app. left. apply elem_of_app. right. left.
      * apply elem_of_app. left. apply elem_of_app. left.
        eapply sublist_subseteq; [exact Hsub | exact He].
      * congruence.
Qed.

(** C5 (amended): when no result is a near-duplicate of a result with
    another canonical URL, the output holds, for every canonical URL of
    the input, exactly one result: the one of the highest authority
    priority among the input results with that URL, and the first of
    those when several have it. *)
Theorem collision_keeps_highest_priority (rs : list SearchResult) (u : string) :
  no_cross_similarity ratio rs ->
  u ∈ List.map key rs ->
  exists w i,
    nth_error rs i = Some w /\ key w = u
    /\ w ∈ _deduplicate rs
    /\ (forall r, r ∈ _deduplicate rs -> key r = u -> r = w)
    /\ (forall j r, nth_error rs j = Some r -> key r = u ->
           prio r <= prio w /\ (j < i -> prio r < prio w)).
Proof.
  intros Hx Hu.
  destruct (winner_some u rs Hu) as [w Hw].
  destruct (winner_spec u rs w Hw) as (i & Hi & Hk & Hmax).
  pose proof (fold_dedup_winner rs [] (∅, []) dedup_inv_init
                (sublist_nil_l _) Hx) as Hseen.
  simpl in Hseen. specialize (Hseen (fun u => lookup_empty u) u).
  rewrite Hw in Hseen.
  destruct (deduplicate_inv rs) as (Ha & Hb & _).
  exists w, i. split; [exact Hi|]. split; [exact Hk|].
  split; [apply (Ha _ _ Hseen)|]. split; [|exact Hmax].
  intros r Hr Hkr. apply Hb in Hr. rewrite Hkr, Hseen in Hr. congruence.
Qed.

End WithRatio.

End DedupFacts.

(** ** Rounding to the nearest double *)

Module Binary64Facts.

Import Binary64.

Local Open Scope Q_scope.


Lemma rdiv_spec a b :
  (0 < b)%Z ->
  ((2 * rdiv a b - 1) * b <= 2 * a <= (2 * rdiv a b + 1) * b)%Z
  /\ ((2 * a = (2 * rdiv a b + 1) * b)%Z -> Z.even (rdiv a b) = true)
  /\ ((2 * a = (2 * rdiv a b - 1) * b)%Z -> Z.even (rdiv a b) = true).
Proof.
  intros Hb. unfold rdiv.
  pose proof (Z.div_mod a b ltac:(lia)) as Hdm.
  pose proof (Z.mod_pos_bound a b Hb) as Hr.
  set (q := (a / b)%Z) in *. set (r := (a mod b)%Z) in *.
  destruct (Z.compare_spec (2 * r) b) as [E|E|E].
  - destruct (Z.even q) eqn:Eq.
    + repeat split; try nia. intros _. exact Eq.
    + repeat split; try nia.
      intros _. rewrite Z.even_add, Eq. reflexivity.
  - repeat split; nia.
  - repeat split; nia.
Qed.

Lemma rdiv_mono a b a' b' :
  (0 < b)%Z -> (0 < b')%Z -> (a * b' <= a' * b)%Z -> (rdiv a b <= rdiv a' b')%Z.
Proof.
  intros Hb Hb' Hle.
  destruct (rdiv_spec a b Hb) as ((Hlo & Hhi) & Hup & Hdown).
  destruct (rdiv_spec a' b' Hb') as ((Hlo' & Hhi') & Hup' & Hdown').
  set (m := rdiv a b) in *. set (m' := rdiv a' b') in *.
  destruct (Z.le_gt_cases m m') as [H|H]; [exact H|exfalso].
  assert (H1 : ((2 * m' + 1) * b <= 2 * a)%Z) by nia.
  assert (H2 : ((2 * m' + 1) * (b * b') <= 2 * a * b')%Z) by nia.
  assert (H3 : (2 * a' * b <= (2 * m' + 1) * (b * b'))%Z) by nia.
  assert (Ea' : (2 * a' = (2 * m' + 1) * b')%Z) by nia.
  assert (Ea : (2 * a = (2 * m' + 1) * b)%Z) by nia.
  assert (Em : m = (m' + 1)%Z) by nia.
  assert (Ea2 : (2 * a = (2 * m - 1) * b)%Z) by nia.
  specialize (Hup' Ea'). specialize (Hdown Ea2).
  rewrite Em, Z.even_add, Hup' in Hdown. discriminate Hdown.
Qed.

Lemma rne_mono x y : x <= y -> (rne x <= rne y)%Z.
Proof. intros H. apply rdiv_mono; [reflexivity | reflexivity | exact H]. Qed.

Lemma rne_inject n : rne (inject_Z n) = n.
Proof.
  unfold rne, rdiv. cbn [inject_Z Qnum Qden].
  rewrite Z.div_1_r, Z.mod_1_r. reflexivity.
Qed.

Lemma rne_error x :
  inject_Z (rne x) - (1 # 2) <= x <= inject_Z (rne x) + (1 # 2).
Proof.
  destruct x as [n d]. unfold rne. cbn [Qnum Qden].
  destruct (rdiv_spec n (Z.pos d) ltac:(reflexivity)) as ((Hlo & Hhi) & _).
  set (m := rdiv n (Z.pos d)) in *.
  unfold Qle, Qminus, Qplus, Qopp, inject_Z. cbn [Qnum Qden].
  split; nia.
Qed.

Lemma two_neq_0 : ~ 2 == 0.
Proof. discriminate. Qed.

Lemma pow2_pos e : 0 < 2 ^ e.
Proof. apply Qpower_0_lt. reflexivity. Qed.

Lemma pow2_le a b : (a <= b)%Z -> 2 ^ a <= 2 ^ b.
Proof. intros H. apply Qpower_le_compat_l; [exact H | discriminate]. Qed.

Lemma pow2_lt_inv a b : 2 ^ a < 2 ^ b -> (a < b)%Z.
Proof. intros H. eapply Qpower_lt_compat_l_inv; [exact H | reflexivity]. Qed.

Lemma pow2_Z n : (0 <= n)%Z -> inject_Z (2 ^ n) == 2 ^ n.
Proof. intros H. now rewrite Zpower_Qpower. Qed.

Lemma ilog2_spec x : 0 < x -> 2 ^ ilog2 x <= x < 2 ^ (ilog2 x + 1).
Proof.
  intros Hx. unfold ilog2.
  destruct x as [n d]. cbn [Qnum Qden].
  assert (Hn : (0 < n)%Z).
  { unfold Qlt in Hx. cbn in Hx. lia. }
  pose proof (Z.log2_spec n Hn) as [HnL HnU].
  pose proof (Z.log2_spec (Z.pos d) ltac:(reflexivity)) as [HdL HdU].
  pose proof (Z.log2_nonneg n) as HL0.
  pose proof (Z.log2_nonneg (Z.pos d)) as HM0.
  set (L := Z.log2 n) in *. set (M := Z.log2 (Z.pos d)) in *.
  assert (EL : inject_Z (2 ^ L) == 2 ^ L) by now apply pow2_Z.
  assert (EL1 : inject_Z (2 ^ Z.succ L) == 2 ^ (L + 1)).
  { rewrite pow2_Z by lia. now rewrite <- Z.add_1_r. }
  assert (EM : inject_Z (2 ^ M) == 2 ^ M) by now apply pow2_Z.
  assert (EM1 : inject_Z (2 ^ Z.succ M) == 2 ^ (M + 1)).
  { rewrite pow2_Z by lia. now rewrite <- Z.add_1_r. }
  assert (Ex : (n # d) * inject_Z (Z.pos d) == inject_Z n).
  { unfold Qeq, Qmult, inject_Z. cbn. lia. }
  assert (Hd : 0 < inject_Z (Z.pos d)) by reflexivity.
  assert (Q1 : 2 ^ L <= inject_Z n).
  { rewrite <- EL. now rewrite <- Zle_Qle. }
  assert (Q2 : inject_Z n < 2 ^ (L + 1)).
  { rewrite <- EL1. now rewrite <- Zlt_Qlt. }
  assert (Q3 : 2 ^ M <= inject_Z (Z.pos d)).
  { rewrite <- EM. now rewrite <- Zle_Qle. }
  assert (Q4 : inject_Z (Z.pos d) < 2 ^ (M + 1)).
  { rewrite <- EM1. now rewrite <- Zlt_Qlt. }
  pose proof (pow2_pos M) as PM.
  destruct (Qle_bool (2 ^ (L - M)) (n # d)) eqn:E.
  - apply Qle_bool_iff in E. split; [exact E|].
    assert (Ep : 2 ^ (L + 1) == 2 ^ (L - M + 1) * 2 ^ M).
    { rewrite <- Qpower_plus by apply two_neq_0. f_equiv. lia. }
    pose proof (pow2_pos (L - M + 1)) as PA.
    set (X := n # d) in *. set (D := inject_Z (Z.pos d)) in *.
    set (A := 2 ^ (L - M + 1)) in *. set (B := 2 ^ M) in *.
    set (C := 2 ^ (L + 1)) in *. set (N := inject_Z n) in *.
    nra.
  - assert (Hlt : (n # d) < 2 ^ (L - M)).
    { apply Qnot_le_lt. intros H. apply Qle_bool_iff in H. congruence. }
    replace (L - M - 1 + 1)%Z with (L - M)%Z by lia.
    split; [|exact Hlt].
    assert (Ep : 2 ^ L == 2 ^ (L - M - 1) * 2 ^ (M + 1)).
    { rewrite <- Qpower_plus by apply two_neq_0. f_equiv. lia. }
    pose proof (pow2_pos (L - M - 1)) as PA.
    set (X := n # d) in *. set (D := inject_Z (Z.pos d)) in *.
    set (A := 2 ^ (L - M - 1)) in *. set (B := 2 ^ (M + 1)) in *.
    set (C := 2 ^ L) in *. set (N := inject_Z n) in *.
    nra.
Qed.


Lemma ilog2_mono x y : 0 < x -> x <= y -> (ilog2 x <= ilog2 y)%Z.
Proof.
  intros Hx Hxy.
  destruct (ilog2_spec x Hx) as [Hlo _].
  destruct (ilog2_spec y ltac:(lra)) as [_ Hhi].
  assert (H : 2 ^ ilog2 x < 2 ^ (ilog2 y + 1)) by lra.
  apply pow2_lt_inv in H. lia.
Qed.

Lemma exponent_mono x y : 0 < x -> x <= y -> (exponent x <= exponent y)%Z.
Proof.
  intros Hx Hxy. pose proof (ilog2_mono x y Hx Hxy). unfold exponent. lia.
Qed.

(** Scaling by a power of two. *)
Lemma scale_le x e k : x <= 2 ^ (e + k) -> x / 2 ^ e <= 2 ^ k.
Proof.
  intros H. pose proof (pow2_pos e) as He.
  apply Qle_shift_div_r; [exact He|].
  rewrite <- Qpower_plus by apply two_neq_0.
  now rewrite Z.add_comm.
Qed.

Lemma scale_ge x e k : 2 ^ (e + k) <= x -> 2 ^ k <= x / 2 ^ e.
Proof.
  intros H. pose proof (pow2_pos e) as He.
  apply Qle_shift_div_l; [exact He|].
  rewrite <- Qpower_plus by apply two_neq_0.
  now rewrite Z.add_comm.
Qed.

Lemma rne_le x n : x <= inject_Z n -> (rne x <= n)%Z.
Proof. intros H. rewrite <- (rne_inject n). now apply rne_mono. Qed.

Lemma rne_ge x n : inject_Z n <= x -> (n <= rne x)%Z.
Proof. intros H. rewrite <- (rne_inject n). now apply rne_mono. Qed.

(** A positive number below [2 ^ (e + 53)] rounds to at most that. *)
Lemma round_pos_below x :
  0 < x -> round_pos x <= 2 ^ (exponent x + 53).
Proof.
  intros Hx. unfold round_pos. set (e := exponent x).
  destruct (ilog2_spec x Hx) as [_ Hhi].
  assert (Hx' : x <= 2 ^ (e + 53)).
  { apply Qlt_le_weak. eapply Qlt_le_trans; [exact Hhi|].
    apply pow2_le. unfold e, exponent. lia. }
  pose proof (pow2_Z 53 ltac:(lia)) as E53.
  apply scale_le in Hx'. rewrite <- E53 in Hx'.
  apply rne_le in Hx'.
  rewrite Qpower_plus by apply two_neq_0.
  rewrite (Qmult_comm (2 ^ e)). apply Qmult_le_compat_r.
  - rewrite <- E53. now rewrite <- Zle_Qle.
  - apply Qlt_le_weak, pow2_pos.
Qed.

(** A normal number rounds to at least the least double of its binade. *)
Lemma round_pos_above x :
  0 < x -> (-1074 < exponent x)%Z -> 2 ^ (exponent x + 52) <= round_pos x.
Proof.
  intros Hx He. unfold round_pos. set (e := exponent x) in *.
  destruct (ilog2_spec x Hx) as [Hlo _].
  assert (Hx' : 2 ^ (e + 52) <= x).
  { eapply Qle_trans; [|exact Hlo]. apply pow2_le.
    unfold e, exponent in *. lia. }
  pose proof (pow2_Z 52 ltac:(lia)) as E52.
  apply scale_ge in Hx'. rewrite <- E52 in Hx'.
  apply rne_ge in Hx'.
  rewrite Qpower_plus by apply two_neq_0.
  rewrite (Qmult_comm (2 ^ e)). apply Qmult_le_compat_r.
  - rewrite <- E52. now rewrite <- Zle_Qle.
  - apply Qlt_le_weak, pow2_pos.
Qed.

Lemma round_pos_mono x y : 0 < x -> x <= y -> round_pos x <= round_pos y.
Proof.
  intros Hx Hxy. assert (Hy : 0 < y) by lra.
  pose proof (exponent_mono x y Hx Hxy) as He.
  destruct (Z.eq_dec (exponent x) (exponent y)) as [E|E].
  - unfold round_pos. rewrite E. set (e := exponent y).
    apply Qmult_le_compat_r; [|apply Qlt_le_weak, pow2_pos].
    rewrite <- Zle_Qle. apply rne_mono.
    apply Qmult_le_compat_r; [exact Hxy|].
    apply Qlt_le_weak, Qinv_lt_0_compat, pow2_pos.
  - eapply Qle_trans; [apply round_pos_below, Hx|].
    eapply Qle_trans; [|apply round_pos_above; [exact Hy|]].
    + apply pow2_le. lia.
    + unfold exponent in *. lia.
Qed.

Lemma round_pos_nonneg x : 0 < x -> 0 <= round_pos x.
Proof.
  intros Hx. unfold round_pos.
  apply Qmult_le_0_compat; [|apply Qlt_le_weak, pow2_pos].
  change 0 with (inject_Z 0). rewrite <- Zle_Qle. apply rne_ge.
  apply Qlt_le_weak, Qlt_shift_div_l; [apply pow2_pos|].
  now rewrite Qmult_0_l.
Qed.

Lemma Qnum_pos x p : Qnum x = Z.pos p -> 0 < x.
Proof. intros H. unfold Qlt. cbn. rewrite H. lia. Qed.

Lemma Qnum_neg x p : Qnum x = Z.neg p -> x < 0.
Proof. intros H. unfold Qlt. cbn. rewrite H. lia. Qed.

Lemma Qnum_zero x : Qnum x = 0%Z -> x == 0.
Proof. intros H. unfold Qeq. cbn. rewrite H. lia. Qed.

Lemma round_positive x : 0 < x -> round x = round_pos x.
Proof.
  intros Hx. unfold round. destruct (Qnum x) eqn:E; try reflexivity.
  - apply Qnum_zero in E. lra.
  - apply Qnum_neg in E. lra.
Qed.

Lemma round_negative x : x < 0 -> round x = - round_pos (- x).
Proof.
  intros Hx. unfold round. destruct (Qnum x) eqn:E; try reflexivity.
  - apply Qnum_zero in E. lra.
  - apply Qnum_pos in E. lra.
Qed.

Lemma round_zero x : x == 0 -> round x = 0.
Proof.
  intros Hx. unfold round. destruct (Qnum x) eqn:E; try reflexivity.
  - apply Qnum_pos in E. lra.
  - apply Qnum_neg in E. lra.
Qed.

(** Rounding to nearest is monotone. *)
Theorem round_le x y : x <= y -> round x <= round y.
Proof.
  intros Hxy.
  destruct (Q_dec x 0) as [[Hx|Hx]|Hx], (Q_dec y 0) as [[Hy|Hy]|Hy];
    try lra.
  - rewrite (round_negative x Hx), (round_negative y Hy).
    apply Qopp_le_compat, round_pos_mono; lra.
  - rewrite (round_negative x Hx), (round_positive y Hy).
    pose proof (round_pos_nonneg (- x) ltac:(lra)).
    pose proof (round_pos_nonneg y Hy). lra.
  - rewrite (round_negative x Hx), (round_zero y Hy).
    pose proof (round_pos_nonneg (- x) ltac:(lra)). lra.
  - rewrite (round_positive x Hx), (round_positive y Hy).
    now apply round_pos_mono.
  - rewrite (round_zero x Hx), (round_positive y Hy).
    now apply round_pos_nonneg.
  - rewrite (round_zero x Hx), (round_zero y Hy). apply Qle_refl.
Qed.

(** Equal rationals round to equal doubles, whatever their fractions. *)
Lemma round_eq x y : x == y -> round x == round y.
Proof. intros H. apply Qle_antisym; apply round_le; lra. Qed.

(** Below 2 a rounding moves a number by at most [2 ^ -53]. *)
Theorem round_error x :
  0 <= x -> x < 2 ->
  x - (1 # 9007199254740992) <= round x <= x + (1 # 9007199254740992).
Proof.
  intros H0 H2.
  destruct (Q_dec x 0) as [[Hx|Hx]|Hx]; [lra| |].
  2:{ rewrite (round_zero x Hx). lra. }
  rewrite (round_positive x Hx). unfold round_pos.
  set (e := exponent x).
  destruct (ilog2_spec x Hx) as [Hlo _].
  assert (Hl : (ilog2 x < 1)%Z).
  { apply pow2_lt_inv. change (2 ^ 1) with 2. lra. }
  assert (He : (e <= -52)%Z) by (unfold e, exponent; lia).
  pose proof (pow2_le e (-52) He) as Hp.
  change (2 ^ (-52)) with (1 # 4503599627370496) in Hp.
  pose proof (pow2_pos e) as Hpos.
  pose proof (rne_error (x / 2 ^ e)) as [Hm1 Hm2].
  set (m := inject_Z (rne (x / 2 ^ e))) in *.
  assert (Ex : x == (x / 2 ^ e) * 2 ^ e).
  { field. lra. }
  set (q := x / 2 ^ e) in *. set (p := 2 ^ e) in *.
  split; nra.
Qed.

Lemma round_0 : round 0 = 0.
Proof. reflexivity. Qed.

Lemma round_1 : round 1 == 1.
Proof. vm_compute. reflexivity. Qed.

Lemma round_unit x : 0 <= x <= 1 -> 0 <= round x <= 1.
Proof.
  intros [H0 H1]. split.
  - rewrite <- round_0. now apply round_le.
  - rewrite <- round_1. now apply round_le.
Qed.

Lemma round_nonneg x : 0 <= x -> 0 <= round x.
Proof. intros H. rewrite <- round_0. now apply round_le. Qed.

Lemma of_nat_le a b : (a <= b)%nat -> of_nat a <= of_nat b.
Proof.
  intros H. unfold of_nat. apply round_le. rewrite <- Zle_Qle. lia.
Qed.

Lemma of_nat_nonneg a : 0 <= of_nat a.
Proof.
  unfold of_nat. apply round_nonneg. change 0 with (inject_Z 0).
  rewrite <- Zle_Qle. lia.
Qed.

Lemma div_le x y d : 0 < d -> x <= y -> div x d <= div y d.
Proof.
  intros Hd H. unfold div. apply round_le.
  apply Qmult_le_compat_r; [exact H|].
  apply Qlt_le_weak, Qinv_lt_0_compat, Hd.
Qed.

Lemma mul_le x y w : 0 <= w -> x <= y -> mul x w <= mul y w.
Proof.
  intros Hw H. unfold mul. apply round_le.
  now apply Qmult_le_compat_r.
Qed.

Lemma add_le x y x' y' : x <= x' -> y <= y' -> add x y <= add x' y'.
Proof. intros Hx Hy. unfold add. apply round_le. lra. Qed.

Lemma mul_nonneg x w : 0 <= x -> 0 <= w -> 0 <= mul x w.
Proof.
  intros Hx Hw. unfold mul. apply round_nonneg.
  now apply Qmult_le_0_compat.
Qed.

Lemma add_nonneg x y : 0 <= x -> 0 <= y -> 0 <= add x y.
Proof. intros Hx Hy. unfold add. apply round_nonneg. lra. Qed.

Lemma mul_error x w :
  0 <= x <= 1 -> 0 <= w <= 1 ->
  x * w - (1 # 9007199254740992) <= mul x w
  <= x * w + (1 # 9007199254740992).
Proof.
  intros Hx Hw. unfold mul. apply round_error; nra.
Qed.

Lemma add_error x y :
  0 <= x -> 0 <= y -> x + y < 2 ->
  x + y - (1 # 9007199254740992) <= add x y
  <= x + y + (1 # 9007199254740992).
Proof.
  intros Hx Hy H. unfold add. apply round_error; lra.
Qed.

End Binary64Facts.

(** ** The rounding against the floats of the hardware *)

Module Binary64Hardware.

Import PrimFloat.

Local Open Scope Q_scope.

(** On the literals of the synthesizer, on two quotients and on a
    weighted sum the rounding gives the number that the hardware gives. *)
Example round_agrees_with_hardware :
  Binary64.lit (1 # 10) == Binary64.of_hardware 0x1.999999999999ap-4%float
  /\ Binary64.lit (2 # 10) == Binary64.of_hardware 0x1.999999999999ap-3%float
  /\ Binary64.lit (3 # 10) == Binary64.of_hardware 0x1.3333333333333p-2%float
  /\ Binary64.lit (4 # 10) == Binary64.of_hardware 0x1.999999999999ap-2%float
  /\ Binary64.lit (7 # 10) == Binary64.of_hardware 0x1.6666666666666p-1%float
  /\ Binary64.lit (8 # 10) == Binary64.of_hardware 0x1.999999999999ap-1%float
  /\ Binary64.div (Binary64.of_nat 3) 5
     == Binary64.of_hardware (3 / 5)%float
  /\ Binary64.int_truediv 1 3 == Binary64.of_hardware (1 / 3)%float
  /\ Synth.weighted 1 1 1 1
     == Binary64.of_hardware
          (1 * 0x1.999999999999ap-2 + 1 * 0x1.3333333333333p-2
           + 1 * 0x1.999999999999ap-3 + 1 * 0x1.999999999999ap-4)%float
  /\ Synth.weighted 1 1 1 1 == 1 - (1 # 9007199254740992).
Proof. vm_compute. repeat split. Qed.

(** For all [a] and [b] from 1 to 16 the quotient [a / b], its product
    with each weight and its sum with each weighted quotient [b / (a + b)]
    are the numbers that the hardware gives. *)
Example arithmetic_agrees_with_hardware :
  forallb
    (fun '(a, b) =>
       let x := Binary64.int_truediv a b in
       let hx := (Binary64.hardware_of_nat a / Binary64.hardware_of_nat b)%float in
       let y := Binary64.int_truediv b (a + b) in
       let hy :=
         (Binary64.hardware_of_nat b / Binary64.hardware_of_nat (a + b))%float in
       Qeq_bool x (Binary64.of_hardware hx)
       && Qeq_bool (Binary64.div (Binary64.of_nat a) 5)
                   (Binary64.of_hardware (Binary64.hardware_of_nat a / 5)%float)
       && forallb
            (fun '(w, hw) =>
               Qeq_bool (Binary64.mul x w) (Binary64.of_hardware (hx * hw)%float)
               && Qeq_bool (Binary64.add (Binary64.mul x w) (Binary64.mul y w))
                           (Binary64.of_hardware (hx * hw + hy * hw)%float))
            [ (Binary64.lit (4 # 10), 0x1.999999999999ap-2%float);
              (Binary64.lit (3 # 10), 0x1.3333333333333p-2%float);
              (Binary64.lit (2 # 10), 0x1.999999999999ap-3%float);
              (Binary64.lit (1 # 10), 0x1.999999999999ap-4%float) ])
    (list_prod (seq 1 16) (seq 1 16))
  = true.
Proof. vm_compute. reflexivity. Qed.

End Binary64Hardware.

(** ** Scoring *)

Module ScoreFacts.

Import Text Synth Binary64Facts.

Local Open Scope Q_scope.

Lemma ratio_of_bounds (a b : nat) :
  (a <= b)%nat -> (0 < b)%nat -> 0 <= ratio_of a b <= 1.
Proof.
  intros Hab Hb. unfold ratio_of, Qle. simpl.
  destruct b as [|b]; [lia|].
  rewrite Z.mul_1_r, Z.mul_1_l.
  replace (Z.pos (Pos.of_nat (S b))) with (Z.of_nat (S b)); [lia|].
  rewrite <- positive_nat_Z, Nat2Pos.id; [reflexivity | discriminate].
Qed.

Lemma py_min_bounds x : 0 <= x -> 0 <= py_min x 1 <= 1.
Proof.
  intros Hx. unfold py_min. destruct (Qle_bool x 1) eqn:E.
  - apply Qle_bool_iff in E. split; assumption.
  - split; [discriminate | apply Qle_refl].
Qed.

Lemma priority_bounds source :
  (1 <= _get_source_priority source <= 5)%nat.
Proof.
  unfold _get_source_priority.
  repeat match goal with
         | |- context [if ?b then _ else _] => destruct b
         end; lia.
Qed.

Lemma quality_bounds r : 0 <= _calculate_quality r <= 1.
Proof.
  unfold _calculate_quality.
  repeat match goal with
         | |- context [if ?b then _ else _] => destruct b
         end; split; vm_compute; discriminate.
Qed.

Lemma relevance_bounds r (kw : gset string) :
  0 <= _calculate_relevance r kw <= 1.
Proof.
  unfold _calculate_relevance.
  set (words := list_to_set _ : gset string).
  destruct (Nat.eqb_spec (size (kw ∪ words)) 0) as [E|E];
    [split; discriminate|].
  apply round_unit. apply ratio_of_bounds; [|lia].
  apply subseteq_size. intros x Hx.
  apply elem_of_intersection in Hx as [Hx _]. apply elem_of_union. now left.
Qed.

(** [n / 5.0] grows with [n]. *)
Lemma fifth_le (a b : nat) :
  (a <= b)%nat ->
  Binary64.div (Binary64.of_nat a) 5 <= Binary64.div (Binary64.of_nat b) 5.
Proof. intros H. apply div_le; [reflexivity|]. now apply of_nat_le. Qed.

Lemma fifth_nonneg (a : nat) : 0 <= Binary64.div (Binary64.of_nat a) 5.
Proof.
  unfold Binary64.div. apply round_nonneg.
  apply Qmult_le_0_compat; [apply of_nat_nonneg | discriminate].
Qed.

Lemma consensus_bounds r raw : 0 <= _calculate_consensus r raw <= 1.
Proof. unfold _calculate_consensus. apply py_min_bounds, fifth_nonneg. Qed.

Lemma authority_bounds source :
  0 <= Binary64.div (Binary64.of_nat (_get_source_priority source)) 5 <= 1.
Proof.
  pose proof (priority_bounds source) as [_ H]. split; [apply fifth_nonneg|].
  eapply Qle_trans; [apply fifth_le, H|]. vm_compute. discriminate.
Qed.

(** The final score grows with each component. *)
Lemma weighted_le r a c q r' a' c' q' :
  r <= r' -> a <= a' -> c <= c' -> q <= q' ->
  weighted r a c q <= weighted r' a' c' q'.
Proof.
  intros Hr Ha Hc Hq. unfold weighted.
  repeat apply add_le; apply mul_le;
    solve [assumption | vm_compute; discriminate].
Qed.

(** The literals of the weights as the doubles they are. *)
Ltac eval_lits :=
  repeat match goal with
         | |- context [Binary64.lit ?x] =>
             let v := eval vm_compute in (Binary64.lit x) in
             change (Binary64.lit x) with v
         end.

(** The rounded weights and the seven roundings of the evaluation move
    the final score by less than [2 ^ -49]. *)
Lemma weighted_error r a c q :
  0 <= r <= 1 -> 0 <= a <= 1 -> 0 <= c <= 1 -> 0 <= q <= 1 ->
  (4 # 10) * r + (3 # 10) * a + (2 # 10) * c + (1 # 10) * q - tolerance
  <= weighted r a c q
  <= (4 # 10) * r + (3 # 10) * a + (2 # 10) * c + (1 # 10) * q + tolerance.
Proof.
  intros Hr Ha Hc Hq. unfold weighted, tolerance. eval_lits.
  match goal with
  | |- context [Binary64.mul r ?w] =>
      pose proof (mul_error r w Hr ltac:(split; discriminate)) as E1
  end.
  match goal with
  | |- context [Binary64.mul a ?w] =>
      pose proof (mul_error a w Ha ltac:(split; discriminate)) as E2
  end.
  match goal with
  | |- context [Binary64.mul c ?w] =>
      pose proof (mul_error c w Hc ltac:(split; discriminate)) as E3
  end.
  match goal with
  | |- context [Binary64.mul q ?w] =>
      pose proof (mul_error q w Hq ltac:(split; discriminate)) as E4
  end.
  match goal with
  | |- context [Binary64.mul r ?w] =>
      pose proof (mul_nonneg r w ltac:(tauto) ltac:(discriminate)) as N1
  end.
  match goal with
  | |- context [Binary64.mul a ?w] =>
      pose proof (mul_nonneg a w ltac:(tauto) ltac:(discriminate)) as N2
  end.
  match goal with
  | |- context [Binary64.mul c ?w] =>
      pose proof (mul_nonneg c w ltac:(tauto) ltac:(discriminate)) as N3
  end.
  match goal with
  | |- context [Binary64.mul q ?w] =>
      pose proof (mul_nonneg q w ltac:(tauto) ltac:(discriminate)) as N4
  end.
  set (p1 := Binary64.mul r _) in *. set (p2 := Binary64.mul a _) in *.
  set (p3 := Binary64.mul c _) in *. set (p4 := Binary64.mul q _) in *.
  pose proof (add_error p1 p2 N1 N2 ltac:(lra)) as E5.
  pose proof (add_nonneg p1 p2 N1 N2) as N5.
  set (s1 := Binary64.add p1 p2) in *.
  pose proof (add_error s1 p3 N5 N3 ltac:(lra)) as E6.
  pose proof (add_nonneg s1 p3 N5 N3) as N6.
  set (s2 := Binary64.add s1 p3) in *.
  pose proof (add_error s2 p4 N6 N4 ltac:(lra)) as E7.
  set (s3 := Binary64.add s2 p4) in *.
  lra.
Qed.

Lemma weighted_unit r a c q :
  0 <= r <= 1 -> 0 <= a <= 1 -> 0 <= c <= 1 -> 0 <= q <= 1 ->
  0 <= weighted r a c q <= 1.
Proof.
  intros Hr Ha Hc Hq. split.
  - eapply Qle_trans; [|apply (weighted_le 0 0 0 0); tauto].
    vm_compute. discriminate.
  - eapply Qle_trans; [apply (weighted_le _ _ _ _ 1 1 1 1); tauto|].
    vm_compute. discriminate.
Qed.

Lemma score_results_well_scored query rs raw :
  Forall well_scored (_score_results query rs raw).
Proof.
  unfold _score_results. apply Forall_forall. intros sr Hin.
  apply list_elem_of_In, in_map_iff in Hin as (r & <- & _).
  unfold well_scored, exact_sum. cbn [scores final_score relevance authority
                                       consensus quality].
  pose proof (relevance_bounds r (list_to_set (split_ws (lower query)))).
  pose proof (authority_bounds (source r)).
  pose proof (consensus_bounds r raw).
  pose proof (quality_bounds r).
  repeat split; try tauto;
    solve [now apply weighted_error | now apply weighted_unit].
Qed.

(** Scoring attaches scores: one scored result per result, in order. *)
Lemma score_results_unscored query rs raw :
  List.map unscored (_score_results query rs raw) = rs.
Proof.
  unfold _score_results. rewrite map_map.
  induction rs as [|r rs IH]; [reflexivity|].
  cbn [List.map]. rewrite IH. now destruct r.
Qed.

End ScoreFacts.

(** ** Ranking *)

Module RankFacts.

Import Synth.

Local Open Scope Q_scope.

Lemma insert_desc_perm x l : Permutation (insert_desc x l) (x :: l).
Proof.
  induction l as [|y l IH]; simpl; [reflexivity|].
  destruct (Qle_bool (final_score y) (final_score x)); [reflexivity|].
  rewrite IH. apply perm_swap.
Qed.

Lemma sorted_desc_perm l : Permutation (sorted_desc l) l.
Proof.
  induction l as [|x l IH]; simpl; [reflexivity|].
  rewrite insert_desc_perm. now constructor.
Qed.

Lemma insert_desc_sorted x l :
  StronglySorted score_ge l -> StronglySorted score_ge (insert_desc x l).
Proof.
  induction 1 as [|y l Hs IH Hall]; simpl.
  - constructor; constructor.
  - destruct (Qle_bool (final_score y) (final_score x)) eqn:E.
    + apply Qle_bool_iff in E. constructor.
      * now constructor.
      * constructor; [exact E|].
        eapply List.Forall_impl; [|exact Hall].
        intros z Hz. unfold score_ge in *. simpl in *. lra.
    + assert (Hlt : final_score x < final_score y).
      { apply Qnot_le_lt. intros Hle. apply Qle_bool_iff in Hle. congruence. }
      constructor; [exact IH|].
      eapply Permutation_Forall; [symmetry; apply insert_desc_perm|].
      constructor; [|exact Hall]. unfold score_ge. lra.
Qed.

Lemma sorted_desc_sorted l : StronglySorted score_ge (sorted_desc l).
Proof.
  induction l as [|x l IH]; simpl; [constructor|].
  now apply insert_desc_sorted.
Qed.

(** The sort is stable: it does not reorder results of equal score. *)
Lemma insert_desc_stable v x l :
  with_score v (insert_desc x l) = with_score v (x :: l).
Proof.
  unfold with_score. induction l as [|y l IH]; [reflexivity|].
  cbn [insert_desc].
  destruct (Qle_bool (final_score y) (final_score x)) eqn:E; [reflexivity|].
  cbn [List.filter] in *. rewrite IH.
  destruct (Qeq_bool (final_score x) v) eqn:Ex; [|reflexivity].
  destruct (Qeq_bool (final_score y) v) eqn:Ey; [|reflexivity].
  apply Qeq_bool_iff in Ex, Ey.
  assert (Hle : final_score y <= final_score x) by (rewrite Ex, Ey; lra).
  apply Qle_bool_iff in Hle. congruence.
Qed.

Lemma sorted_desc_stable v l : with_score v (sorted_desc l) = with_score v l.
Proof.
  induction l as [|x l IH]; [reflexivity|].
  cbn [sorted_desc fold_right]. fold (sorted_desc l).
  rewrite insert_desc_stable. unfold with_score in *. cbn [List.filter].
  now rewrite IH.
Qed.

Lemma in_firstn {A} n (l : list A) y : In y (firstn n l) -> In y l.
Proof.
  intros H. rewrite <- (firstn_skipn n l). apply in_or_app. now left.
Qed.

Lemma firstn_sorted {A} (R : A -> A -> Prop) n (l : list A) :
  StronglySorted R l -> StronglySorted R (firstn n l).
Proof.
  intros H. revert n. induction H as [|x l Hs IH Hall]; intros n.
  - rewrite firstn_nil. constructor.
  - destruct n as [|n]; simpl; [constructor|].
    constructor; [apply IH|].
    apply List.Forall_forall. intros y Hy.
    eapply List.Forall_forall; [exact Hall|].
    eapply in_firstn, Hy.
Qed.

(** [l[:k]] is a prefix of [l]. *)
Lemma slice_to_firstn {A} k (l : list A) :
  exists n, Py.slice_to k l = firstn n l.
Proof.
  unfold Py.slice_to. destruct k as [k|].
  - destruct (0 <=? k)%Z; eauto.
  - exists (List.length l). now rewrite firstn_all.
Qed.

Lemma with_score_firstn v n l :
  prefix (with_score v (firstn n l)) (with_score v l).
Proof.
  exists (with_score v (skipn n l)). unfold with_score.
  now rewrite <- List.filter_app, firstn_skipn.
Qed.

End RankFacts.

(** ** The synthesis pipeline *)

Module FusionFacts.

Import Text Synth.

Section WithParameters.

Variable ratio : string -> string -> Q.
Variable set_iter : list string -> list string.

Local Abbreviation synthesize := (synthesize ratio set_iter).
Local Abbreviation _deduplicate := (_deduplicate ratio).

Lemma results_unfold query raw max_results :
  results (synthesize query raw max_results)
  = Py.slice_to max_results
      (sorted_desc
         (_score_results query
            (_deduplicate (List.concat (Py.values raw))) raw)).
Proof. reflexivity. Qed.

Lemma sum_lengths {A} (ls : list (list A)) :
  Py.sum (List.map (fun r => List.length r) ls)
  = List.length (List.concat ls).
Proof.
  unfold Py.sum. rewrite OrchFacts.sum_from. simpl.
  induction ls as [|l ls IH]; simpl; [reflexivity|].
  rewrite length_app. lia.
Qed.

Lemma length_slice_to {A} k (l : list A) :
  List.length (Py.slice_to k l) = Py.slice_len k (List.length l).
Proof.
  unfold Py.slice_to, Py.slice_len. destruct k as [k|]; [|reflexivity].
  destruct (0 <=? k)%Z; rewrite length_firstn; lia.
Qed.

Lemma slice_len_le k n : Py.slice_len k n <= n.
Proof.
  unfold Py.slice_len. destruct k as [k|]; [|lia].
  destruct (0 <=? k)%Z; lia.
Qed.

Lemma length_results query raw max_results :
  List.length (results (synthesize query raw max_results))
  = Py.slice_len max_results
      (total_unique (synthesize query raw max_results)).
Proof.
  rewrite results_unfold, length_slice_to. simpl. f_equal.
  rewrite (Permutation_length (RankFacts.sorted_desc_perm _)).
  unfold _score_results. apply length_map.
Qed.

(** C6: scoring gives one scored result per result, in order; each has
    its four components in [0,1] and, as final score, 0.4 relevance
    + 0.3 authority + 0.2 consensus + 0.1 quality as the floats evaluate
    it, which is within [2 ^ -49] of that sum in exact arithmetic and lies
    in [0,1].  So has every result that the synthesis returns, and it
    returns as many as max-results leaves of the deduplicated ones. *)
Theorem scores_in_unit_interval query rs raw max_results :
  List.map unscored (_score_results query rs raw) = rs
  /\ Forall well_scored (_score_results query rs raw)
  /\ Forall well_scored (results (synthesize query raw max_results))
  /\ List.length (results (synthesize query raw max_results))
     = Py.slice_len max_results
         (List.length (_deduplicate (List.concat (Py.values raw)))).
Proof.
  split; [apply ScoreFacts.score_results_unscored|].
  split; [apply ScoreFacts.score_results_well_scored|].
  split; [|apply length_results].
  rewrite results_unfold.
  destruct (RankFacts.slice_to_firstn max_results
              (sorted_desc
                 (_score_results query
                    (_deduplicate (List.concat (Py.values raw))) raw)))
    as [n ->].
  apply List.Forall_forall. intros sr Hin.
  apply RankFacts.in_firstn in Hin.
  eapply Permutation_in in Hin; [|apply RankFacts.sorted_desc_perm].
  eapply List.Forall_forall; [apply ScoreFacts.score_results_well_scored|].
  exact Hin.
Qed.

(** C7: the returned results are the first of a list that holds every
    scored result of the deduplication output once, is sorted by
    non-increasing final score, and lists the results of any one score in
    the order that they have in the deduplication output; max-results
    alone decides how many are returned.  So the returned results are
    sorted, and those of one score are the first of the deduplication
    output with that score, in the same order. *)
Theorem ranked_sorted_stable query raw max_results :
  StronglySorted score_ge (results (synthesize query raw max_results))
  /\ (forall v,
        prefix (with_score v (results (synthesize query raw max_results)))
               (with_score v
                  (_score_results query
                     (_deduplicate (List.concat (Py.values raw))) raw)))
  /\ exists rest,
       Permutation (results (synthesize query raw max_results) ++ rest)
                   (_score_results query
                      (_deduplicate (List.concat (Py.values raw))) raw)
       /\ StronglySorted score_ge
            (results (synthesize query raw max_results) ++ rest)
       /\ (forall v,
             with_score v (results (synthesize query raw max_results) ++ rest)
             = with_score v
                 (_score_results query
                    (_deduplicate (List.concat (Py.values raw))) raw))
       /\ List.length (results (synthesize query raw max_results))
          = Py.slice_len max_results
              (List.length (_deduplicate (List.concat (Py.values raw)))).
Proof.
  pose proof (length_results query raw max_results) as Hlen.
  rewrite results_unfold in *.
  destruct (RankFacts.slice_to_firstn max_results
              (sorted_desc
                 (_score_results query
                    (_deduplicate (List.concat (Py.values raw))) raw)))
    as [n Hn].
  rewrite Hn in *. clear Hn.
  split; [|split].
  - apply RankFacts.firstn_sorted, RankFacts.sorted_desc_sorted.
  - intros v.
    rewrite <- (RankFacts.sorted_desc_stable v
                  (_score_results query
                     (_deduplicate (List.concat (Py.values raw))) raw)).
    apply RankFacts.with_score_firstn.
  - exists (skipn n (sorted_desc
                       (_score_results query
                          (_deduplicate (List.concat (Py.values raw))) raw))).
    rewrite firstn_skipn.
    split; [apply RankFacts.sorted_desc_perm|].
    split; [apply RankFacts.sorted_desc_sorted|].
    split; [intros v; apply RankFacts.sorted_desc_stable | exact Hlen].
Qed.

Lemma generate_summary_text query best rest raw :
  _generate_summary set_iter query (best :: rest) raw
  = summary_text (List.length (best :: rest))
      (List.length (List.concat (Py.values raw)))
      (join ", " (set_iter (List.map s_source (firstn 3 (best :: rest)))))
      (take_str 150 (s_snippet best)).
Proof.
  unfold _generate_summary, summary_text. rewrite sum_lengths.
  rewrite !append_assoc. reflexivity.
Qed.

(** C3 (amended): in a summary of a non-empty outcome the first count is
    the number of results that are returned, which is the number of
    deduplicated results cut to max-results, and the second count is
    totalRaw. *)
Theorem summary_counts_returned_results query raw max_results :
  results (synthesize query raw max_results) <> [] ->
  summary (synthesize query raw max_results)
  = summary_text
      (List.length (results (synthesize query raw max_results)))
      (total_raw (synthesize query raw max_results))
      (join ", " (set_iter (List.map s_source
         (firstn 3 (results (synthesize query raw max_results))))))
      (take_str 150
         (match results (synthesize query raw max_results) with
          | best :: _ => s_snippet best
          | [] => ""
          end))
  /\ List.length (results (synthesize query raw max_results))
     = Py.slice_len max_results
         (total_unique (synthesize query raw max_results))
  /\ List.length (results (synthesize query raw max_results))
     <= total_unique (synthesize query raw max_results).
Proof.
  intros Hne. split; [|split].
  - change (summary (synthesize query raw max_results))
      with (_generate_summary set_iter query
              (results (synthesize query raw max_results)) raw).
    change (total_raw (synthesize query raw max_results))
      with (List.length (List.concat (Py.values raw))).
    destruct (results (synthesize query raw max_results))
      as [|best rest]; [congruence|].
    apply generate_summary_text.
  - apply length_results.
  - rewrite length_results. apply slice_len_le.
Qed.

End WithParameters.

End FusionFacts.

(** ** The claims on concrete inputs *)

Module Examples.

Import Text Synth Scenario.

Lemma dedup_step_accept ratio seen unique r :
  seen !! key r = None ->
  existsb (fun e => _is_content_similar ratio (snippet r) (snippet e)) unique
  = false ->
  dedup_step ratio (seen, unique) r = (<[key r := r]> seen, unique ++ [r]).
Proof. intros H1 H2. unfold dedup_step. fold (key r). now rewrite H1, H2. Qed.

Lemma dedup_step_near_duplicate ratio seen unique r :
  seen !! key r = None ->
  existsb (fun e => _is_content_similar ratio (snippet r) (snippet e)) unique
  = true ->
  dedup_step ratio (seen, unique) r = (seen, unique).
Proof. intros H1 H2. unfold dedup_step. fold (key r). now rewrite H1, H2. Qed.

(** C3 (as stated) fails: two distinct pages cut to one result give a
    summary that starts "Found 1 relevant results" while totalUnique is 2,
    whatever difflib and the set order do. *)
Lemma summary_counts_truncated :
  ~ (exists ratio set_iter, summary_counts_unique ratio set_iter).
Proof.
  intros (ratio & set_iter & H).
  specialize (H "page" raw_two_pages (Some 1%Z)). simpl in H.
  destruct H as (sources & snip & H).
  - vm_compute. discriminate.
  - vm_compute in H. discriminate H.
Qed.

(** C4 (as stated) fails: the page first seen at position 0 is replaced by
    a higher-priority report at position 2 and ends up behind the page
    first seen at position 1. *)
Lemma replacement_moves_to_end :
  ~ (exists ratio,
        forall rs, encounter_ordered rs (_deduplicate ratio rs)).
Proof.
  intros (ratio & H).
  specialize (H [page_brave; other_brave; page_wiki] 0 1
                other_brave page_wiki).
  assert (E : _deduplicate ratio [page_brave; other_brave; page_wiki]
              = [other_brave; page_wiki]) by (vm_compute; reflexivity).
  rewrite E in H. vm_compute in H.
  specialize (H (le_n 1) eq_refl eq_refl). inversion H.
Qed.

(** C5 (as stated) fails.  Of three reports of one page the first and the
    third are both dropped for the second; and a report that is a
    near-duplicate of some other page is dropped before the collision rule
    is reached, so that a later, lower-priority report of its page
    survives. *)
Lemma priority_rule_not_pairwise :
  ~ (exists ratio,
        forall rs, pairwise_priority_rule rs (_deduplicate ratio rs))
  /\ (forall ratio,
         (Binary64.lit (8 # 10) < ratio photo_snippet photo_snippet)%Q ->
         _deduplicate ratio [mirror; wiki; ddg] = [mirror; ddg])
  /\ key wiki = key ddg /\ prio ddg < prio wiki.
Proof.
  split; [|split; [|split; [reflexivity | vm_compute; lia]]].
  - intros (ratio & H).
    specialize (H [page_brave; page_wiki; page_searx] 0 2
                  page_brave page_searx).
    assert (E : _deduplicate ratio [page_brave; page_wiki; page_searx]
                = [page_wiki]) by (vm_compute; reflexivity).
    rewrite E in H.
    specialize (H (le_S _ _ (le_n 1)) eq_refl eq_refl eq_refl).
    change (Nat.ltb (prio page_brave) (prio page_searx)) with true in H.
    destruct H as [Hin _].
    apply list_elem_of_singleton in Hin. discriminate Hin.
  - intros ratio Hr.
    assert (Hsim : _is_content_similar ratio photo_snippet photo_snippet
                   = true).
    { unfold _is_content_similar.
      change (String.eqb photo_snippet "" || String.eqb photo_snippet "")
        with false. cbv iota.
      change (lower photo_snippet) with photo_snippet.
      apply negb_true_iff, not_true_is_false. intros Hle.
      apply Qle_bool_iff in Hle. lra. }
    unfold _deduplicate. cbn [fold_left].
    rewrite dedup_step_accept by reflexivity.
    rewrite dedup_step_near_duplicate;
      [|reflexivity | cbn [existsb app]; 
        change (snippet wiki) with photo_snippet;
        change (snippet mirror) with photo_snippet;
        now rewrite Hsim].
    rewrite dedup_step_accept; [reflexivity | reflexivity | reflexivity].
Qed.

Lemma distinct_names (l : list string) :
  bool_decide (NoDup l) = true -> NoDup l.
Proof. apply bool_decide_eq_true_1. Qed.

(** The amended C3 on the encyclopedia scenario. *)
Lemma summary_counts_witness :
  results (synthesize exact_ratio hash_order "photosynthesis" raw_photo
             (Some 15%Z)) <> []
  /\ summary (synthesize exact_ratio hash_order "photosynthesis" raw_photo
                (Some 15%Z))
     = "Found 1 relevant results from 2 total sources. Top information from: Wikipedia. Key finding: photosynthesis is the process by which plants turn light into energy...".
Proof.
  assert (Hne : results (synthesize exact_ratio hash_order "photosynthesis"
                           raw_photo (Some 15%Z)) <> [])
    by (vm_compute; discriminate).
  split; [exact Hne|].
  destruct (FusionFacts.summary_counts_returned_results
              exact_ratio hash_order "photosynthesis" raw_photo
              (Some 15%Z) Hne) as [H _].
  rewrite H. vm_compute. reflexivity.
Defined.

(** The amended C5 on the encyclopedia scenario, the open index first. *)
Lemma collision_witness :
  no_cross_similarity exact_ratio [ddg; wiki]
  /\ "en.wikipedia.org/wiki/photosynthesis" ∈ List.map key [ddg; wiki]
  /\ exists w i,
       nth_error [ddg; wiki] i = Some w
       /\ key w = "en.wikipedia.org/wiki/photosynthesis"
       /\ w ∈ _deduplicate exact_ratio [ddg; wiki]
       /\ (forall r, r ∈ _deduplicate exact_ratio [ddg; wiki] ->
                     key r = "en.wikipedia.org/wiki/photosynthesis" -> r = w)
       /\ (forall j r, nth_error [ddg; wiki] j = Some r ->
                       key r = "en.wikipedia.org/wiki/photosynthesis" ->
                       prio r <= prio w /\ (j < i -> prio r < prio w)).
Proof.
  assert (Hx : no_cross_similarity exact_ratio [ddg; wiki]).
  { intros a b Ha Hb Hk. exfalso. apply Hk.
    apply elem_of_cons in Ha as [->|Ha];
      [|apply list_elem_of_singleton in Ha as ->];
      (apply elem_of_cons in Hb as [->|Hb];
       [|apply list_elem_of_singleton in Hb as ->]); reflexivity. }
  assert (Hu : "en.wikipedia.org/wiki/photosynthesis"
               ∈ List.map key [ddg; wiki]).
  { apply list_elem_of_In. left. reflexivity. }
  split; [exact Hx|]. split; [exact Hu|].
  exact (DedupFacts.collision_keeps_highest_priority
           exact_ratio [ddg; wiki] _ Hx Hu).
Defined.

(** C8 on five engines of which one times out and one raises. *)
Lemma search_all_witness :
  NoDup (Py.keys engines_mixed) /\ ["q1"; "q2"] <> []
  /\ exists m,
       Orch.search_all 10 engines_mixed "q" ["q1"; "q2"] 15 = Some m
       /\ Py.keys m = Py.keys engines_mixed
       /\ forall i name e,
            nth_error engines_mixed i = Some (name, e) ->
            Py.dict_get name m
            = Some (Orch.contribution
                      (e (Orch.assigned ["q1"; "q2"] i) 10 15%Z)).
Proof.
  assert (Hnd : NoDup (Py.keys engines_mixed))
    by (apply distinct_names; vm_compute; reflexivity).
  assert (Hne : ["q1"; "q2"] <> []) by discriminate.
  split; [exact Hnd|]. split; [exact Hne|].
  exact (OrchFacts.search_all_one_entry_per_engine
           10 engines_mixed "q" ["q1"; "q2"] 15%Z Hnd Hne).
Defined.

(** C10 on two engines, the second finishing first. *)
Lemma streaming_witness :
  NoDup (Py.keys raw_photo) /\ ["q1"] <> []
  /\ exists batch streamed,
       Orch.search_all 10 (Orch.fixed_engines raw_photo) "q" ["q1"] 15
       = Some batch
       /\ Orch.search_all_streaming 10 (Orch.fixed_engines raw_photo)
                                    "q" ["q1"] [1; 0] = Some streamed
       /\ batch = raw_photo
       /\ Permutation streamed batch
       /\ Orch.total_results streamed = Orch.total_results batch.
Proof.
  assert (Hnd : NoDup (Py.keys raw_photo))
    by (apply distinct_names; vm_compute; reflexivity).
  assert (Hne : ["q1"] <> []) by discriminate.
  split; [exact Hnd|]. split; [exact Hne|].
  exact (OrchFacts.streaming_matches_batch
           10 raw_photo "q" ["q1"] 15%Z [1; 0] Hnd Hne).
Defined.

Example batch_mixed :
  Orch.search_all 10 engines_mixed "q" ["q1"; "q2"] 15
  = Some [ ("SearXNG", [mirror]); ("DuckDuckGo", []); ("Google", []);
           ("Wikipedia", [wiki]); ("Wikidata", []) ].
Proof. reflexivity. Qed.

Example streaming_second_first :
  Orch.search_all_streaming 10 (Orch.fixed_engines raw_photo) "q" ["q1"] [1; 0]
  = Some [ ("DuckDuckGo", [ddg]); ("Wikipedia", [wiki]) ].
Proof. reflexivity. Qed.

(** An empty sub-query list stops the batch call before any engine runs. *)
Example batch_without_sub_queries :
  Orch.search_all 10 engines_mixed "q" [] 15 = None.
Proof. reflexivity. Qed.

(** The scenario of the spec: one page reported by the encyclopedia and,
    with a trailing slash, by an open index. *)
Example encyclopedia_beats_open_index ratio :
  _deduplicate ratio [wiki; ddg] = [wiki]
  /\ _deduplicate ratio [ddg; wiki] = [wiki].
Proof. split; vm_compute; reflexivity. Qed.

Example normalize_photosynthesis :
  _normalize_url "https://en.wikipedia.org/wiki/Photosynthesis/"
  = "en.wikipedia.org/wiki/photosynthesis"
  /\ _normalize_url "https://www.Example.com/Path#top" = "example.com/path"
  /\ _normalize_url "https://www.Example.com/Path/#top" = "example.com/path/".
Proof. repeat split; reflexivity. Qed.

(** Every engine answers with nothing. *)
Example nothing_found ratio set_iter query max_results :
  synthesize ratio set_iter query
    [ ("SearXNG", []); ("DuckDuckGo", []); ("Google", []);
      ("Wikipedia", []); ("Wikidata", []) ] max_results
  = {| results := [];
       summary := "No results found.";
       engine_stats := [ ("SearXNG", 0); ("DuckDuckGo", 0); ("Google", 0);
                         ("Wikipedia", 0); ("Wikidata", 0) ];
       total_raw := 0;
       total_unique := 0 |}.
Proof.
  assert (E : forall k, Py.slice_to k (@nil ScoredResult) = []).
  { intros [k|]; [|reflexivity]. unfold Py.slice_to.
    destruct (0 <=? k)%Z; apply firstn_nil. }
  unfold synthesize.
  change (_deduplicate ratio _) with (@nil SearchResult).
  change (_score_results query [] _) with (@nil ScoredResult).
  change (sorted_desc []) with (@nil ScoredResult).
  rewrite E. reflexivity.
Qed.

(** The general branch of the planner fills the list up to the cap. *)
Example general_query_capped :
  Query.breakdown_query "quantum computing hardware vendors"
  = [ "quantum computing hardware vendors"; "quantum computing";
      "hardware vendors"; "quantum overview"; "computing overview" ].
Proof. vm_compute. reflexivity. Qed.

End Examples.

(** * Further properties of the embedded code *)

(** ** [_deduplicate], step by step *)

Module DedupSteps.

Import Text Synth.

Lemma list_remove_length {A} `{EqDecision A} (x : A) (l : list A) :
  x ∈ l -> S (List.length (Py.list_remove x l)) = List.length l.
Proof.
  induction l as [|y l IH]; simpl; intros Hin; [inversion Hin|].
  destruct (decide (x = y)) as [->|Hne]; [reflexivity|].
  apply elem_of_cons in Hin as [->|Hin]; [congruence|].
  simpl. now rewrite IH.
Qed.

Section WithRatio.

Variable ratio : string -> string -> Q.

Local Abbreviation dedup_step := (dedup_step ratio).
Local Abbreviation _deduplicate := (_deduplicate ratio).
Local Abbreviation similar := (_is_content_similar ratio).

Lemma dedup_step_length st r :
  dedup_inv st ->
  List.length (snd st) <= List.length (snd (dedup_step st r))
  /\ snd (dedup_step st r) <> [].
Proof.
  destruct st as [seen unique]. intros Hinv. simpl.
  unfold Synth.dedup_step.
  destruct (seen !! _) as [existing|] eqn:Hlook.
  - pose proof (DedupFacts.dedup_remove_present _ _ _ Hinv Hlook) as Hin.
    simpl in Hin. pose proof (list_remove_length _ _ Hin) as Hlen.
    destruct (Nat.ltb _ _); simpl.
    + rewrite length_app. simpl. split; [lia|].
      intros E. apply (f_equal (@List.length _)) in E.
      rewrite length_app in E. simpl in E. lia.
    + split; [lia|]. intros ->. inversion Hin.
  - destruct (existsb _ unique) eqn:Hex; simpl.
    + split; [lia|]. intros ->. discriminate.
    + rewrite length_app. simpl. split; [lia|].
      intros E. apply (f_equal (@List.length _)) in E.
      rewrite length_app in E. simpl in E. lia.
Qed.

Lemma fold_dedup_length rs st :
  dedup_inv st ->
  List.length (snd st) <= List.length (snd (fold_left dedup_step rs st)).
Proof.
  revert st. induction rs as [|r rs IH]; intros st Hinv; simpl; [lia|].
  etransitivity; [apply (dedup_step_length st r Hinv)|].
  apply IH, DedupFacts.dedup_step_inv, Hinv.
Qed.

Lemma deduplicate_snoc pre r :
  _deduplicate (pre ++ [r])
  = snd (dedup_step (fold_left dedup_step pre (∅, [])) r).
Proof. unfold Synth._deduplicate. now rewrite fold_left_app. Qed.

(** The keys of [seen_urls] are the canonical URLs of [unique]. *)
Lemma seen_lookup_none pre u :
  u ∉ List.map key (_deduplicate pre) ->
  fst (fold_left dedup_step pre (∅, [])) !! u = None.
Proof.
  intros Hu. destruct (DedupFacts.deduplicate_inv ratio pre) as (Ha & _ & _).
  destruct (fst (fold_left dedup_step pre (∅, [])) !! u) as [e|] eqn:E;
    [|reflexivity].
  exfalso. apply Hu. destruct (Ha _ _ E) as [Hin <-].
  apply list_elem_of_In, in_map, list_elem_of_In, Hin.
Qed.

Lemma deduplicate_empty_iff (rs : list SearchResult) :
  _deduplicate rs = [] <-> rs = [].
Proof.
  split; [|now intros ->].
  destruct rs as [|r rs]; [reflexivity|]. intros E. exfalso.
  unfold Synth._deduplicate in E. cbn [fold_left] in E.
  pose proof (dedup_step_length (∅, []) r DedupFacts.dedup_inv_init)
    as [_ Hne].
  pose proof (fold_dedup_length rs (dedup_step (∅, []) r)
                (DedupFacts.dedup_step_inv ratio _ r DedupFacts.dedup_inv_init))
    as Hlen.
  rewrite E in Hlen.
  destruct (snd (dedup_step (∅, []) r)); [congruence|].
  cbn [List.length] in Hlen. lia.
Qed.

(** The output holds one result per canonical URL and is never longer
    than the input. *)
Theorem deduplicate_distinct_urls (rs : list SearchResult) :
  NoDup (List.map key (_deduplicate rs))
  /\ List.length (_deduplicate rs) <= List.length rs.
Proof.
  split.
  - apply (DedupFacts.deduplicate_inv ratio rs).
  - apply sublist_length, (DedupFacts.fold_dedup_sublist ratio rs (∅, []) []).
    constructor.
Qed.

(** The output is empty only for an empty input, and processing further
    results never shrinks it. *)
Theorem deduplicate_never_shrinks (pre rest : list SearchResult) :
  (_deduplicate pre = [] <-> pre = [])
  /\ List.length (_deduplicate pre) <= List.length (_deduplicate (pre ++ rest)).
Proof.
  split; [apply deduplicate_empty_iff|].
  unfold Synth._deduplicate. rewrite fold_left_app.
  apply fold_dedup_length, DedupFacts.deduplicate_inv.
Qed.

(** A result whose canonical URL is not held yet is appended, unless its
    snippet is a near-duplicate of an accepted one; its source priority
    plays no part. *)
Theorem deduplicate_new_url (pre : list SearchResult) (r : SearchResult) :
  key r ∉ List.map key (_deduplicate pre) ->
  _deduplicate (pre ++ [r])
  = if existsb (fun e => similar (snippet r) (snippet e)) (_deduplicate pre)
    then _deduplicate pre
    else _deduplicate pre ++ [r].
Proof.
  intros Hk. rewrite deduplicate_snoc.
  pose proof (seen_lookup_none pre (key r) Hk) as Hnone.
  unfold Synth._deduplicate.
  destruct (fold_left dedup_step pre (∅, [])) as [seen unique].
  simpl in *. unfold Synth.dedup_step. fold (key r). rewrite Hnone.
  now destruct (existsb _ unique).
Qed.

(** A result whose canonical URL is held replaces the held result exactly
    when its source priority is strictly higher; it then goes to the end of
    the list, and its snippet is not compared with anything. *)
Theorem deduplicate_held_url (pre : list SearchResult) (r e : SearchResult) :
  e ∈ _deduplicate pre -> key e = key r ->
  _deduplicate (pre ++ [r])
  = if Nat.ltb (prio e) (prio r)
    then Py.list_remove e (_deduplicate pre) ++ [r]
    else _deduplicate pre.
Proof.
  intros Hin Hk. rewrite deduplicate_snoc.
  destruct (DedupFacts.deduplicate_inv ratio pre) as (_ & Hb & _).
  unfold Synth._deduplicate in *.
  destruct (fold_left dedup_step pre (∅, [])) as [seen unique].
  simpl in *. apply Hb in Hin. unfold Synth.dedup_step.
  fold (key r). rewrite <- Hk, Hin. fold (prio e) (prio r).
  now destruct (Nat.ltb _ _).
Qed.

End WithRatio.

End DedupSteps.

(** ** [synthesize] and the scores *)

Module FusionMore.

Import Text Synth.

Local Open Scope Q_scope.

(** The engines whose list holds the canonical URL are counted one by one. *)
Lemma consensus_count (P : SearchResult -> bool) (ls : list (list SearchResult)) a :
  fold_left (fun count l => if existsb P l then S count else count) ls a
  = (a + List.length (List.filter (existsb P) ls))%nat.
Proof.
  revert a. induction ls as [|l ls IH]; intros a; simpl; [lia|].
  rewrite IH. destruct (existsb P l); simpl; lia.
Qed.

Lemma py_min_le_l x y : py_min x y <= x.
Proof.
  unfold py_min. destruct (Qle_bool x y) eqn:E; [apply Qle_refl|].
  apply Qlt_le_weak, Qnot_le_lt. intros H. apply Qle_bool_iff in H. congruence.
Qed.

Lemma py_min_le_r x y : py_min x y <= y.
Proof.
  unfold py_min. destruct (Qle_bool x y) eqn:E; [|apply Qle_refl].
  now apply Qle_bool_iff.
Qed.

Lemma py_min_glb x y z : z <= x -> z <= y -> z <= py_min x y.
Proof. intros Hx Hy. unfold py_min. now destruct (Qle_bool x y). Qed.

(** Below five engines the float [n / 5.0] is within [2 ^ -53] of the
    fraction; from five engines on the fraction is at least 1. *)
Lemma fifth_near_fraction (n : nat) :
  py_min (Binary64.div (Binary64.of_nat n) 5) 1
  <= ratio_of n 5 + (1 # 9007199254740992).
Proof.
  destruct (Nat.lt_ge_cases n 5) as [H|H].
  - eapply Qle_trans; [apply py_min_le_l|].
    do 5 (destruct n as [|n]; [vm_compute; discriminate|]). lia.
  - eapply Qle_trans; [apply py_min_le_r|].
    assert (H1 : 1 <= ratio_of n 5).
    { unfold ratio_of, Qle. simpl. lia. }
    lra.
Qed.

(** Consensus counts engines: it is at most [n / 5.0] for [n] engines
    asked, however often one engine repeats a URL; in exact arithmetic
    that is a fifth per engine, up to the rounding of the quotient. *)
Theorem consensus_at_most_engines (r : SearchResult)
  (raw : list (string * list SearchResult)) :
  _calculate_consensus r raw
  <= Binary64.div (Binary64.of_nat (List.length raw)) 5
  /\ _calculate_consensus r raw
     <= ratio_of (List.length raw) 5 + (1 # 9007199254740992).
Proof.
  unfold _calculate_consensus. rewrite consensus_count. cbn [Nat.add].
  pose proof (List.filter_length_le
                (existsb (fun r0 => String.eqb (_normalize_url (url r0))
                                               (_normalize_url (url r))))
                (Py.values raw)) as Hle.
  unfold Py.values in Hle. rewrite length_map in Hle.
  fold (Py.values raw) in Hle.
  set (count := List.length (List.filter _ (Py.values raw))) in *.
  assert (Hmin : py_min (Binary64.div (Binary64.of_nat count) 5) 1
                 <= py_min (Binary64.div
                              (Binary64.of_nat (List.length raw)) 5) 1).
  { apply py_min_glb; [|apply py_min_le_r].
    eapply Qle_trans; [apply py_min_le_l|]. now apply ScoreFacts.fifth_le. }
  split.
  - eapply Qle_trans; [apply py_min_le_l|]. now apply ScoreFacts.fifth_le.
  - eapply Qle_trans; [exact Hmin|]. apply fifth_near_fraction.
Qed.

(** [1 / 5.0] is not below a fifth. *)
Lemma fifth_of_one : 1 # 5 <= Binary64.div (Binary64.of_nat 1) 5.
Proof. vm_compute. discriminate. Qed.

(** A result that some engine reported has consensus at least [1 / 5.0]. *)
Lemma consensus_of_reported r raw :
  In r (List.concat (Py.values raw)) ->
  Binary64.div (Binary64.of_nat 1) 5 <= _calculate_consensus r raw.
Proof.
  intros Hin. apply in_concat in Hin as (l & Hl & Hr).
  unfold _calculate_consensus. rewrite consensus_count. simpl.
  set (P := fun r0 => String.eqb (_normalize_url (url r0)) (_normalize_url (url r))).
  assert (Hpos : (1 <= List.length (List.filter (existsb P) (Py.values raw)))%nat).
  { assert (Hf : In l (List.filter (existsb P) (Py.values raw))).
    { apply List.filter_In. split; [exact Hl|].
      apply existsb_exists. exists r. split; [exact Hr|].
      unfold P. apply String.eqb_refl. }
    destruct (List.filter (existsb P) (Py.values raw)); [inversion Hf|].
    simpl. lia. }
  apply py_min_glb; [|vm_compute; discriminate].
  now apply ScoreFacts.fifth_le.
Qed.

(** A longer snippet never has a lower quality score. *)
Lemma quality_monotone (a b : SearchResult) :
  (String.length (snippet a) <= String.length (snippet b))%nat ->
  _calculate_quality a <= _calculate_quality b.
Proof.
  intros H. unfold _calculate_quality.
  destruct (Nat.eqb_spec (String.length (snippet a)) 0),
           (Nat.eqb_spec (String.length (snippet b)) 0),
           (Nat.ltb_spec (String.length (snippet a)) 50),
           (Nat.ltb_spec (String.length (snippet b)) 50),
           (Nat.ltb_spec (String.length (snippet a)) 150),
           (Nat.ltb_spec (String.length (snippet b)) 150);
    try lia; discriminate.
Qed.

Section WithParameters.

Variable ratio : string -> string -> Q.
Variable set_iter : list string -> list string.

Local Abbreviation synthesize := (synthesize ratio set_iter).
Local Abbreviation _deduplicate := (_deduplicate ratio).

(** Every returned result is the scored form of a deduplication survivor. *)
Lemma returned_from_survivor query raw max_results sr :
  In sr (results (synthesize query raw max_results)) ->
  In sr (_score_results query
           (_deduplicate (List.concat (Py.values raw))) raw).
Proof.
  rewrite FusionFacts.results_unfold. intros Hin.
  destruct (RankFacts.slice_to_firstn max_results
              (sorted_desc
                 (_score_results query
                    (_deduplicate (List.concat (Py.values raw))) raw)))
    as [n Hn].
  rewrite Hn in Hin. apply RankFacts.in_firstn in Hin.
  eapply Permutation_in; [apply RankFacts.sorted_desc_perm | exact Hin].
Qed.

Lemma sublist_firstn {A} n (l : list A) : sublist (firstn n l) l.
Proof.
  rewrite <- (firstn_skipn n l) at 2. apply sublist_inserts_r. reflexivity.
Qed.

(** No two returned results have the same canonical URL. *)
Theorem returned_urls_distinct query raw max_results :
  NoDup (List.map (fun sr => _normalize_url (s_url sr))
           (results (synthesize query raw max_results))).
Proof.
  rewrite FusionFacts.results_unfold.
  destruct (RankFacts.slice_to_firstn max_results
              (sorted_desc
                 (_score_results query
                    (_deduplicate (List.concat (Py.values raw))) raw)))
    as [n ->].
  eapply sublist_NoDup; [|apply sublist_map, sublist_firstn].
  apply NoDup_ListNoDup.
  eapply Permutation_NoDup;
    [symmetry; apply Permutation_map, RankFacts.sorted_desc_perm|].
  apply NoDup_ListNoDup.
  unfold _score_results. rewrite map_map. simpl.
  apply (DedupFacts.deduplicate_inv ratio).
Qed.

(** Every returned result was reported by at least one engine and comes
    from a source of priority at least 1: its consensus is at least 0.2,
    its authority at least 0.2 and its final score at least 0.1. *)
Theorem returned_score_floor query raw max_results :
  Forall (fun sr => 1 # 5 <= consensus (scores sr)
                    /\ 1 # 5 <= authority (scores sr)
                    /\ 1 # 10 <= final_score sr)
         (results (synthesize query raw max_results)).
Proof.
  apply List.Forall_forall. intros sr Hin.
  apply returned_from_survivor in Hin.
  unfold _score_results in Hin. apply in_map_iff in Hin as (r & <- & Hr).
  cbn [scores final_score consensus authority relevance quality].
  assert (Hc : Binary64.div (Binary64.of_nat 1) 5
               <= _calculate_consensus r raw).
  { apply consensus_of_reported.
    apply list_elem_of_In.
    eapply sublist_subseteq;
      [apply (DedupFacts.fold_dedup_sublist ratio _ (∅, []) []); constructor|].
    simpl. apply list_elem_of_In, Hr. }
  assert (Ha : Binary64.div (Binary64.of_nat 1) 5
               <= Binary64.div
                    (Binary64.of_nat (_get_source_priority (source r))) 5).
  { pose proof (ScoreFacts.priority_bounds (source r)).
    apply ScoreFacts.fifth_le. lia. }
  pose proof (ScoreFacts.relevance_bounds r
                (list_to_set (split_ws (lower query)))) as [Hr0 _].
  pose proof (ScoreFacts.quality_bounds r) as [Hq0 _].
  pose proof fifth_of_one as H5.
  split; [|split].
  - eapply Qle_trans; [exact H5 | exact Hc].
  - eapply Qle_trans; [exact H5 | exact Ha].
  - eapply Qle_trans;
      [|apply (ScoreFacts.weighted_le 0 (Binary64.div (Binary64.of_nat 1) 5)
                 (Binary64.div (Binary64.of_nat 1) 5) 0);
        assumption].
    vm_compute. discriminate.
Qed.

(** The outcome does not depend on the letter case of the query. *)
Theorem synthesize_ignores_query_case query raw max_results :
  synthesize (lower query) raw max_results = synthesize query raw max_results.
Proof.
  unfold Synth.synthesize, _generate_summary, _score_results.
  now rewrite lower_idem.
Qed.

Lemma summary_none_iff query raw max_results :
  summary (synthesize query raw max_results) = "No results found."
  <-> results (synthesize query raw max_results) = [].
Proof.
  change (summary (synthesize query raw max_results))
    with (_generate_summary set_iter query
            (results (synthesize query raw max_results)) raw).
  destruct (results (synthesize query raw max_results)) as [|best rest].
  - split; reflexivity.
  - rewrite FusionFacts.generate_summary_text. unfold summary_text.
    split; intros H; discriminate H.
Qed.

(** The summary is "No results found." exactly when no result is returned,
    which is when nothing survives the max-results slice; nothing survives
    deduplication exactly when the engines delivered nothing. *)
Theorem no_results_summary query raw max_results :
  (summary (synthesize query raw max_results) = "No results found."
   <-> results (synthesize query raw max_results) = [])
  /\ (results (synthesize query raw max_results) = []
      <-> Py.slice_len max_results
            (total_unique (synthesize query raw max_results)) = 0%nat)
  /\ (total_unique (synthesize query raw max_results) = 0%nat
      <-> total_raw (synthesize query raw max_results) = 0%nat).
Proof.
  split; [|split].
  - apply summary_none_iff.
  - rewrite <- FusionFacts.length_results.
    destruct (results (synthesize query raw max_results)); simpl;
      split; intros H; (reflexivity || discriminate H).
  - simpl.
    pose proof (DedupSteps.deduplicate_empty_iff ratio
                  (List.concat (Py.values raw))) as Hempty.
    split; intros H.
    + apply length_zero_iff_nil, Hempty in H. now rewrite H.
    + apply length_zero_iff_nil in H. apply length_zero_iff_nil, Hempty, H.
Qed.

(** The engine statistics list the engines of the raw results in their
    order, add up to totalRaw, and bound totalUnique; a non-negative
    max-results bounds the number of returned results. *)
Theorem engine_stats_account query raw max_results :
  Py.keys (engine_stats (synthesize query raw max_results)) = Py.keys raw
  /\ Py.sum (Py.values (engine_stats (synthesize query raw max_results)))
     = total_raw (synthesize query raw max_results)
  /\ (total_unique (synthesize query raw max_results)
      <= total_raw (synthesize query raw max_results))%nat
  /\ (forall k, max_results = Some k -> (0 <= k)%Z ->
        (Z.of_nat (List.length (results (synthesize query raw max_results)))
         <= k)%Z).
Proof.
  split; [|split; [|split]].
  - simpl. unfold Py.keys. rewrite map_map. apply map_ext. now intros [e rs].
  - simpl. rewrite <- FusionFacts.sum_lengths. f_equal.
    unfold Py.values. rewrite !map_map. apply map_ext. now intros [e rs].
  - simpl. apply sublist_length,
      (DedupFacts.fold_dedup_sublist ratio _ (∅, []) []). constructor.
  - intros k -> Hk. rewrite FusionFacts.length_results. unfold Py.slice_len.
    destruct (Z.leb_spec 0 k); lia.
Qed.

(** When max-results does not cut, every deduplication survivor is
    returned. *)
Theorem uncut_returns_all_survivors query raw max_results :
  Py.slice_len max_results (total_unique (synthesize query raw max_results))
  = total_unique (synthesize query raw max_results) ->
  Permutation (results (synthesize query raw max_results))
              (_score_results query
                 (_deduplicate (List.concat (Py.values raw))) raw).
Proof.
  intros Hcut. rewrite <- FusionFacts.length_results in Hcut.
  rewrite FusionFacts.results_unfold in *.
  destruct (RankFacts.slice_to_firstn max_results
              (sorted_desc
                 (_score_results query
                    (_deduplicate (List.concat (Py.values raw))) raw)))
    as [n Hn].
  rewrite Hn in *. simpl in Hcut.
  assert (Hlen : List.length
                   (sorted_desc
                      (_score_results query
                         (_deduplicate (List.concat (Py.values raw))) raw))
                 = List.length (_deduplicate (List.concat (Py.values raw)))).
  { rewrite (Permutation_length (RankFacts.sorted_desc_perm _)).
    unfold _score_results. apply length_map. }
  rewrite length_firstn in Hcut.
  rewrite firstn_all2 by lia. apply RankFacts.sorted_desc_perm.
Qed.

End WithParameters.

End FusionMore.

(** ** More on canonical URLs *)

Module NormalizeMore.

Import Text Synth.

Lemma contains_strip_prefix c p s r :
  strip_prefix p s = Some r -> contains_char c s = false ->
  contains_char c r = false.
Proof.
  revert s. induction p as [|a p IH]; intros s; simpl.
  - now intros [= ->].
  - destruct s as [|b s]; [discriminate|].
    destruct (Ascii.eqb a b); [|discriminate].
    intros H Hc. simpl in Hc. apply orb_false_iff in Hc as [_ Hc]. eauto.
Qed.

Lemma contains_rstrip c cls s :
  contains_char c s = false -> contains_char c (rstrip cls s) = false.
Proof.
  induction s as [|d s IH]; simpl; [reflexivity|].
  intros H. apply orb_false_iff in H as [H1 H2]. specialize (IH H2).
  destruct (rstrip cls s) as [|e r'].
  - destruct (cls d); simpl; [reflexivity | now rewrite H1].
  - change (contains_char c (String d (String e r')))
      with (Ascii.eqb c d || contains_char c (String e r')).
    now rewrite H1, IH.
Qed.

Lemma contains_sub_scheme c u :
  contains_char c u = false -> contains_char c (sub_scheme u) = false.
Proof.
  intros H. unfold sub_scheme.
  destruct (strip_prefix "https://" u) eqn:E1;
    [eapply contains_strip_prefix; eauto|].
  destruct (strip_prefix "http://" u) eqn:E2;
    [eapply contains_strip_prefix; eauto | exact H].
Qed.

Lemma contains_sub_www c u :
  contains_char c u = false -> contains_char c (sub_www u) = false.
Proof.
  intros H. unfold sub_www.
  destruct (strip_prefix "www." u) eqn:E;
    [eapply contains_strip_prefix; eauto | exact H].
Qed.

Lemma last_char_lower s :
  last_char (lower s) = option_map lower_char (last_char s).
Proof.
  induction s as [|c s IH]; [reflexivity|].
  cbn [lower last_char]. rewrite IH. now destruct (last_char s).
Qed.

Lemma lower_char_slash c :
  Ascii.eqb "/"%char (lower_char c) = Ascii.eqb "/"%char c.
Proof. destruct c as [[] [] [] [] [] [] [] []]; reflexivity. Qed.

(** A URL without query string and fragment has a canonical form without
    a trailing slash. *)
Theorem normalize_no_trailing_slash (u : string) :
  contains_char "?"%char u = false -> contains_char "#"%char u = false ->
  ends_with "/"%char (_normalize_url u) = false.
Proof.
  intros Hq Hh. unfold _normalize_url.
  set (v := rstrip is_slash (sub_www (sub_scheme u))).
  assert (Hvq : contains_char "?"%char v = false)
    by (apply contains_rstrip, contains_sub_www, contains_sub_scheme, Hq).
  assert (Hvh : contains_char "#"%char v = false)
    by (apply contains_rstrip, contains_sub_www, contains_sub_scheme, Hh).
  rewrite (before_absent "?"%char v Hvq), (before_absent "#"%char v Hvh).
  unfold ends_with. rewrite last_char_lower.
  destruct (last_char v) as [d|] eqn:E; [|reflexivity].
  cbn [option_map]. rewrite lower_char_slash.
  apply last_char_rstrip in E. unfold is_slash in E.
  now rewrite Ascii.eqb_sym.
Qed.

(** The plain, the http, the https and the www forms of an address have
    one canonical form, when the address itself does not begin with a
    scheme or with "www.". *)
Theorem normalize_scheme_www_insensitive (s : string) :
  starts_with "https://" s = false -> starts_with "http://" s = false ->
  starts_with "www." s = false ->
  _normalize_url ("http://" +:+ s) = _normalize_url s
  /\ _normalize_url ("https://" +:+ s) = _normalize_url s
  /\ _normalize_url ("www." +:+ s) = _normalize_url s
  /\ _normalize_url ("http://www." +:+ s) = _normalize_url s
  /\ _normalize_url ("https://www." +:+ s) = _normalize_url s.
Proof.
  unfold starts_with. intros H1 H2 H3.
  assert (Es : sub_scheme s = s).
  { unfold sub_scheme. destruct (strip_prefix "https://" s); [discriminate|].
    now destruct (strip_prefix "http://" s). }
  assert (Ew : sub_www s = s).
  { unfold sub_www. now destruct (strip_prefix "www." s). }
  assert (Ews : sub_www ("www." +:+ s) = s) by reflexivity.
  unfold _normalize_url.
  change (sub_scheme ("http://" +:+ s)) with s.
  change (sub_scheme ("https://" +:+ s)) with s.
  change (sub_scheme ("www." +:+ s)) with ("www." +:+ s).
  change (sub_scheme ("http://www." +:+ s)) with ("www." +:+ s).
  change (sub_scheme ("https://www." +:+ s)) with ("www." +:+ s).
  rewrite Es, Ews, Ew. repeat split; reflexivity.
Qed.

End NormalizeMore.

(** ** More on the planner's text functions *)

Module QueryMore.

Import Text TextMore Query.

Lemma is_word_lower c : is_word (lower_char c) = is_word c.
Proof. destruct c as [[] [] [] [] [] [] [] []]; reflexivity. Qed.

Lemma is_space_lower c : is_space (lower_char c) = is_space c.
Proof. destruct c as [[] [] [] [] [] [] [] []]; reflexivity. Qed.

Lemma append_nil_r (s : string) : s +:+ "" = s.
Proof.
  induction s as [|c s IH]; [reflexivity|].
  change (String c (s +:+ "") = String c s). now rewrite IH.
Qed.

Lemma lower_app (a b : string) : lower (a +:+ b) = lower a +:+ lower b.
Proof.
  induction a as [|c a IH]; [reflexivity|].
  change (String (lower_char c) (lower (a +:+ b))
          = String (lower_char c) (lower a +:+ lower b)).
  now rewrite IH.
Qed.

Lemma all_chars_app cls (a b : string) :
  all_chars cls (a +:+ b) = all_chars cls a && all_chars cls b.
Proof.
  induction a as [|c a IH]; [reflexivity|].
  change (cls c && all_chars cls (a +:+ b)
          = cls c && all_chars cls a && all_chars cls b).
  rewrite IH. now rewrite andb_assoc.
Qed.

Lemma append_not_empty (a : string) c : String.eqb (a +:+ String c "") "" = false.
Proof. now destruct a. Qed.

(** *** Intent detection and letter case *)

Lemma existsb_same {A} (f g : A -> bool) (l : list A) :
  (forall x, f x = g x) -> existsb f l = existsb g l.
Proof. intros H. induction l as [|x l IH]; simpl; [reflexivity|]. now rewrite H, IH. Qed.

Lemma match_lit_ci_lower p prev s :
  match_lit_ci p (option_map lower_char prev) (lower s)
  = option_map lower_pos (match_lit_ci p prev s).
Proof.
  revert prev s. induction p as [|a p IH]; intros prev s; [reflexivity|].
  destruct s as [|b s]; [reflexivity|].
  cbn [match_lit_ci lower]. rewrite lower_char_idem.
  destruct (Ascii.eqb (lower_char a) (lower_char b)); [|reflexivity].
  apply (IH (Some b) s).
Qed.

Lemma boundary_lower prev s :
  boundary (option_map lower_char prev) (lower s) = boundary prev s.
Proof.
  unfold boundary. f_equal.
  - destruct prev; [apply is_word_lower | reflexivity].
  - destruct s; [reflexivity | apply is_word_lower].
Qed.

Lemma word_at_lower prev s w :
  word_at (option_map lower_char prev) (lower s) w = word_at prev s w.
Proof.
  unfold word_at. rewrite boundary_lower, match_lit_ci_lower.
  destruct (match_lit_ci w prev s) as [[prev' rest]|]; [|reflexivity].
  simpl. now rewrite boundary_lower.
Qed.

Lemma search_words_lower alts prev s :
  search_words alts (option_map lower_char prev) (lower s)
  = search_words alts prev s.
Proof.
  revert prev. induction s as [|c s IH]; intros prev.
  - cbn [search_words lower]. f_equal. apply existsb_same. intros w.
    apply (word_at_lower prev "" w).
  - cbn [search_words lower]. f_equal.
    + apply existsb_same. intros w. apply (word_at_lower prev (String c s) w).
    + apply (IH (Some c)).
Qed.

(** On text of code points below 256, which is what a [string] holds,
    the intent of a query does not depend on its letter case. *)
Theorem detect_intent_ignores_case (query : string) :
  _detect_intent (lower query) = _detect_intent query.
Proof.
  unfold _detect_intent. induction entity_patterns as [|[intent alts] pats IH];
    [reflexivity|].
  cbn [first_intent]. rewrite IH.
  change (search_words alts None (lower query))
    with (search_words alts (option_map lower_char None) (lower query)).
  now rewrite search_words_lower.
Qed.

(** *** Keywords *)

Lemma words_go_tokens cur s :
  all_chars is_word cur = true ->
  Forall (fun w => is_token w = true) (words_go cur s).
Proof.
  revert cur. induction s as [|c s IH]; intros cur Hcur; cbn [words_go].
  - destruct (String.eqb cur "") eqn:E; constructor; [|constructor].
    unfold is_token. now rewrite E, Hcur.
  - destruct (is_word c) eqn:Ec.
    + apply IH. rewrite all_chars_app, Hcur. simpl. now rewrite Ec.
    + destruct (String.eqb cur "") eqn:E; [now apply IH|].
      constructor; [|now apply IH].
      unfold is_token. now rewrite E, Hcur.
Qed.

Lemma words_go_lower cur s :
  lower cur = cur -> lower s = s ->
  Forall (fun w => lower w = w) (words_go cur s).
Proof.
  revert cur. induction s as [|c s IH]; intros cur Hcur Hs; cbn [words_go].
  - destruct (String.eqb cur ""); constructor; [exact Hcur | constructor].
  - cbn [lower] in Hs. injection Hs as Hc Hs.
    destruct (is_word c).
    + apply IH; [|exact Hs]. rewrite lower_app, Hcur. simpl. now rewrite Hc.
    + destruct (String.eqb cur ""); [now apply IH|].
      constructor; [exact Hcur | now apply IH].
Qed.

Lemma keywords_checked (query : string) :
  Forall (fun k => lower k = k
                   /\ all_chars is_word k = true
                   /\ 2 < String.length k
                   /\ in_list k stop_words = false)
         (_extract_keywords query).
Proof.
  unfold _extract_keywords. apply List.Forall_forall. intros k Hk.
  apply List.filter_In in Hk as [Hin Hf].
  apply andb_true_iff in Hf as [Hstop Hlen].
  pose proof (words_go_tokens "" (lower query) eq_refl) as Htok.
  pose proof (words_go_lower "" (lower query) eq_refl (lower_idem query)) as Hlow.
  rewrite List.Forall_forall in Htok, Hlow.
  specialize (Htok k Hin). specialize (Hlow k Hin).
  unfold is_token in Htok. apply andb_true_iff in Htok as [_ Hw].
  repeat split; auto.
  - now apply Nat.ltb_lt.
  - now apply negb_true_iff.
Qed.

(** Every keyword is a run of word characters in lower case, longer than
    two characters, and not a stop word. *)
Theorem keywords_wellformed (query : string) :
  Forall (fun k => lower k = k
                   /\ all_chars is_word k = true
                   /\ 2 < String.length k
                   /\ in_list k stop_words = false)
         (_extract_keywords query).
Proof. apply keywords_checked. Qed.

Lemma words_go_app_token cur w s :
  all_chars is_word w = true ->
  words_go cur (w +:+ s) = words_go (cur +:+ w) s.
Proof.
  revert cur. induction w as [|c w IH]; intros cur Hw.
  - now rewrite append_nil_r.
  - simpl in Hw. apply andb_true_iff in Hw as [Hc Hw].
    change (String c w +:+ s) with (String c (w +:+ s)).
    cbn [words_go]. rewrite Hc, (IH _ Hw).
    now rewrite append_assoc.
Qed.

Lemma findall_join (ks : list string) :
  Forall (fun w => is_token w = true) ks ->
  findall_words (join " " ks) = ks.
Proof.
  unfold findall_words. induction 1 as [|k ks Hk Hks IH]; [reflexivity|].
  unfold is_token in Hk. apply andb_true_iff in Hk as [Hne Hw].
  apply negb_true_iff in Hne.
  destruct ks as [|k2 ks].
  - cbn [join]. rewrite <- (append_nil_r k) at 1.
    rewrite (words_go_app_token "" k "" Hw). cbn [words_go].
    change ("" +:+ k) with k. now rewrite Hne.
  - change (join " " (k :: k2 :: ks)) with (k +:+ " " +:+ join " " (k2 :: ks)).
    rewrite (words_go_app_token "" k _ Hw).
    change ("" +:+ k) with k.
    change (" " +:+ join " " (k2 :: ks))
      with (String " "%char (join " " (k2 :: ks))).
    cbn [words_go]. change (is_word " "%char) with false. cbv iota.
    rewrite Hne. f_equal. exact IH.
Qed.

Lemma lower_join (ks : list string) :
  Forall (fun w => lower w = w) ks -> lower (join " " ks) = join " " ks.
Proof.
  induction 1 as [|k ks Hk Hks IH]; [reflexivity|].
  destruct ks as [|k2 ks]; [exact Hk|].
  change (join " " (k :: k2 :: ks)) with (k +:+ " " +:+ join " " (k2 :: ks)).
  rewrite !lower_app, Hk, IH. reflexivity.
Qed.

Lemma filter_all {A} (f : A -> bool) (l : list A) :
  Forall (fun x => f x = true) l -> List.filter f l = l.
Proof. induction 1 as [|x l Hx Hl IH]; simpl; [reflexivity|]. now rewrite Hx, IH. Qed.

(** Joining the keywords of a query with spaces, as the planner does for
    its keyword sub-queries, gives a text with exactly those keywords. *)
Theorem keywords_round_trip (query : string) :
  _extract_keywords (join " " (_extract_keywords query))
  = _extract_keywords query.
Proof.
  pose proof (keywords_checked query) as Hwf.
  set (ks := _extract_keywords query) in *.
  unfold _extract_keywords at 1.
  rewrite lower_join, findall_join.
  - apply filter_all. eapply List.Forall_impl; [|exact Hwf].
    intros k (_ & _ & Hlen & Hstop). cbv beta.
    rewrite Hstop. cbn [negb andb]. now apply Nat.ltb_lt.
  - eapply List.Forall_impl; [|exact Hwf].
    intros k (_ & Hw & Hlen & _). unfold is_token. rewrite Hw.
    destruct k; [simpl in Hlen; lia | reflexivity].
  - eapply List.Forall_impl; [|exact Hwf]. now intros k (Hl & _).
Qed.

End QueryMore.

(** ** Trimming, the main term and two branches of the planner *)

Module PlannerMore.

Import Text TextMore Query.

Lemma length_app_str (a b : string) :
  String.length (a +:+ b) = String.length a + String.length b.
Proof.
  induction a as [|c a IH]; [reflexivity|].
  change (S (String.length (a +:+ b)) = S (String.length a) + String.length b).
  now rewrite IH.
Qed.

Lemma lstrip_head cls s c :
  head_char (lstrip cls s) = Some c -> cls c = false.
Proof.
  induction s as [|d s IH]; simpl; [discriminate|].
  destruct (cls d) eqn:E; [exact IH|]. simpl. now intros [= <-].
Qed.

Lemma lstrip_fixed cls s :
  match head_char s with Some c => cls c = false | None => True end ->
  lstrip cls s = s.
Proof. destruct s as [|d s]; simpl; [reflexivity|]. now intros ->. Qed.

Lemma rstrip_head cls s c :
  head_char (rstrip cls s) = Some c -> head_char s = Some c.
Proof.
  destruct s as [|d s]; simpl; [discriminate|].
  destruct (rstrip cls s); [destruct (cls d)|]; simpl; congruence.
Qed.

Lemma rstrip_idem cls s : rstrip cls (rstrip cls s) = rstrip cls s.
Proof.
  apply rstrip_no_last.
  destruct (last_char (rstrip cls s)) as [d|] eqn:E; [|exact I].
  now apply last_char_rstrip in E.
Qed.

Lemma strip_idem s : strip (strip s) = strip s.
Proof.
  unfold strip.
  rewrite (lstrip_fixed is_space (rstrip is_space (lstrip is_space s))).
  - apply rstrip_idem.
  - destruct (head_char (rstrip is_space (lstrip is_space s))) as [c|] eqn:E;
      [|exact I].
    apply rstrip_head in E. now apply lstrip_head in E.
Qed.

Lemma length_lstrip cls s : String.length (lstrip cls s) <= String.length s.
Proof.
  induction s as [|d s IH]; simpl; [lia|].
  destruct (cls d); simpl; lia.
Qed.

Lemma contains_lstrip c cls s :
  contains_char c s = false -> contains_char c (lstrip cls s) = false.
Proof.
  induction s as [|d s IH]; simpl; [reflexivity|].
  intros H. destruct (cls d); [|exact H].
  apply orb_false_iff in H as [_ H]. now apply IH.
Qed.

Lemma contains_strip c s :
  contains_char c s = false -> contains_char c (strip s) = false.
Proof.
  intros H. unfold strip.
  now apply NormalizeMore.contains_rstrip, contains_lstrip.
Qed.

Lemma lazy_group_no_newline s g :
  lazy_group s = Some g -> contains_char newline g = false.
Proof.
  revert g. induction s as [|c s IH]; intros g; cbn [lazy_group];
    [discriminate|].
  destruct (Ascii.eqb c newline) eqn:Ec; [discriminate|].
  rewrite Ascii.eqb_sym in Ec.
  destruct (at_stop s).
  - intros [= <-]. cbn [contains_char]. now rewrite Ec.
  - destruct (lazy_group s) as [g'|]; [|discriminate].
    intros [= <-]. cbn [contains_char]. now rewrite Ec, (IH g' eq_refl).
Qed.

Lemma optional_then_group_no_newline alts s g :
  optional_then_group alts s = Some g -> contains_char newline g = false.
Proof.
  induction alts as [|a alts IH]; cbn [optional_then_group].
  - apply lazy_group_no_newline.
  - destruct (match_lit_ci a None s) as [[pv s']|]; [|exact IH].
    destruct (lazy_group s') as [g'|] eqn:E; [|exact IH].
    intros [= <-]. now apply lazy_group_no_newline in E.
Qed.

Lemma search_group_no_newline lead alts s g :
  search_group (term_at lead alts) s = Some g ->
  contains_char newline g = false.
Proof.
  induction s as [|c s IH]; cbn [search_group].
  - destruct (term_at lead alts "") as [g'|] eqn:E; [|discriminate].
    intros [= <-]. unfold term_at in E.
    destruct (match_lit_ci lead None "") as [[pv r]|]; [|discriminate].
    now apply optional_then_group_no_newline in E.
  - destruct (term_at lead alts (String c s)) as [g'|] eqn:E; [|exact IH].
    intros [= <-]. unfold term_at in E.
    destruct (match_lit_ci lead None (String c s)) as [[pv r]|];
      [|discriminate].
    now apply optional_then_group_no_newline in E.
Qed.

Lemma main_term_clean (query : string) :
  strip (_extract_main_term query) = _extract_main_term query
  /\ contains_char newline (_extract_main_term query) = false.
Proof.
  unfold _extract_main_term.
  induction main_term_patterns as [|[lead alts] pats IH]; [now split|].
  cbn [first_group].
  destruct (search_group (term_at lead alts) query) as [g|] eqn:E; [|exact IH].
  split; [apply strip_idem|].
  apply contains_strip. eapply search_group_no_newline, E.
Qed.

Lemma first_group_none pats query :
  (forall lead alts, In (lead, alts) pats ->
                     search_group (term_at lead alts) query = None) ->
  first_group pats query = "".
Proof.
  induction pats as [|[lead alts] pats IH]; intros H; [reflexivity|].
  cbn [first_group]. rewrite (H lead alts) by now left.
  apply IH. intros l a Hin. apply H. now right.
Qed.

(** A term without question mark and line break is taken whole by the
    lazy group, at the end of the text as well as in front of a question
    mark. *)
Lemma lazy_group_whole t :
  t <> "" ->
  contains_char "?"%char t = false -> contains_char newline t = false ->
  lazy_group t = Some t.
Proof.
  induction t as [|c r IH]; intros Hne Hq Hn; [congruence|].
  cbn [contains_char] in Hq, Hn.
  apply orb_false_iff in Hq as [Hcq Hq], Hn as [Hcn Hn].
  cbn [lazy_group]. rewrite Ascii.eqb_sym, Hcn.
  destruct r as [|d r']; [reflexivity|].
  cbn [contains_char] in Hq, Hn.
  apply orb_false_iff in Hq as [Hdq Hq'], Hn as [Hdn Hn'].
  assert (Hstop : at_stop (String d r') = false).
  { cbn [at_stop at_dollar]. rewrite Ascii.eqb_sym, Hdq.
    destruct r'; [now rewrite Ascii.eqb_sym, Hdn | reflexivity]. }
  rewrite Hstop, IH; [reflexivity | discriminate | |];
    cbn [contains_char]; apply orb_false_iff; now split.
Qed.

Lemma lazy_group_question t rest :
  t <> "" ->
  contains_char "?"%char t = false -> contains_char newline t = false ->
  lazy_group (t +:+ String "?"%char rest) = Some t.
Proof.
  induction t as [|c r IH]; intros Hne Hq Hn; [congruence|].
  cbn [contains_char] in Hq, Hn.
  apply orb_false_iff in Hq as [Hcq Hq], Hn as [Hcn Hn].
  change (String c r +:+ String "?"%char rest)
    with (String c (r +:+ String "?"%char rest)).
  cbn [lazy_group]. rewrite Ascii.eqb_sym, Hcn.
  destruct r as [|d r'].
  - change ("" +:+ String "?"%char rest) with (String "?"%char rest).
    reflexivity.
  - cbn [contains_char] in Hq, Hn.
    apply orb_false_iff in Hq as [Hdq Hq'], Hn as [Hdn Hn'].
    change (String d r' +:+ String "?"%char rest)
      with (String d (r' +:+ String "?"%char rest)) in *.
    assert (Hstop : at_stop (String d (r' +:+ String "?"%char rest)) = false).
    { cbn [at_stop at_dollar]. rewrite Ascii.eqb_sym, Hdq.
      destruct r'; reflexivity. }
    rewrite Hstop, IH; [reflexivity | discriminate | |];
      cbn [contains_char]; apply orb_false_iff; now split.
Qed.

(** A literal that does not match a text does not match the text
    continued by a character foreign to the literal. *)
Lemma match_lit_ci_continued a prev t c rest :
  match_lit_ci a prev t = None ->
  contains_char (lower_char c) (lower a) = false ->
  match_lit_ci a prev (t +:+ String c rest) = None.
Proof.
  revert prev t. induction a as [|x a IH]; intros prev t Hm Hc;
    [discriminate Hm|].
  cbn [lower contains_char] in Hc. apply orb_false_iff in Hc as [Hx Hc].
  destruct t as [|d t].
  - change ("" +:+ String c rest) with (String c rest).
    cbn [match_lit_ci]. now rewrite Ascii.eqb_sym, Hx.
  - change (String d t +:+ String c rest) with (String d (t +:+ String c rest)).
    cbn [match_lit_ci] in *.
    destruct (Ascii.eqb (lower_char x) (lower_char d)); [|reflexivity].
    now apply IH.
Qed.

Lemma optional_then_group_skip alts s :
  Forall (fun a => match_lit_ci a None s = None) alts ->
  optional_then_group alts s = lazy_group s.
Proof.
  induction 1 as [|a alts Ha _ IH]; [reflexivity|].
  cbn [optional_then_group]. now rewrite Ha.
Qed.

(** The main term is trimmed and holds no line break; it is empty when no
    pattern matches; and it is the term itself for "what is <term>" and
    for "What is <term>?...", when the term is trimmed, holds no question
    mark and no line break, and does not begin with an article. *)
Theorem main_term_trimmed (query : string) :
  strip (_extract_main_term query) = _extract_main_term query
  /\ contains_char newline (_extract_main_term query) = false
  /\ ((forall lead alts,
         In (lead, alts) main_term_patterns ->
         search_group (term_at lead alts) query = None) ->
      _extract_main_term query = "")
  /\ (forall term rest,
        term <> "" -> strip term = term ->
        contains_char "?"%char term = false ->
        contains_char newline term = false ->
        Forall (fun a => match_lit_ci a None term = None)
               ["a "; "an "; "the "] ->
        (query = "what is " +:+ term
         \/ query = "What is " +:+ term +:+ String "?"%char rest) ->
        _extract_main_term query = term).
Proof.
  split; [apply main_term_clean|]. split; [apply main_term_clean|].
  split; [apply first_group_none|].
  intros term rest Hne Hstrip Hq Hn Harts Hquery.
  unfold _extract_main_term, main_term_patterns. cbn [first_group].
  assert (Hterm : search_group (term_at "what is " ["a "; "an "; "the "]) query
                  = Some term).
  { destruct Hquery as [->| ->].
    - change (search_group (term_at "what is " ["a "; "an "; "the "])
                           ("what is " +:+ term))
        with (match optional_then_group ["a "; "an "; "the "] term with
              | Some g => Some g
              | None => search_group (term_at "what is " ["a "; "an "; "the "])
                                     ("hat is " +:+ term)
              end).
      rewrite (optional_then_group_skip _ _ Harts).
      now rewrite lazy_group_whole.
    - change (search_group (term_at "what is " ["a "; "an "; "the "])
                           ("What is " +:+ term +:+ String "?"%char rest))
        with (match optional_then_group ["a "; "an "; "the "]
                      (term +:+ String "?"%char rest) with
              | Some g => Some g
              | None => search_group (term_at "what is " ["a "; "an "; "the "])
                          ("hat is " +:+ term +:+ String "?"%char rest)
              end).
      assert (Harts' : Forall (fun a => match_lit_ci a None
                                          (term +:+ String "?"%char rest)
                                        = None)
                              ["a "; "an "; "the "]).
      { inversion Harts as [|a1 l1 H1 Hr1]; subst.
        inversion Hr1 as [|a2 l2 H2 Hr2]; subst.
        inversion Hr2 as [|a3 l3 H3 Hr3]; subst.
        repeat constructor; apply match_lit_ci_continued;
          solve [assumption | reflexivity]. }
      rewrite (optional_then_group_skip _ _ Harts').
      now rewrite lazy_group_question. }
  rewrite Hterm. exact Hstrip.
Qed.

(** *** Branches of the planner *)

Lemma detect_intent_names query :
  In (_detect_intent query)
     ["person"; "location"; "time"; "definition"; "how"; "why"; "general"].
Proof.
  unfold _detect_intent, entity_patterns. cbn [first_intent].
  repeat match goal with
         | |- context [if ?b then _ else _] => destruct b
         end; simpl; tauto.
Qed.

Lemma breakdown_of_single query :
  candidates query = [query] -> breakdown_query query = [query].
Proof.
  intros H. unfold breakdown_query. rewrite H. cbn [fold_left].
  unfold unique_step. rewrite bool_decide_eq_true_2 by set_solver.
  reflexivity.
Qed.

(** A query of definition intent in which none of the "what is", "define"
    and "explain" patterns finds a term, and a query of another intent than
    definition and how-to with at most two keywords, are planned as the
    query alone. *)
Theorem plan_is_query_alone (query : string) :
  (_detect_intent (lower query) = "definition"
   /\ _extract_main_term query = "")
  \/ (_detect_intent (lower query) <> "definition"
      /\ _detect_intent (lower query) <> "how"
      /\ List.length (_extract_keywords query) <= 2) ->
  breakdown_query query = [query].
Proof.
  intros H. apply breakdown_of_single. unfold candidates.
  destruct H as [[Hi Ht]|(Hd & Hh & Hk)].
  - rewrite Hi, Ht. reflexivity.
  - pose proof (detect_intent_names (lower query)) as Hn.
    destruct (String.eqb_spec (_detect_intent (lower query)) "definition");
      [congruence|].
    destruct (String.eqb_spec (_detect_intent (lower query)) "how");
      [congruence|].
    destruct (String.eqb_spec (_detect_intent (lower query)) "factual")
      as [E|_].
    { rewrite E in Hn. simpl in Hn. intuition discriminate. }
    destruct (Nat.ltb_spec 2 (List.length (_extract_keywords query)));
      [lia | reflexivity].
Qed.

Lemma lstrip_app cls (a b : string) :
  lstrip cls (a +:+ b)
  = if all_chars cls a then lstrip cls b else lstrip cls a +:+ b.
Proof.
  induction a as [|c a IH]; [reflexivity|].
  change (String c a +:+ b) with (String c (a +:+ b)).
  cbn [lstrip all_chars]. destruct (cls c); [exact IH | reflexivity].
Qed.

Lemma lstrip_all cls a : all_chars cls a = true -> lstrip cls a = "".
Proof.
  induction a as [|c a IH]; [reflexivity|]. cbn [all_chars lstrip].
  destruct (cls c); [exact IH | discriminate].
Qed.

Lemma last_char_app (a : string) c (b : string) :
  last_char (a +:+ String c b) = last_char (String c b).
Proof.
  induction a as [|d a IH]; [reflexivity|].
  change (String d a +:+ String c b) with (String d (a +:+ String c b)).
  cbn [last_char]. rewrite IH. cbn [last_char]. now destruct (last_char b).
Qed.

(** The key of [query ++ " " ++ tail] for a tail that neither begins nor
    ends with a blank: the tail alone after a blank query, else the query
    without its leading blanks followed by the suffix. *)
Lemma norm_with_suffix (query tail : string) c d :
  is_space (lower_char c) = false ->
  last_char (lower (String c tail)) = Some d -> is_space d = false ->
  norm (query +:+ String " "%char (String c tail))
  = if all_chars is_space (lower query)
    then lower (String c tail)
    else lstrip is_space (lower query)
         +:+ String " "%char (lower (String c tail)).
Proof.
  intros Hc Hlast Hd. unfold norm, strip. rewrite QueryMore.lower_app.
  change (lower (String " "%char (String c tail)))
    with (String " "%char (lower (String c tail))).
  rewrite lstrip_app.
  destruct (all_chars is_space (lower query)).
  - cbn [lstrip]. change (is_space " "%char) with true. cbv iota.
    cbn [lower lstrip]. rewrite Hc.
    apply rstrip_no_last. cbn [lower] in Hlast. now rewrite Hlast.
  - apply rstrip_no_last.
    rewrite (last_char_app _ " "%char).
    cbn [last_char]. now rewrite Hlast.
Qed.

Lemma unique_step_fresh l (seen : gset string) q :
  norm q ∉ seen -> List.length l < 5 ->
  unique_step (l, seen) q = (l ++ [q], {[ norm q ]} ∪ seen).
Proof.
  intros Hq Hl. unfold unique_step. fold (norm q).
  rewrite bool_decide_eq_true_2 by exact Hq.
  apply Nat.ltb_lt in Hl. now rewrite Hl.
Qed.

(** A key is not among the keys seen so far, given that it differs from
    each of them. *)
Ltac fresh_key :=
  let Hin := fresh "Hin" in
  intros Hin;
  repeat (apply elem_of_union in Hin as [Hin|Hin]);
  first [ apply elem_of_singleton in Hin; congruence
        | apply elem_of_empty in Hin; exact Hin ].

(** A query of how-to intent is planned as the query followed by its
    tutorial, guide and step-by-step variants, in this order. *)
Theorem how_query_plan (query : string) :
  _detect_intent (lower query) = "how" ->
  breakdown_query query
  = [ query; query +:+ " tutorial"; query +:+ " guide";
      query +:+ " step by step" ].
Proof.
  intros Hi.
  assert (Hc : candidates query
               = [ query; query +:+ " tutorial"; query +:+ " guide";
                   query +:+ " step by step" ]).
  { unfold candidates. rewrite Hi. reflexivity. }
  pose proof (norm_with_suffix query "utorial" "t" "l"
                eq_refl eq_refl eq_refl) as H1.
  pose proof (norm_with_suffix query "uide" "g" "e"
                eq_refl eq_refl eq_refl) as H2.
  pose proof (norm_with_suffix query "tep by step" "s" "p"
                eq_refl eq_refl eq_refl) as H3.
  change (String " "%char (String "t"%char "utorial")) with " tutorial" in H1.
  change (String " "%char (String "g"%char "uide")) with " guide" in H2.
  change (String " "%char (String "s"%char "tep by step"))
    with " step by step" in H3.
  assert (H0 : String.length (norm query)
               <= String.length (lstrip is_space (lower query))).
  { unfold norm, strip. apply length_rstrip. }
  assert (Hblank : all_chars is_space (lower query) = true ->
                   norm query = "").
  { intros Hb. unfold norm, strip. now rewrite (lstrip_all _ _ Hb). }
  assert (L1 : String.length (norm (query +:+ " tutorial"))
               = if all_chars is_space (lower query) then 8
                 else String.length (lstrip is_space (lower query)) + 9).
  { rewrite H1. destruct (all_chars is_space (lower query)); [reflexivity|].
    now rewrite length_app_str. }
  assert (L2 : String.length (norm (query +:+ " guide"))
               = if all_chars is_space (lower query) then 5
                 else String.length (lstrip is_space (lower query)) + 6).
  { rewrite H2. destruct (all_chars is_space (lower query)); [reflexivity|].
    now rewrite length_app_str. }
  assert (L3 : String.length (norm (query +:+ " step by step"))
               = if all_chars is_space (lower query) then 12
                 else String.length (lstrip is_space (lower query)) + 13).
  { rewrite H3. destruct (all_chars is_space (lower query)); [reflexivity|].
    now rewrite length_app_str. }
  assert (L0 : String.length (norm query)
               <= if all_chars is_space (lower query) then 0
                  else String.length (lstrip is_space (lower query))).
  { destruct (all_chars is_space (lower query)) eqn:E; [|exact H0].
    now rewrite Hblank. }
  clear H1 H2 H3 H0 Hblank.
  assert (D10 : norm (query +:+ " tutorial") <> norm query).
  { intros E. rewrite E in L1.
    destruct (all_chars is_space (lower query)); lia. }
  assert (D20 : norm (query +:+ " guide") <> norm query).
  { intros E. rewrite E in L2.
    destruct (all_chars is_space (lower query)); lia. }
  assert (D21 : norm (query +:+ " guide") <> norm (query +:+ " tutorial")).
  { intros E. rewrite E in L2.
    destruct (all_chars is_space (lower query)); lia. }
  assert (D30 : norm (query +:+ " step by step") <> norm query).
  { intros E. rewrite E in L3.
    destruct (all_chars is_space (lower query)); lia. }
  assert (D31 : norm (query +:+ " step by step")
                <> norm (query +:+ " tutorial")).
  { intros E. rewrite E in L3.
    destruct (all_chars is_space (lower query)); lia. }
  assert (D32 : norm (query +:+ " step by step")
                <> norm (query +:+ " guide")).
  { intros E. rewrite E in L3.
    destruct (all_chars is_space (lower query)); lia. }
  unfold breakdown_query. rewrite Hc. cbn [fold_left].
  rewrite (unique_step_fresh [] ∅ query) by (fresh_key || (simpl; lia)).
  rewrite unique_step_fresh by (fresh_key || (simpl; lia)).
  rewrite unique_step_fresh by (fresh_key || (simpl; lia)).
  rewrite unique_step_fresh by (fresh_key || (simpl; lia)).
  reflexivity.
Qed.

End PlannerMore.

(** ** More on the orchestrator *)

Module OrchMore.

Import Orch.

Section Modes.

Variable max_results_per_engine : nat.

Local Abbreviation run := (run max_results_per_engine).
Local Abbreviation entry_of := (entry_of max_results_per_engine).

(** With the tasks settling in registration order the streaming loop
    yields them in that order. *)
Lemma drain_in_order fuel (ts : list task) :
  List.length ts <= fuel ->
  drain max_results_per_engine fuel [] ts = List.map entry_of ts.
Proof.
  revert ts. induction fuel as [|fuel IH]; intros ts Hlen.
  - destruct ts; [reflexivity | simpl in Hlen; lia].
  - destruct ts as [|t ts]; [reflexivity|].
    assert (Hts : List.length ts <= fuel) by (simpl in Hlen; lia).
    cbn [drain hd tl]. rewrite Nat.Div0.mod_0_l.
    cbn [nth_error firstn skipn app List.map]. fold (entry_of t).
    change (skipn 0 ts) with ts. now rewrite (IH ts Hts).
Qed.

Lemma create_tasks_empty timeout (es : list (string * engine)) tasks :
  create_tasks timeout [] es tasks
  = match es with [] => Some tasks | _ :: _ => None end.
Proof. destruct es as [|[name e] es]; reflexivity. Qed.

(** Whatever the engines do, the streaming call yields one pair per
    registered engine: the entries of the batch call made with a timeout
    of 8 seconds, rearranged; in registration order when the tasks settle
    in that order. *)
Theorem streaming_is_batch_with_timeout_8
  (engines : list (string * engine)) query sub_queries sched :
  NoDup (Py.keys engines) -> sub_queries <> [] ->
  exists batch streamed,
    search_all max_results_per_engine engines query sub_queries 8 = Some batch
    /\ search_all_streaming max_results_per_engine engines query sub_queries
                            sched = Some streamed
    /\ Permutation streamed batch
    /\ Permutation (Py.keys streamed) (Py.keys engines)
    /\ search_all_streaming max_results_per_engine engines query sub_queries []
       = Some batch.
Proof.
  intros Hnd Hne.
  exists (List.map entry_of (tasks_of 8 sub_queries engines 0)).
  eexists. split; [now apply OrchFacts.search_all_closed_form|].
  unfold search_all_streaming.
  rewrite OrchFacts.create_tasks_spec by exact Hne. simpl.
  split; [reflexivity|].
  pose proof (OrchFacts.drain_permutation max_results_per_engine
                (List.length (tasks_of 8 sub_queries engines 0)) sched
                (tasks_of 8 sub_queries engines 0) (le_n _)) as Hp.
  split; [exact Hp|]. split.
  - unfold Py.keys at 1. rewrite (Permutation_map fst Hp).
    fold (Py.keys (List.map entry_of (tasks_of 8 sub_queries engines 0))).
    now rewrite OrchFacts.keys_entries, OrchFacts.tasks_of_names.
  - now rewrite drain_in_order.
Qed.

(** Without sub-queries both modes fail as soon as one engine is
    registered (the modulo by the empty list's length), and return
    nothing for no engine. *)
Theorem no_sub_queries (engines : list (string * engine)) query timeout sched :
  (engines <> [] ->
   search_all max_results_per_engine engines query [] timeout = None
   /\ search_all_streaming max_results_per_engine engines query [] sched = None)
  /\ search_all max_results_per_engine [] query [] timeout = Some []
  /\ search_all_streaming max_results_per_engine [] query [] sched = Some [].
Proof.
  split; [|split; reflexivity].
  intros Hne. unfold search_all, search_all_streaming.
  rewrite !create_tasks_empty. now destruct engines.
Qed.

(** With at most as many sub-queries as engines, every sub-query is
    searched: the sub-query at position [j] goes to the engine registered
    at position [j], the original query to the first engine. *)
Theorem every_sub_query_searched
  (engines : list (string * engine)) timeout sub_queries j q :
  List.length sub_queries <= List.length engines ->
  nth_error sub_queries j = Some q ->
  exists tasks t,
    create_tasks timeout sub_queries engines [] = Some tasks
    /\ nth_error tasks j = Some t
    /\ task_query t = q
    /\ nth_error (Py.keys engines) j = Some (task_name t).
Proof.
  intros Hlen Hj.
  assert (Hjlt : j < List.length sub_queries)
    by (apply nth_error_Some; congruence).
  assert (Hne : sub_queries <> []) by (intros ->; simpl in Hjlt; lia).
  destruct (nth_error engines j) as [[name e]|] eqn:He;
    [|apply nth_error_None in He; lia].
  eexists. eexists. split; [now apply OrchFacts.create_tasks_spec|].
  simpl. split; [apply (OrchFacts.tasks_of_nth _ _ _ 0 j name e He)|].
  simpl. split.
  - unfold assigned. rewrite Nat.mod_small by exact Hjlt.
    now apply nth_error_nth.
  - unfold Py.keys. now rewrite nth_error_map, He.
Qed.

End Modes.

End OrchMore.

(** ** The request handlers *)

Module ApiFacts.

Import Text Query Orch Synth Api.

Lemma breakdown_query_head query :
  exists rest, breakdown_query query = query :: rest /\ List.length rest <= 4.
Proof.
  rewrite PlannerFacts.breakdown_query_unfold.
  destruct (PlannerFacts.candidates_head query) as [cs Hc]. rewrite Hc.
  cbn [fold_left].
  set (st1 := unique_step ([], ∅) query).
  assert (Hst1 : fst st1 = [query]).
  { unfold st1, unique_step. simpl.
    rewrite bool_decide_eq_true_2 by set_solver. reflexivity. }
  pose proof (PlannerFacts.fold_unique_inv cs st1
                (PlannerFacts.unique_step_inv _ query PlannerFacts.loop_inv_init))
    as (_ & _ & Hlen).
  destruct (PlannerFacts.fold_unique_extends cs st1) as [ext Hext].
  rewrite Hst1 in Hext. rewrite firstn_all2 by exact Hlen.
  rewrite Hext in *. exists ext. split; [reflexivity|].
  simpl in Hlen. lia.
Qed.






Section Handlers.

Variable ratio : string -> string -> Q.
Variable set_iter : list string -> list string.
Variable max_results_per_engine : nat.
Variable engines : list (string * engine).
Variable search_timeout : Z.

Hypothesis engines_distinct : NoDup (Py.keys engines).



End Handlers.

End ApiFacts.

(** ** The LLM-assisted planner *)

Module LlmFacts.

Import Text TextMore Llm.

Lemma split_on_nonempty sep s : split_on sep s <> [].
Proof.
  destruct s as [|c s]; simpl; [discriminate|].
  destruct (Ascii.eqb c sep); [discriminate|].
  destruct (split_on sep s); discriminate.
Qed.

Lemma split_on_no_sep sep s :
  Forall (fun l => contains_char sep l = false) (split_on sep s).
Proof.
  induction s as [|c s IH]; simpl; [repeat constructor|].
  destruct (Ascii.eqb c sep) eqn:E; [constructor; [reflexivity | exact IH]|].
  destruct (split_on sep s) as [|h t].
  - repeat constructor. simpl. now rewrite Ascii.eqb_sym, E.
  - inversion IH as [|? ? Hh Ht]; subst. constructor; [|exact Ht].
    cbn [contains_char]. now rewrite Ascii.eqb_sym, E, Hh.
Qed.

(** What [lstrip] leaves ends as the text does. *)
Lemma last_char_lstrip cls s :
  lstrip cls s <> "" -> last_char (lstrip cls s) = last_char s.
Proof.
  induction s as [|c s IH]; [reflexivity|]. cbn [lstrip].
  destruct (cls c); [|reflexivity].
  intros Hne. rewrite (IH Hne). cbn [last_char].
  destruct (last_char s) eqn:E; [reflexivity|].
  destruct s; [now elim Hne|].
  cbn [last_char] in E. destruct (last_char s); discriminate.
Qed.

Lemma cleaned_is_clean line :
  contains_char Query.newline line = false ->
  lstrip is_marker (strip line) <> "" ->
  clean_entry (lstrip is_marker (strip line)).
Proof.
  intros Hnl Hne. split; [exact Hne|]. split; [|split].
  - intros c. apply PlannerMore.lstrip_head.
  - apply PlannerMore.contains_lstrip, PlannerMore.contains_strip, Hnl.
  - intros d. rewrite (last_char_lstrip _ _ Hne). unfold strip.
    apply last_char_rstrip.
Qed.

Lemma parse_step_shape query rest line :
  contains_char Query.newline line = false ->
  List.length rest <= 4 -> Forall clean_entry rest ->
  exists rest',
    parse_step (query :: rest) line = query :: rest'
    /\ List.length rest' <= 4 /\ Forall clean_entry rest'.
Proof.
  intros Hnl Hlen Hclean. unfold parse_step.
  destruct (String.eqb_spec (lstrip is_marker (strip line)) "") as [E|E];
    [exists rest; auto|].
  destruct (Nat.ltb_spec (List.length (query :: rest)) 5) as [Hlt|Hge];
    [|exists rest; auto].
  exists (rest ++ [lstrip is_marker (strip line)]).
  split; [reflexivity|]. split.
  - rewrite length_app. simpl in *. lia.
  - apply Forall_app. split; [exact Hclean|].
    constructor; [|constructor]. now apply cleaned_is_clean.
Qed.

Lemma parse_lines_shape query lines rest :
  Forall (fun l => contains_char Query.newline l = false) lines ->
  List.length rest <= 4 -> Forall clean_entry rest ->
  exists rest',
    fold_left parse_step lines (query :: rest) = query :: rest'
    /\ List.length rest' <= 4 /\ Forall clean_entry rest'.
Proof.
  intros Hlines. revert rest.
  induction Hlines as [|line lines Hl Hls IH]; intros rest Hlen Hclean.
  - exists rest. auto.
  - cbn [fold_left].
    destruct (parse_step_shape query rest line Hl Hlen Hclean)
      as (r1 & -> & Hlen1 & Hclean1).
    now apply IH.
Qed.

(** With or without the LLM, the plan starts with the query and has at
    most five entries; an entry taken from the LLM's response is not
    empty, has no leading enumeration mark, no line break and no trailing
    blank. *)
Theorem llm_plan_shape :
  (forall use_ollama outcome query,
      exists rest,
        breakdown_query use_ollama outcome query = query :: rest
        /\ List.length rest <= 4)
  /\ (forall response query,
         Forall clean_entry
                (tl (breakdown_query true (Generated response) query))).
Proof.
  assert (Hgen : forall response query,
             exists rest,
               breakdown_query true (Generated response) query = query :: rest
               /\ List.length rest <= 4 /\ Forall clean_entry rest).
  { intros response query. unfold breakdown_query. cbn [negb].
    destruct (parse_lines_shape query
                (split_on Query.newline (strip response)) []
                (split_on_no_sep _ _) (Nat.le_0_l _)
                (List.Forall_nil clean_entry))
      as (rest & Hr & Hlen & Hclean).
    exists rest. rewrite Hr. split; [|auto].
    apply firstn_all2. simpl. lia. }
  split.
  - intros use_ollama outcome query. unfold breakdown_query.
    destruct use_ollama; cbn [negb];
      [|apply ApiFacts.breakdown_query_head].
    destruct outcome as [response|];
      [|apply ApiFacts.breakdown_query_head].
    destruct (Hgen response query) as (rest & Hr & Hlen & _).
    exists rest. split; [exact Hr | exact Hlen].
  - intros response query.
    destruct (Hgen response query) as (rest & -> & _ & Hclean). exact Hclean.
Qed.

(** A response of blanks only gives the query alone: the deterministic
    planner is not consulted. *)
Theorem llm_blank_response (response query : string) :
  all_chars is_space response = true ->
  breakdown_query true (Generated response) query = [query].
Proof.
  intros Hb. unfold breakdown_query, strip. cbn [negb].
  now rewrite (PlannerMore.lstrip_all _ _ Hb).
Qed.

End LlmFacts.

(** ** The engine adapters *)

Module AdapterFacts.

Import Text Llm Adapters.

(** *** Wikipedia *)

Lemma for_range_wikipedia titles descriptions urls i n :
  i + n <= List.length titles ->
  (i + n <= List.length descriptions /\ i + n <= List.length urls ->
   exists rs,
     for_range (wikipedia_item titles descriptions urls) i n = Some rs
     /\ List.map title rs = firstn n (skipn i titles)
     /\ Forall (fun r => source r = "Wikipedia" /\ snippet r <> "") rs)
  /\ (0 < n ->
      List.length descriptions < i + n \/ List.length urls < i + n ->
      for_range (wikipedia_item titles descriptions urls) i n = None).
Proof.
  revert i. induction n as [|n IH]; intros i Ht.
  - split; [|lia]. intros _. exists []. repeat split; constructor.
  - destruct (IH (S i)) as [IHok IHfail]; [lia|]. split.
    + intros [Hd Hu]. cbn [for_range]. unfold wikipedia_item at 1.
      destruct (nth_error titles i) as [t|] eqn:Et;
        [|apply nth_error_None in Et; lia].
      destruct (nth_error descriptions i) as [d|] eqn:Ed;
        [|apply nth_error_None in Ed; lia].
      destruct (nth_error urls i) as [u|] eqn:Eu;
        [|apply nth_error_None in Eu; lia].
      destruct IHok as (rs & -> & Hmap & Hall); [lia|].
      eexists. split; [reflexivity|]. split.
      * cbn [List.map title]. rewrite Hmap.
        destruct (nth_error_split _ _ Et) as (l1 & l2 & -> & <-).
        rewrite !skipn_app, !skipn_all, !Nat.sub_diag.
        replace (S (List.length l1) - List.length l1) with 1 by lia.
        rewrite skipn_all2 by lia. reflexivity.
      * constructor; [|exact Hall]. split; [reflexivity|]. simpl.
        destruct (String.eqb_spec d ""); [discriminate | assumption].
    + intros _ Hshort. cbn [for_range]. unfold wikipedia_item at 1.
      destruct (nth_error titles i) as [t|]; [|reflexivity].
      destruct (nth_error descriptions i) as [d|] eqn:Ed; [|reflexivity].
      destruct (nth_error urls i) as [u|] eqn:Eu; [|reflexivity].
      assert (Hdi : i < List.length descriptions)
        by (apply nth_error_Some; congruence).
      assert (Hui : i < List.length urls)
        by (apply nth_error_Some; congruence).
      rewrite IHfail; [reflexivity | lia | lia].
Qed.

(** The Wikipedia adapter is all or nothing: when the description and URL
    lists are at least as long as the title list it gives one result per
    title, in order, each from source "Wikipedia" and with a non-empty
    snippet; when either is shorter it gives no result at all. *)
Theorem wikipedia_all_or_nothing (titles descriptions urls : list string) :
  List.map title (wikipedia_results titles descriptions urls)
  = (if Nat.leb (List.length titles) (List.length descriptions)
        && Nat.leb (List.length titles) (List.length urls)
     then titles else [])
  /\ Forall (fun r => source r = "Wikipedia" /\ snippet r <> "")
            (wikipedia_results titles descriptions urls).
Proof.
  unfold wikipedia_results.
  destruct (for_range_wikipedia titles descriptions urls 0
              (List.length titles) (le_n _)) as [Hok Hfail].
  destruct (Nat.leb_spec (List.length titles) (List.length descriptions))
    as [Hd|Hd];
    [destruct (Nat.leb_spec (List.length titles) (List.length urls))
       as [Hu|Hu]|].
  - destruct Hok as (rs & -> & Hmap & Hall); [simpl; lia|].
    split; [|exact Hall]. rewrite Hmap. simpl. apply firstn_all.
  - rewrite Hfail by (simpl; lia). split; [reflexivity | constructor].
  - rewrite Hfail by (simpl; lia). split; [reflexivity | constructor].
Qed.

(** *** Wikidata *)

Lemma split_on_absent sep s :
  contains_char sep s = false -> split_on sep s = [s].
Proof.
  induction s as [|c s IH]; [reflexivity|]. cbn [contains_char split_on].
  intros H. apply orb_false_iff in H as [Hc Hs].
  rewrite Ascii.eqb_sym, Hc, (IH Hs). reflexivity.
Qed.

Lemma split_on_app_sep sep (a b : string) :
  split_on sep (a +:+ String sep b) = split_on sep a ++ split_on sep b.
Proof.
  induction a as [|c a IH].
  - change ("" +:+ String sep b) with (String sep b).
    cbn [split_on]. now rewrite Ascii.eqb_refl.
  - change (String c a +:+ String sep b) with (String c (a +:+ String sep b)).
    cbn [split_on]. rewrite IH.
    destruct (Ascii.eqb c sep); [reflexivity|].
    pose proof (LlmFacts.split_on_nonempty sep a) as Hne.
    destruct (split_on sep a) as [|h t]; [congruence | reflexivity].
Qed.

Lemma last_app_nonempty {A} (l1 l2 : list A) d :
  l2 <> [] -> List.last (l1 ++ l2) d = List.last l2 d.
Proof.
  intros Hne. induction l1 as [|x l1 IH]; [reflexivity|].
  cbn [app]. change (List.last (x :: l1 ++ l2) d)
    with (match l1 ++ l2 with [] => x | _ :: _ => List.last (l1 ++ l2) d end).
  destruct (l1 ++ l2) eqn:E; [|exact IH].
  apply app_eq_nil in E as [_ E]. congruence.
Qed.

Lemma last_segment_no_slash s : contains_char "/"%char (last_segment s) = false.
Proof.
  unfold last_segment.
  pose proof (LlmFacts.split_on_no_sep "/"%char s) as Hall.
  pose proof (LlmFacts.split_on_nonempty "/"%char s) as Hne.
  destruct (exists_last Hne) as (l & x & E). rewrite E in *.
  rewrite last_last. apply Forall_app in Hall as [_ Hx].
  now inversion Hx.
Qed.

Lemma last_segment_app (p id : string) :
  contains_char "/"%char id = false ->
  last_segment (p +:+ String "/"%char id) = id.
Proof.
  intros Hid. unfold last_segment.
  rewrite split_on_app_sep, (split_on_absent _ _ Hid).
  now rewrite last_app_nonempty.
Qed.

(** The Wikidata adapter gives one result per binding, from source
    "Wikidata", with a non-empty snippet and with the wiki URL of an
    entity id that holds no slash. *)
Theorem wikidata_results_shape (bindings : list binding) :
  List.length (wikidata_parse bindings) = List.length bindings
  /\ Forall (fun r => source r = "Wikidata" /\ snippet r <> ""
                      /\ exists id,
                          url r = "https://www.wikidata.org/wiki/" +:+ id
                          /\ contains_char "/"%char id = false)
            (wikidata_parse bindings).
Proof.
  unfold wikidata_parse. split; [apply length_map|].
  apply List.Forall_forall. intros r Hin.
  apply in_map_iff in Hin as (b & <- & _). unfold wikidata_result.
  cbn [source snippet url]. split; [reflexivity|]. split.
  - destruct (String.eqb_spec (or_default "" (b_itemDescription b)) "");
      [discriminate | assumption].
  - eexists. split; [reflexivity | apply last_segment_no_slash].
Qed.

(** An entity URI that ends in "/<id>" is turned into the wiki URL of
    that id. *)
Theorem wikidata_entity_url (item : binding) (base id : string) :
  b_item item = Some (base +:+ String "/"%char id) ->
  contains_char "/"%char id = false ->
  url (wikidata_result item) = "https://www.wikidata.org/wiki/" +:+ id.
Proof.
  intros Hitem Hid. unfold wikidata_result. cbn [url].
  rewrite Hitem. cbn [or_default]. now rewrite last_segment_app.
Qed.

(** *** SearXNG *)

Lemma searxng_parse_source items max_results :
  Forall (fun r => source r = "SearXNG") (searxng_parse items max_results).
Proof.
  unfold searxng_parse. apply List.Forall_forall. intros r Hin.
  now apply in_map_iff in Hin as (it & <- & _).
Qed.

Lemma searxng_parse_length items max_results :
  (0 <= max_results)%Z ->
  (Z.of_nat (List.length (searxng_parse items max_results)) <= max_results)%Z.
Proof.
  intros H. unfold searxng_parse. rewrite length_map.
  unfold Py.slice_to. destruct (Z.leb_spec 0 max_results); [|lia].
  rewrite length_firstn. lia.
Qed.

Lemma searxng_attempts_step fetch max_results n k :
  searxng_attempts fetch max_results (S n) k
  = match attempt_results (fetch k) max_results with
    | [] => searxng_attempts fetch max_results n (S k)
    | results => results
    end.
Proof. cbn [searxng_attempts]. now destruct (fetch k). Qed.

Lemma searxng_attempts_first fetch max_results n k j :
  k <= j < k + n ->
  attempt_results (fetch j) max_results <> [] ->
  (forall i, k <= i < j -> attempt_results (fetch i) max_results = []) ->
  searxng_attempts fetch max_results n k
  = attempt_results (fetch j) max_results.
Proof.
  revert k. induction n as [|n IH]; intros k Hj Hne Hbefore; [lia|].
  rewrite searxng_attempts_step.
  destruct (Nat.eq_dec j k) as [->|Hjk].
  - now destruct (attempt_results (fetch k) max_results).
  - rewrite (Hbefore k) by lia.
    apply IH; [lia | exact Hne |]. intros i Hi. apply Hbefore. lia.
Qed.

Lemma searxng_attempts_none fetch max_results n k :
  (forall i, k <= i < k + n -> attempt_results (fetch i) max_results = []) ->
  searxng_attempts fetch max_results n k = [].
Proof.
  revert k. induction n as [|n IH]; intros k H; [reflexivity|].
  rewrite searxng_attempts_step, (H k) by lia.
  apply IH. intros i Hi. apply H. lia.
Qed.

(** The result is that of some attempt, or nothing. *)
Lemma searxng_attempts_from fetch max_results n k :
  searxng_attempts fetch max_results n k = []
  \/ exists j, k <= j < k + n
       /\ searxng_attempts fetch max_results n k
          = attempt_results (fetch j) max_results.
Proof.
  revert k. induction n as [|n IH]; intros k; [now left|].
  rewrite searxng_attempts_step.
  destruct (attempt_results (fetch k) max_results) as [|r rs] eqn:E.
  - destruct (IH (S k)) as [H|(j & Hj & H)]; [now left|].
    right. exists j. split; [lia | exact H].
  - right. exists k. split; [lia | now rewrite E].
Qed.

Lemma attempt_results_source a max_results :
  Forall (fun r => source r = "SearXNG") (attempt_results a max_results).
Proof.
  destruct a; [apply searxng_parse_source | constructor | constructor].
Qed.

Lemma attempt_results_length a max_results :
  (0 <= max_results)%Z ->
  (Z.of_nat (List.length (attempt_results a max_results)) <= max_results)%Z.
Proof.
  intros H. destruct a; [now apply searxng_parse_length | |]; simpl; lia.
Qed.

Lemma searxng_attempts_ext fetch fetch' max_results n k :
  (forall i, k <= i < k + n -> fetch' i = fetch i) ->
  searxng_attempts fetch' max_results n k
  = searxng_attempts fetch max_results n k.
Proof.
  revert k. induction n as [|n IH]; intros k H; [reflexivity|].
  cbn [searxng_attempts]. rewrite (H k) by lia.
  rewrite (IH (S k)) by (intros i Hi; apply H; lia). reflexivity.
Qed.

(** The SearXNG adapter answers with the results of the first of three
    attempts that has status 200 and a non-empty result list, and with
    nothing when there is none; a status 200 without results is retried
    like a failure, and no fourth attempt is made.  The results are from
    source "SearXNG" and, for a non-negative max-results, at most that
    many. *)
Theorem searxng_first_useful_attempt (fetch : nat -> answer) (max_results : Z) :
  (forall j,
      j < 3 ->
      attempt_results (fetch j) max_results <> [] ->
      (forall i, i < j -> attempt_results (fetch i) max_results = []) ->
      searxng_search fetch max_results
      = attempt_results (fetch j) max_results)
  /\ ((forall i, i < 3 -> attempt_results (fetch i) max_results = []) ->
      searxng_search fetch max_results = [])
  /\ (forall fetch', (forall i, i < 3 -> fetch' i = fetch i) ->
                     searxng_search fetch' max_results
                     = searxng_search fetch max_results)
  /\ Forall (fun r => source r = "SearXNG") (searxng_search fetch max_results)
  /\ ((0 <= max_results)%Z ->
      (Z.of_nat (List.length (searxng_search fetch max_results))
       <= max_results)%Z).
Proof.
  unfold searxng_search.
  pose proof (searxng_attempts_from fetch max_results 3 0) as Hfrom.
  split; [|split; [|split; [|split]]].
  - intros j Hj Hne Hbefore. apply searxng_attempts_first;
      [lia | exact Hne |]. intros i Hi. apply Hbefore. lia.
  - intros H. apply searxng_attempts_none. intros i Hi. apply H. lia.
  - intros fetch' H. apply searxng_attempts_ext. intros i Hi. apply H. lia.
  - destruct Hfrom as [->|(j & _ & ->)];
      [constructor | apply attempt_results_source].
  - intros Hm. destruct Hfrom as [->|(j & _ & ->)];
      [simpl; lia | now apply attempt_results_length].
Qed.

End AdapterFacts.

(** ** The further properties on concrete inputs *)

Module MoreExamples.

Import Text Synth Scenario MoreScenario.

(** A page with the encyclopedia's text and a new URL is dropped as a
    near-duplicate. *)
Lemma new_url_witness :
  (key mirror ∉ List.map key (_deduplicate exact_ratio [wiki]))
  /\ _deduplicate exact_ratio ([wiki] ++ [mirror]) = [wiki].
Proof.
  assert (H : key mirror ∉ List.map key (_deduplicate exact_ratio [wiki])).
  { intros Hin. apply list_elem_of_In in Hin. vm_compute in Hin.
    destruct Hin as [Hin|[]]. discriminate Hin. }
  split; [exact H|].
  rewrite (DedupSteps.deduplicate_new_url exact_ratio [wiki] mirror H).
  vm_compute. reflexivity.
Defined.

(** The encyclopedia's report replaces the open index's report of the
    same page. *)
Lemma held_url_witness :
  ddg ∈ _deduplicate exact_ratio [ddg] /\ key ddg = key wiki
  /\ _deduplicate exact_ratio ([ddg] ++ [wiki]) = [wiki].
Proof.
  assert (H1 : ddg ∈ _deduplicate exact_ratio [ddg]).
  { apply list_elem_of_In. left. reflexivity. }
  assert (H2 : key ddg = key wiki) by reflexivity.
  split; [exact H1|]. split; [exact H2|].
  rewrite (DedupSteps.deduplicate_held_url exact_ratio [ddg] wiki ddg H1 H2).
  vm_compute. reflexivity.
Defined.

Lemma uncut_witness :
  Py.slice_len None
    (total_unique (synthesize exact_ratio hash_order "photosynthesis"
                              raw_photo None))
  = total_unique (synthesize exact_ratio hash_order "photosynthesis"
                             raw_photo None)
  /\ Permutation
       (results (synthesize exact_ratio hash_order "photosynthesis"
                            raw_photo None))
       (_score_results "photosynthesis"
          (_deduplicate exact_ratio (List.concat (Py.values raw_photo)))
          raw_photo).
Proof.
  assert (H : Py.slice_len None
                (total_unique (synthesize exact_ratio hash_order
                                 "photosynthesis" raw_photo None))
              = total_unique (synthesize exact_ratio hash_order
                                "photosynthesis" raw_photo None))
    by reflexivity.
  split; [exact H|].
  exact (FusionMore.uncut_returns_all_survivors exact_ratio hash_order
           "photosynthesis" raw_photo None H).
Defined.

Lemma no_trailing_slash_witness :
  contains_char "?"%char "https://en.wikipedia.org/wiki/Photosynthesis/" = false
  /\ contains_char "#"%char "https://en.wikipedia.org/wiki/Photosynthesis/"
     = false
  /\ ends_with "/"%char
       (_normalize_url "https://en.wikipedia.org/wiki/Photosynthesis/") = false.
Proof.
  split; [reflexivity|]. split; [reflexivity|].
  exact (NormalizeMore.normalize_no_trailing_slash
           "https://en.wikipedia.org/wiki/Photosynthesis/" eq_refl eq_refl).
Defined.

Lemma scheme_www_witness :
  starts_with "https://" "example.com/a" = false
  /\ starts_with "http://" "example.com/a" = false
  /\ starts_with "www." "example.com/a" = false
  /\ _normalize_url ("http://" +:+ "example.com/a")
     = _normalize_url "example.com/a"
  /\ _normalize_url ("https://" +:+ "example.com/a")
     = _normalize_url "example.com/a"
  /\ _normalize_url ("www." +:+ "example.com/a")
     = _normalize_url "example.com/a"
  /\ _normalize_url ("http://www." +:+ "example.com/a")
     = _normalize_url "example.com/a"
  /\ _normalize_url ("https://www." +:+ "example.com/a")
     = _normalize_url "example.com/a".
Proof.
  split; [reflexivity|]. split; [reflexivity|]. split; [reflexivity|].
  exact (NormalizeMore.normalize_scheme_www_insensitive "example.com/a"
           eq_refl eq_refl eq_refl).
Defined.

(** A "who" question with two keywords. *)
Lemma query_alone_witness :
  ((Query._detect_intent (lower "who invented the telephone") = "definition"
    /\ Query._extract_main_term "who invented the telephone" = "")
   \/ (Query._detect_intent (lower "who invented the telephone")
       <> "definition"
       /\ Query._detect_intent (lower "who invented the telephone") <> "how"
       /\ List.length (Query._extract_keywords "who invented the telephone")
          <= 2))
  /\ Query.breakdown_query "who invented the telephone"
     = ["who invented the telephone"].
Proof.
  assert (H : (Query._detect_intent (lower "who invented the telephone")
               = "definition"
               /\ Query._extract_main_term "who invented the telephone" = "")
              \/ (Query._detect_intent (lower "who invented the telephone")
                  <> "definition"
                  /\ Query._detect_intent (lower "who invented the telephone")
                     <> "how"
                  /\ List.length
                       (Query._extract_keywords "who invented the telephone")
                     <= 2)).
  { right. split; [|split].
    - vm_compute. discriminate.
    - vm_compute. discriminate.
    - vm_compute. lia. }
  split; [exact H|].
  exact (PlannerMore.plan_is_query_alone "who invented the telephone" H).
Defined.

Lemma how_query_witness :
  Query._detect_intent (lower "how to bake bread") = "how"
  /\ Query.breakdown_query "how to bake bread"
     = [ "how to bake bread"; "how to bake bread" +:+ " tutorial";
         "how to bake bread" +:+ " guide";
         "how to bake bread" +:+ " step by step" ].
Proof.
  assert (H : Query._detect_intent (lower "how to bake bread") = "how")
    by (vm_compute; reflexivity).
  split; [exact H|].
  exact (PlannerMore.how_query_plan "how to bake bread" H).
Defined.

Lemma streaming_any_engines_witness :
  NoDup (Py.keys engines_mixed) /\ two_sub_queries <> []
  /\ exists batch streamed,
       Orch.search_all 10 engines_mixed "solar panels" two_sub_queries 8
       = Some batch
       /\ Orch.search_all_streaming 10 engines_mixed "solar panels"
                                    two_sub_queries [3; 1] = Some streamed
       /\ Permutation streamed batch
       /\ Permutation (Py.keys streamed) (Py.keys engines_mixed)
       /\ Orch.search_all_streaming 10 engines_mixed "solar panels"
                                    two_sub_queries [] = Some batch.
Proof.
  assert (Hnd : NoDup (Py.keys engines_mixed))
    by (apply Examples.distinct_names; vm_compute; reflexivity).
  assert (Hne : two_sub_queries <> []) by discriminate.
  split; [exact Hnd|]. split; [exact Hne|].
  exact (OrchMore.streaming_is_batch_with_timeout_8 10 engines_mixed
           "solar panels" two_sub_queries [3; 1] Hnd Hne).
Defined.

Lemma sub_query_searched_witness :
  List.length two_sub_queries <= List.length engines_mixed
  /\ nth_error two_sub_queries 1 = Some "solar panels cost"
  /\ exists tasks t,
       Orch.create_tasks 15 two_sub_queries engines_mixed [] = Some tasks
       /\ nth_error tasks 1 = Some t
       /\ Orch.task_query t = "solar panels cost"
       /\ nth_error (Py.keys engines_mixed) 1 = Some (Orch.task_name t).
Proof.
  assert (H1 : List.length two_sub_queries <= List.length engines_mixed)
    by (vm_compute; lia).
  assert (H2 : nth_error two_sub_queries 1 = Some "solar panels cost")
    by reflexivity.
  split; [exact H1|]. split; [exact H2|].
  exact (OrchMore.every_sub_query_searched engines_mixed 15 two_sub_queries
           1 "solar panels cost" H1 H2).
Defined.



Lemma blank_response_witness :
  TextMore.all_chars is_space "   " = true
  /\ Llm.breakdown_query true (Llm.Generated "   ") "what is photosynthesis"
     = ["what is photosynthesis"].
Proof.
  split; [reflexivity|].
  exact (LlmFacts.llm_blank_response "   " "what is photosynthesis" eq_refl).
Defined.

Lemma entity_url_witness :
  Adapters.b_item q42
  = Some ("http://www.wikidata.org/entity" +:+ String "/"%char "Q42")
  /\ contains_char "/"%char "Q42" = false
  /\ url (Adapters.wikidata_result q42)
     = "https://www.wikidata.org/wiki/" +:+ "Q42".
Proof.
  split; [reflexivity|]. split; [reflexivity|].
  exact (AdapterFacts.wikidata_entity_url q42
           "http://www.wikidata.org/entity" "Q42" eq_refl eq_refl).
Defined.

(** The LLM's enumeration marks are removed and the plan is cut at five
    entries. *)
Example llm_numbered_response :
  Llm.breakdown_query true
    (Llm.Generated
       ("1. solar panels cost" +:+ String Query.newline
        ("2) solar panel efficiency  " +:+ String Query.newline
        (String Query.newline
        ("- install" +:+ String Query.newline
        ("a" +:+ String Query.newline "b"))))))
    "solar"
  = ["solar"; "solar panels cost"; "solar panel efficiency"; "install"; "a"].
Proof. vm_compute. reflexivity. Qed.

(** A description list shorter than the title list loses every result. *)
Example wikipedia_short_descriptions :
  Adapters.wikipedia_results ["A"; "B"] [""] ["u1"; "u2"] = []
  /\ Adapters.wikipedia_results ["A"; "B"] [""; "about B"] ["u1"; "u2"]
     = [ mkResult "A" "Wikipedia article for A" "u1" "Wikipedia";
         mkResult "B" "about B" "u2" "Wikipedia" ].
Proof. split; reflexivity. Qed.

(** The main term of a question with a tail. *)
Lemma main_term_witness :
  Query._extract_main_term "What is photosynthesis? And why"
  = "photosynthesis".
Proof.
  destruct (PlannerMore.main_term_trimmed "What is photosynthesis? And why")
    as (_ & _ & _ & H).
  apply (H "photosynthesis" " And why");
    [discriminate | reflexivity | reflexivity | reflexivity
     | repeat constructor | right; reflexivity].
Defined.

(** A failure, then a status 200 without results, then results: the third
    attempt answers. *)
Lemma searxng_witness :
  Adapters.searxng_search
    (fun k => match k with
              | 0 => Adapters.HttpError
              | 1 => Adapters.Http200 []
              | _ => Adapters.Http200
                       [Adapters.mkItem (Some "T") None (Some "u")]
              end) 10
  = [mkResult "T" "" "u" "SearXNG"].
Proof.
  destruct (AdapterFacts.searxng_first_useful_attempt
              (fun k => match k with
                        | 0 => Adapters.HttpError
                        | 1 => Adapters.Http200 []
                        | _ => Adapters.Http200
                                 [Adapters.mkItem (Some "T") None (Some "u")]
                        end) 10) as (H & _).
  rewrite (H 2); [reflexivity | lia | discriminate |].
  intros [|[|i]] Hi; [reflexivity | reflexivity | lia].
Defined.

(** The floats decide the order of two pages whose final scores are both
    17/50 in exact arithmetic: 0.0 * 0.4 + 1.0 * 0.3 + 0.2 * 0.2
    + 0.0 * 0.1 is 0.33999999999999997 and 0.125 * 0.4 + 0.6 * 0.3
    + 0.2 * 0.2 + 0.7 * 0.1 is 0.34, so the second page is ranked
    first. *)
Example floats_break_a_tie ratio set_iter :
  List.map unscored
    (results (synthesize ratio set_iter "alpha" raw_tie None))
  = [tie_searx; tie_wiki]
  /\ List.map (fun sr => Qred (final_score sr))
       (results (synthesize ratio set_iter "alpha" raw_tie None))
     = [ Qred (Binary64.lit (34 # 100));
         Qred (Binary64.lit (34 # 100) - (1 # 18014398509481984)) ]
  /\ ((4 # 10) * (1 # 8) + (3 # 10) * (3 # 5) + (2 # 10) * (1 # 5)
      + (1 # 10) * (7 # 10)
      == (4 # 10) * 0 + (3 # 10) * 1 + (2 # 10) * (1 # 5) + (1 # 10) * 0)%Q.
Proof.
  split; [vm_compute; reflexivity|].
  split; [vm_compute; reflexivity | reflexivity].
Qed.

End MoreExamples.
